(** * The persistence layer of the oracle node (store/orm, store/models)

    A shallow embedding of the Go code of [store/orm/orm.go] and of the
    bulk-delete model file of [store/models], together with the properties
    of the store that the transaction manager, the head tracker and the run
    scheduler rely on.

    Go values are modelled as follows.
    - [uint64] and [uint] values are [N]; no arithmetic is performed on them
      by the embedded functions.
    - [*big.Int] / [*models.Big] values are [Z].
    - Go [string]s are [string] (sequences of bytes), [[]byte] is a list of
      bytes.
    - A Go [error] is the list of the errors it aggregates, the way
      [go.uber.org/multierr] flattens them: [[]] is the nil error.
    - The database behind [*gorm.DB] is a record of tables, each the list of
      its rows in rowid order, threaded explicitly through every function
      together with a script of the failures the driver will report. *)

From Stdlib Require Import List String Ascii ZArith NArith Bool Arith Lia.
From Stdlib Require Import Sorted Permutation.
Import ListNotations.

Local Open Scope list_scope.

(* ===================================================================== *)
(** ** Errors *)
(* ===================================================================== *)

(** [database/sql/driver.Value]: what a column value is handed over as.
    (The floating point case is not used by the embedded code.) *)
Module driver.
Inductive Value : Type :=
| Nil
| Int64 (i : Z)
| Bool (b : bool)
| Bytes (b : list Byte.byte)      (* []byte, that is []uint8 *)
| Str (s : string)                (* string *)
| Time (t : N).
End driver.

Inductive Error : Type :=
| ErrRecordNotFound                (* gorm.ErrRecordNotFound *)
| ErrDriver (msg : string)         (* an error reported by the SQL driver *)
| ErrEncode (msg : string)         (* an rlp encoding error of go-ethereum *)
| Errorf (format : string) (args : list driver.Value).  (* fmt.Errorf *)

(** A Go [error] value: the flattened list of aggregated errors. *)
Definition error : Type := list Error.

(** [e == gorm.ErrRecordNotFound] *)
Definition is_ErrRecordNotFound (e : Error) : bool :=
  match e with ErrRecordNotFound => true | _ => false end.

(** [multierr.Append]: appending to the nil error gives the error itself. *)
Definition multierr_Append (merr : error) (e : Error) : error := merr ++ [e].

(* ===================================================================== *)
(** ** store/models: the records the ORM persists *)
(* ===================================================================== *)

Module models.

(** [common.Address] (20 bytes) and [common.Hash] (32 bytes), as the
    number their bytes spell; the zero value is [0]. *)
Definition Address : Type := N.
Definition Hash : Type := N.

(** Modelled from the spec: the declarations of [models.TxAttempt],
    [models.Tx] and [Tx.AssignTxAttempt] are not among the sources.  The
    fields are those the ORM reads and writes; following the data model,
    a Tx carries its confirmed flag and a pointer to its currently active
    attempt (the attempt's hash, by which attempts are looked up). *)
Record TxAttempt : Type := mkTxAttempt {
  TxAttempt_Hash : Hash;
  TxAttempt_TxID : N;
  TxAttempt_GasPrice : Z;
  TxAttempt_Confirmed : bool;
  TxAttempt_Hex : string;
  TxAttempt_SentAt : N
}.

Record Tx : Type := mkTx {
  Tx_ID : N;
  Tx_From : Address;
  Tx_To : Address;
  Tx_Data : list Byte.byte;
  Tx_Nonce : N;
  Tx_Value : Z;
  Tx_GasLimit : N;
  Tx_Confirmed : bool;
  Tx_Attempt : option Hash
}.

(** The zero values [models.Tx{}] and [models.TxAttempt{}]. *)
Definition Tx_zero : Tx := mkTx 0%N 0%N 0%N [] 0%N 0%Z 0%N false None.
Definition TxAttempt_zero : TxAttempt :=
  mkTxAttempt 0%N 0%N 0%Z false EmptyString 0%N.

(** Modelled from the spec: [tx.AssignTxAttempt(txat)] makes [txat] the
    active attempt of [tx].  [ConfirmTx] relies on it to carry the
    attempt's confirmed flag over to the Tx. *)
Definition AssignTxAttempt (tx : Tx) (txat : TxAttempt) : Tx :=
  mkTx (Tx_ID tx) (Tx_From tx) (Tx_To tx) (Tx_Data tx) (Tx_Nonce tx)
       (Tx_Value tx) (Tx_GasLimit tx)
       (TxAttempt_Confirmed txat) (Some (TxAttempt_Hash txat)).

Definition Tx_with_ID (tx : Tx) (id : N) : Tx :=
  mkTx id (Tx_From tx) (Tx_To tx) (Tx_Data tx) (Tx_Nonce tx)
       (Tx_Value tx) (Tx_GasLimit tx) (Tx_Confirmed tx) (Tx_Attempt tx).

Definition TxAttempt_with_Confirmed (a : TxAttempt) (c : bool) : TxAttempt :=
  mkTxAttempt (TxAttempt_Hash a) (TxAttempt_TxID a) (TxAttempt_GasPrice a)
              c (TxAttempt_Hex a) (TxAttempt_SentAt a).

(** [types.Transaction] of go-ethereum, by what the ORM observes of it:
    its hash, its gas price and the outcome of [utils.EncodeTxToHex]. *)
Record Transaction : Type := mkTransaction {
  etx_Hash : Hash;
  etx_GasPrice : Z;
  etx_EncodeTxToHex : string + Error
}.

(** Modelled from the spec: [models.IndexableBlockNumber], the persisted
    head: number, number of digits of the number, hash. *)
Record IndexableBlockNumber : Type := mkIndexableBlockNumber {
  Head_Number : N;
  Head_Digits : N;
  Head_Hash : Hash
}.

Definition IndexableBlockNumber_zero : IndexableBlockNumber :=
  mkIndexableBlockNumber 0%N 0%N 0%N.

(** Modelled from the spec: the declaration of [models.Initiator] is not
    among the sources; the fields are those the sources use ([ID] and
    [JobSpecID] in [SaveJob]; [Type], [Schedule], [Time], [Ran] and
    [Address] in the presenters). *)
Record Initiator : Type := mkInitiator {
  Initiator_ID : string;
  Initiator_JobSpecID : string;
  Initiator_Type : string;
  Initiator_Schedule : string;
  Initiator_Time : N;
  Initiator_Ran : bool;
  Initiator_Address : Address
}.

Definition Initiator_zero : Initiator :=
  mkInitiator EmptyString EmptyString EmptyString EmptyString 0%N false 0%N.

Definition Initiator_with_Ran (i : Initiator) (ran : bool) : Initiator :=
  mkInitiator (Initiator_ID i) (Initiator_JobSpecID i) (Initiator_Type i)
              (Initiator_Schedule i) (Initiator_Time i) ran
              (Initiator_Address i).

(** Modelled from the spec: the declarations of [models.JobSpec],
    [models.JobRun] and [models.TaskRun] are not among the sources; the
    fields are the columns the ORM names in its queries. *)
Record JobSpec : Type := mkJobSpec {
  JobSpec_ID : string;
  JobSpec_Initiators : list Initiator;
  JobSpec_CreatedAt : N
}.

(** [models.RunStatus] is a string type: the sources convert it to and
    from [string]. *)
Definition RunStatus : Type := string.

Record JobRun : Type := mkJobRun {
  JobRun_ID : string;
  JobRun_JobSpecID : string;
  JobRun_Status : RunStatus;
  JobRun_CreatedAt : N
}.

Record TaskRun : Type := mkTaskRun {
  TaskRun_ID : string;
  TaskRun_JobRunID : string;
  TaskRun_Status : RunStatus
}.

(** Modelled from the spec: the head's number is stored as text, in
    decimal, and [Head_Digits] is the length of that text (the
    "monotonically-padded sortable number" of the data model).
    [decimal_lsd] lists the decimal digits of a number, least significant
    first; the fuel is the number of binary digits, which is enough. *)
Fixpoint decimal_lsd (fuel : nat) (n : N) : list N :=
  match fuel with
  | O => [(n mod 10)%N]
  | S f =>
      (n mod 10)%N ::
      (if (n / 10 =? 0)%N then [] else decimal_lsd f (n / 10)%N)
  end.

Definition decimal (n : N) : list N :=
  rev (decimal_lsd (N.to_nat (N.size n)) n).

Definition digit_char (d : N) : ascii := ascii_of_N (48 + d).

(** Modelled from the spec: [Big.String], the decimal text of a number,
    which is what the number column holds. *)
Definition Big_String (n : N) : string :=
  string_of_list_ascii (map digit_char (decimal n)).

(** Modelled from the spec: the constructor of a head from a block
    number and a hash. *)
Definition NewIndexableBlockNumber (n : N) (hash : Hash)
    : IndexableBlockNumber :=
  mkIndexableBlockNumber n (N.of_nat (String.length (Big_String n))) hash.

(** *** Bulk deletion of runs *)

(** [strings.Join] and [strings.Split] of the Go library, the latter for
    a separator of one byte. *)
Definition strings_Join (elems : list string) (sep : string) : string :=
  String.concat sep elems.

Fixpoint strings_Split (s : string) (sep : ascii) : list string :=
  match s with
  | EmptyString => [EmptyString]
  | String c rest =>
      if Ascii.eqb c sep then EmptyString :: strings_Split rest sep
      else
        match strings_Split rest sep with
        | x :: xs => String c x :: xs
        | [] => [String c EmptyString]
        end
  end.

Definition comma : ascii := ","%char.

Definition BulkTaskStatus : Type := string.
Definition BulkTaskStatusInProgress : BulkTaskStatus := EmptyString.
Definition BulkTaskStatusErrored : BulkTaskStatus := "errored"%string.
Definition BulkTaskStatusCompleted : BulkTaskStatus := "completed"%string.

Definition BulkTaskStatus_Value (t : BulkTaskStatus) : driver.Value * error :=
  (driver.Str t, []).

(** [Scan] writes through its receiver: the first component is the
    receiver afterwards. *)
Definition BulkTaskStatus_Scan (t : BulkTaskStatus) (value : driver.Value)
    : BulkTaskStatus * error :=
  match value with
  | driver.Bytes temp => (string_of_list_byte temp, [])
  | _ =>
      (t, [Errorf "Unable to convert %v of %T to BulkTaskStatus"
                  [value; value]])
  end.

(** [gorm.Model]: id and the three timestamps. *)
Record Model : Type := mkModel {
  Model_ID : N;
  Model_CreatedAt : N;
  Model_UpdatedAt : N;
  Model_DeletedAt : option N
}.

Definition RunStatusCollection : Type := list RunStatus.

Record BulkDeleteRunRequest : Type := mkBulkDeleteRunRequest {
  BulkDeleteRunRequest_Model : Model;
  BulkDeleteRunRequest_Status : RunStatusCollection;
  BulkDeleteRunRequest_UpdatedBefore : N
}.

Record BulkDeleteRunTask : Type := mkBulkDeleteRunTask {
  BulkDeleteRunTask_ID : string;
  BulkDeleteRunTask_Query : BulkDeleteRunRequest;
  BulkDeleteRunTask_QueryID : N;
  BulkDeleteRunTask_Status : BulkTaskStatus;
  BulkDeleteRunTask_ErrorMessage : string;
  BulkDeleteRunTask_CreatedAt : N
}.

Section NewTask.
(** The two terminal run statuses are constants of the run model, and
    [utils.NewBytes32ID] draws a fresh id from a source of randomness;
    neither declaration is among the sources. *)
Variables RunStatusCompleted RunStatusErrored : RunStatus.
Context {Rand : Type}.
Variable NewBytes32ID : Rand -> string * Rand.

(** The loop over [request.Status]: the error of the first status that
    cannot be deleted, or nil. *)
Fixpoint check_statuses (statuses : list RunStatus) : error :=
  match statuses with
  | [] => []
  | status :: rest =>
      if negb (String.eqb status RunStatusCompleted)
         && negb (String.eqb status RunStatusErrored)
      then [Errorf "cannot delete Runs with status %s" [driver.Str status]]
      else check_statuses rest
  end.

Definition NewBulkDeleteRunTask (g : Rand) (request : BulkDeleteRunRequest)
    : Rand * (option BulkDeleteRunTask * error) :=
  match check_statuses (BulkDeleteRunRequest_Status request) with
  | (_ :: _) as err => (g, (None, err))
  | [] =>
      let '(id, g') := NewBytes32ID g in
      (g', (Some (mkBulkDeleteRunTask id request 0%N EmptyString
                                      EmptyString 0%N), []))
  end.
End NewTask.

Definition BulkDeleteRunTask_GetID (t : BulkDeleteRunTask) : string :=
  BulkDeleteRunTask_ID t.

Definition RunStatusCollection_ToStrings (r : RunStatusCollection)
    : list string :=
  map (fun e : RunStatus => e : string) r.

Definition RunStatusCollection_Value (r : RunStatusCollection)
    : driver.Value * error :=
  (driver.Str (strings_Join (RunStatusCollection_ToStrings r)
                            (String comma EmptyString)), []).

Definition RunStatusCollection_Scan (r : RunStatusCollection)
    (value : driver.Value) : RunStatusCollection * error :=
  match value with
  | driver.Bytes temp =>
      (map (fun s : string => s : RunStatus)
           (strings_Split (string_of_list_byte temp) comma), [])
  | _ =>
      (r, [Errorf "Unable to convert %v of %T to RunStatusCollection"
                  [value; value]])
  end.

(** The assignments [i.ID = id] and [i.JobSpecID = id]. *)
Definition Initiator_with_ID (i : Initiator) (id : string) : Initiator :=
  mkInitiator id (Initiator_JobSpecID i) (Initiator_Type i)
              (Initiator_Schedule i) (Initiator_Time i) (Initiator_Ran i)
              (Initiator_Address i).

Definition Initiator_with_JobSpecID (i : Initiator) (id : string)
    : Initiator :=
  mkInitiator (Initiator_ID i) id (Initiator_Type i)
              (Initiator_Schedule i) (Initiator_Time i) (Initiator_Ran i)
              (Initiator_Address i).

End models.

(* ===================================================================== *)
(** ** github.com/jinzhu/gorm over SQLite, as the ORM uses it *)
(* ===================================================================== *)

Module gorm.
Import models.

(** The tables; every table lists its rows in rowid order. *)
Record Store : Type := mkStore {
  txes : list Tx;
  tx_attempts : list TxAttempt;
  indexable_block_numbers : list IndexableBlockNumber;
  job_specs : list JobSpec;
  job_runs : list JobRun;
  task_runs : list TaskRun;
  initiators : list Initiator
}.

Definition Store_empty : Store := mkStore [] [] [] [] [] [] [].

(** The database behind a handle: its tables and the script of what the
    driver answers to the statements to come ([None]: the statement
    runs; [Some e]: it fails with [e] and changes nothing).  Past the end
    of the script every statement runs. *)
Record Database : Type := mkDatabase {
  tables : Store;
  faults : list (option Error)
}.

(** A [*gorm.DB] handle: the database it talks to and the errors
    collected on this chain of calls ([GetErrors]). *)
Record DB : Type := mkDB {
  db : Database;
  GetErrors : list Error
}.

(** [orm.DB], the root handle: no error on it. *)
Definition Root (d : Database) : DB := mkDB d [].

Definition HasError (h : DB) : bool :=
  match GetErrors h with [] => false | _ :: _ => true end.

Definition set_txes (s : Store) (v : list Tx) : Store :=
  mkStore v (tx_attempts s) (indexable_block_numbers s) (job_specs s)
          (job_runs s) (task_runs s) (initiators s).
Definition set_tx_attempts (s : Store) (v : list TxAttempt) : Store :=
  mkStore (txes s) v (indexable_block_numbers s) (job_specs s)
          (job_runs s) (task_runs s) (initiators s).
Definition set_indexable_block_numbers (s : Store)
    (v : list IndexableBlockNumber) : Store :=
  mkStore (txes s) (tx_attempts s) v (job_specs s)
          (job_runs s) (task_runs s) (initiators s).
Definition set_job_specs (s : Store) (v : list JobSpec) : Store :=
  mkStore (txes s) (tx_attempts s) (indexable_block_numbers s) v
          (job_runs s) (task_runs s) (initiators s).
Definition set_job_runs (s : Store) (v : list JobRun) : Store :=
  mkStore (txes s) (tx_attempts s) (indexable_block_numbers s) (job_specs s)
          v (task_runs s) (initiators s).
Definition set_task_runs (s : Store) (v : list TaskRun) : Store :=
  mkStore (txes s) (tx_attempts s) (indexable_block_numbers s) (job_specs s)
          (job_runs s) v (initiators s).
Definition set_initiators (s : Store) (v : list Initiator) : Store :=
  mkStore (txes s) (tx_attempts s) (indexable_block_numbers s) (job_specs s)
          (job_runs s) (task_runs s) v.

(** *** Rows of one table *)
Section Table.
Context {R K : Type} (key : R -> K) (key_eqb : K -> K -> bool).

(** [UPDATE ... WHERE pk = key r]: was any row affected, and the table
    afterwards. *)
Definition affected (r : R) (rows : list R) : bool :=
  existsb (fun x => key_eqb (key x) (key r)) rows.

Definition update (r : R) (rows : list R) : list R :=
  map (fun x => if key_eqb (key x) (key r) then r else x) rows.

(** [Save] of a row whose primary key is not blank: update, and create
    the row when the update affected none. *)
Definition upsert (r : R) (rows : list R) : list R :=
  if affected r rows then update r rows else rows ++ [r].

(** [SELECT ... WHERE pk = k LIMIT 1]. *)
Definition lookup (k : K) (rows : list R) : option R :=
  find (fun x => key_eqb (key x) k) rows.
End Table.

(** The row an [ORDER BY] puts first; [before a b] holds when [a] sorts
    strictly before [b].  Among rows that sort alike the one with the
    smallest rowid is returned. *)
Fixpoint first_by {R : Type} (before : R -> R -> bool) (rows : list R)
    : option R :=
  match rows with
  | [] => None
  | r :: rest =>
      match first_by before rest with
      | Some b => if before b r then Some b else Some r
      | None => Some r
      end
  end.

(** The id SQLite gives a row inserted with a blank integer key: one more
    than the largest in the table. *)
Definition next_id (ids : list N) : N :=
  N.succ (fold_right N.max 0%N ids).

(** *** Statements
    A statement issued on a handle that already carries an error is
    skipped; otherwise it consumes one entry of the fault script. *)
Definition next_fault (d : Database) : option Error * Database :=
  match faults d with
  | [] => (None, d)
  | f :: fs => (f, mkDatabase (tables d) fs)
  end.

(** A writing statement: [run] is applied to the tables atomically. *)
Definition exec (h : DB) (run : Store -> Store) : DB :=
  if HasError h then h
  else
    match next_fault (db h) with
    | (Some e, d) => mkDB d [e]
    | (None, d) => mkDB (mkDatabase (run (tables d)) (faults d)) []
    end.

(** A query for one row ([First]): [ErrRecordNotFound] when there is
    none, and then the destination is left as it was. *)
Definition query_one {R : Type} (h : DB) (sel : Store -> option R)
    : DB * option R :=
  if HasError h then (h, None)
  else
    match next_fault (db h) with
    | (Some e, d) => (mkDB d [e], None)
    | (None, d) =>
        match sel (tables d) with
        | Some r => (mkDB d [], Some r)
        | None => (mkDB d [ErrRecordNotFound], None)
        end
    end.

(** A query for rows ([Find] into a slice): no error when there is none. *)
Definition query_rows {R : Type} (h : DB) (sel : Store -> list R)
    : DB * list R :=
  if HasError h then (h, [])
  else
    match next_fault (db h) with
    | (Some e, d) => (mkDB d [e], [])
    | (None, d) => (mkDB d [], sel (tables d))
    end.

(** A job spec as a [Find] without [gorm:auto_preload] fills it in: the
    columns of its row, its associations not loaded. *)
Definition without_preload (j : JobSpec) : JobSpec :=
  mkJobSpec (JobSpec_ID j) [] (JobSpec_CreatedAt j).

(** [db.Save(&tx)] for a [models.Tx]: the key is the auto-incremented
    [ID]; a blank key means INSERT, and the new id is written back to the
    value. *)
Definition Save_Tx (h : DB) (tx : Tx) : DB * Tx :=
  if N.eqb (Tx_ID tx) 0 then
    let h' := exec h (fun s =>
      set_txes s (txes s ++ [Tx_with_ID tx (next_id (map Tx_ID (txes s)))])) in
    if HasError h' then (h', tx)
    else (h', Tx_with_ID tx (next_id (map Tx_ID (txes (tables (db h))))))
  else
    (exec h (fun s => set_txes s (upsert Tx_ID N.eqb tx (txes s))), tx).

(** [db.Save(&attempt)] for a [models.TxAttempt], keyed by its hash. *)
Definition Save_TxAttempt (h : DB) (a : TxAttempt) : DB :=
  exec h (fun s =>
    set_tx_attempts s
      (if N.eqb (TxAttempt_Hash a) 0 then tx_attempts s ++ [a]
       else upsert TxAttempt_Hash N.eqb a (tx_attempts s))).

(** [db.Save(n)] for a [models.IndexableBlockNumber], keyed by its hash. *)
Definition Save_IndexableBlockNumber (h : DB) (n : IndexableBlockNumber)
    : DB :=
  exec h (fun s =>
    set_indexable_block_numbers s
      (if N.eqb (Head_Hash n) 0 then indexable_block_numbers s ++ [n]
       else upsert Head_Hash N.eqb n (indexable_block_numbers s))).

(** [db.Save(initr)] for a [models.Initiator], keyed by its string id. *)
Definition Save_Initiator (h : DB) (i : Initiator) : DB :=
  exec h (fun s =>
    set_initiators s
      (if String.eqb (Initiator_ID i) EmptyString then initiators s ++ [i]
       else upsert Initiator_ID String.eqb i (initiators s))).

(** [db.Model(i).Update("ran", v)]: the field is set on the value, and
    the column on the row with the value's key, or on every row when that
    key is blank. *)
Definition Update_ran (h : DB) (i : Initiator) (v : bool) : DB * Initiator :=
  (exec h (fun s =>
     set_initiators s
       (map (fun x =>
               if String.eqb (Initiator_ID i) EmptyString
               then Initiator_with_Ran x v
               else if String.eqb (Initiator_ID x) (Initiator_ID i)
                    then Initiator_with_Ran x v else x)
            (initiators s))),
   Initiator_with_Ran i v).

(** *** Transactions
    [Begin] remembers the tables; the statements issued on the
    transaction handle work on [txn]; [Rollback] goes back to the
    remembered tables and [Commit] keeps the new ones.  An error of a
    statement stays on the handle that statement returned. *)
Record Txn : Type := mkTxn {
  snapshot : Store;
  txn : DB
}.

Definition Begin (h : DB) : Txn :=
  match next_fault (db h) with
  | (Some e, d) => mkTxn (tables d) (mkDB d (GetErrors h ++ [e]))
  | (None, d) => mkTxn (tables d) (mkDB d (GetErrors h))
  end.

(** The transaction after a statement that returned the handle [r]. *)
Definition after (t : Txn) (r : DB) : Txn :=
  mkTxn (snapshot t) (mkDB (db r) (GetErrors (txn t))).

Definition Rollback (t : Txn) : DB :=
  mkDB (mkDatabase (snapshot t) (faults (db (txn t)))) (GetErrors (txn t)).

Definition Commit (t : Txn) : DB :=
  match next_fault (db (txn t)) with
  | (Some e, d) =>
      mkDB (mkDatabase (snapshot t) (faults d)) (GetErrors (txn t) ++ [e])
  | (None, d) => mkDB d (GetErrors (txn t))
  end.

(** [.Error] of a handle. *)
Definition Error_of (h : DB) : error := GetErrors h.

(** *** Listings
    [ORDER BY]: the rows in the order of [before]; rows that sort alike
    stay in rowid order, the order in which SQLite's sorter leaves them. *)
Fixpoint place {R : Type} (before : R -> R -> bool) (r : R) (sorted : list R)
    : list R :=
  match sorted with
  | [] => [r]
  | x :: rest =>
      if before x r then x :: place before r rest else r :: x :: rest
  end.

Fixpoint order_by {R : Type} (before : R -> R -> bool) (rows : list R)
    : list R :=
  match rows with
  | [] => []
  | r :: rest => place before r (order_by before rest)
  end.

(** A query for a number ([Count] into an [int]): the destination keeps
    its zero when the statement fails. *)
Definition query_count (h : DB) (sel : Store -> nat) : DB * N :=
  if HasError h then (h, 0%N)
  else
    match next_fault (db h) with
    | (Some e, d) => (mkDB d [e], 0%N)
    | (None, d) => (mkDB d [], N.of_nat (sel (tables d)))
    end.

End gorm.

(* ===================================================================== *)
(** ** store/orm *)
(* ===================================================================== *)

Module orm.
Import models gorm.

(** [ErrorNotFound] is [gorm.ErrRecordNotFound]. *)
Definition ErrorNotFound : Error := ErrRecordNotFound.

Definition multify (h : DB) : error :=
  fold_left
    (fun merr e =>
       if is_ErrRecordNotFound e then multierr_Append merr ErrorNotFound
       else multierr_Append merr e)
    (GetErrors h) [].

Definition multifyWithoutRecordNotFound (h : DB) : error :=
  fold_left
    (fun merr e =>
       if negb (is_ErrRecordNotFound e) then multierr_Append merr e
       else merr)
    (GetErrors h) [].

(** Every method takes the database behind [orm.DB] and returns it
    first, as it is after the call. *)

(** [FindInitiator]: the initiator with the passed id. *)
Definition FindInitiator (d : Database) (ID : string)
    : Database * (Initiator * error) :=
  let '(r, found) :=
    query_one (Root d)
      (fun s => lookup Initiator_ID String.eqb ID (initiators s)) in
  (db r, (match found with Some i => i | None => Initiator_zero end,
          multify r)).

Section Jobs.
(** The callback of [Jobs] is a closure: [Env] is the state it closes
    over, which it may change at each call, and it may use the store,
    which it is handed as it is at the call and hands back. *)
Context {Env : Type}.
Variable cb : Env -> Database -> JobSpec -> Env * Database * bool.

(** [for _, j := range jobs { if !cb(j) { return nil } }]: the state and
    the store after the loop, and [false] when the callback asked to
    stop. *)
Fixpoint range_jobs (s : Env) (d : Database) (jobs : list JobSpec)
    : Env * Database * bool :=
  match jobs with
  | [] => (s, d, true)
  | j :: rest =>
      let '(s', d', go) := cb s d j in
      if go then range_jobs s' d' rest else (s', d', false)
  end.

(** One turn of the [for] loop of [Jobs]: either the method returns
    ([inl]), or the loop goes on with the next offset ([inr]).  The query
    sets no [gorm:auto_preload]. *)
Definition Jobs_batch (limit : nat) (d : Database) (s : Env) (offset : nat)
    : (Database * (Env * error)) + (Database * Env) :=
  let '(r, jobs) :=
    query_rows (Root d)
      (fun st =>
         map without_preload (firstn limit (skipn offset (job_specs st)))) in
  match multify r with
  | (_ :: _) as err => inl (db r, (s, err))
  | [] =>
      let '(s', d', go) := range_jobs s (db r) jobs in
      if negb go then inl (d', (s', []))
      else if List.length jobs <? limit then inl (d', (s', []))
      else inr (d', s')
  end.

(** The [for] loop, for [limit] rows per query.  A callback that adds job
    specs can keep it going for ever: [fuel] bounds the number of
    queries, and [None] is the loop still going on when they are used
    up. *)
Fixpoint Jobs_from (fuel limit : nat) (d : Database) (s : Env)
    (offset : nat) : option (Database * (Env * error)) :=
  match fuel with
  | O => None
  | S fuel' =>
      match Jobs_batch limit d s offset with
      | inl res => Some res
      | inr (d', s') => Jobs_from fuel' limit d' s' (offset + limit)
      end
  end.

(** [Jobs] fetches all jobs, 1000 per query. *)
Definition limit : nat := 1000.

Definition Jobs (fuel : nat) (d : Database) (s : Env)
    : option (Database * (Env * error)) :=
  Jobs_from fuel limit d s 0.
End Jobs.

(** [CreateTx] saves the properties of an Ethereum transaction. *)
Definition CreateTx (d : Database) (from : Address) (nonce : N)
    (to : Address) (data : list Byte.byte) (value : Z) (gasLimit : N)
    : Database * (Tx * error) :=
  let tx := mkTx 0%N from to data nonce value gasLimit false None in
  let '(r, tx) := Save_Tx (Root d) tx in
  (db r, (tx, multify r)).

(** [ConfirmTx]: the attempt is flagged confirmed and assigned to the
    transaction; both values are written through, then saved. *)
Definition ConfirmTx (d : Database) (tx : Tx) (txat : TxAttempt)
    : Database * (Tx * TxAttempt * error) :=
  let txat := TxAttempt_with_Confirmed txat true in
  let tx := AssignTxAttempt tx txat in
  let '(r, tx) := Save_Tx (Root d) tx in
  let r := Save_TxAttempt r txat in
  (db r, (tx, txat, multify r)).

Definition FindTx (d : Database) (ID : N) : Database * (Tx * error) :=
  let '(r, found) :=
    query_one (Root d) (fun s => lookup Tx_ID N.eqb ID (txes s)) in
  (db r, (match found with Some tx => tx | None => Tx_zero end, multify r)).

Definition FindTxAttempt (d : Database) (hash : Hash)
    : Database * (TxAttempt * error) :=
  let '(r, found) :=
    query_one (Root d)
      (fun s => lookup TxAttempt_Hash N.eqb hash (tx_attempts s)) in
  (db r, (match found with Some a => a | None => TxAttempt_zero end,
          multify r)).

(** [TxAttemptsFor], through [Where("tx_id", id, &attempts)]. *)
Definition TxAttemptsFor (d : Database) (id : N)
    : Database * (list TxAttempt * error) :=
  let '(r, attempts) :=
    query_rows (Root d)
      (fun s => filter (fun a => N.eqb (TxAttempt_TxID a) id)
                       (tx_attempts s)) in
  (db r, (attempts, multify r)).

(** [AddTxAttempt] creates a new transaction attempt and stores it.  The
    transaction is passed by pointer: the second component is the value
    behind it after the call. *)
Definition AddTxAttempt (d : Database) (tx : Tx) (etx : Transaction)
    (blkNum : N) : Database * (Tx * option TxAttempt * error) :=
  match etx_EncodeTxToHex etx with
  | inr err => (d, (tx, None, [err]))
  | inl hex =>
      let attempt :=
        mkTxAttempt (etx_Hash etx) (Tx_ID tx) (etx_GasPrice etx) false hex
                    blkNum in
      let tx := if negb (Tx_Confirmed tx) then AssignTxAttempt tx attempt
                else tx in
      let '(r, tx) := Save_Tx (Root d) tx in
      let r := Save_TxAttempt r attempt in
      (db r, (tx, Some attempt, multify r))
  end.

(** [Order("nonce desc")] followed by [First], which adds the primary
    key, ascending, as the last sort key. *)
Definition nonce_desc (a b : Tx) : bool :=
  (Tx_Nonce b <? Tx_Nonce a)%N
  || ((Tx_Nonce a =? Tx_Nonce b)%N && (Tx_ID a <? Tx_ID b)%N).

(** [GetLastNonce] retrieves the last known nonce for an account. *)
Definition GetLastNonce (d : Database) (address : Address)
    : Database * (N * error) :=
  let '(rval, found) :=
    query_one (Root d)
      (fun s => first_by nonce_desc
                  (filter (fun t => N.eqb (Tx_From t) address) (txes s))) in
  let transaction := match found with Some t => t | None => Tx_zero end in
  (db rval, (Tx_Nonce transaction, multifyWithoutRecordNotFound rval)).

(** [MarkRan] sets Ran to true for a given initiator (passed by
    pointer). *)
Definition MarkRan (d : Database) (i : Initiator)
    : Database * (Initiator * error) :=
  let '(r, i) := Update_ran (Root d) i true in
  (db r, (i, multify r)).

(** [DeleteJobRun] deletes the job run and corresponding task runs. *)
Definition DeleteJobRun (d : Database) (ID : string) : Database * error :=
  let tx := Begin (Root d) in
  let r1 :=
    exec (txn tx)
      (fun s => set_job_runs s
         (filter (fun jr => negb (String.eqb (JobRun_ID jr) ID))
                 (job_runs s))) in
  let tx := after tx r1 in
  match Error_of r1 with
  | (_ :: _) as err => (db (Rollback tx), err)
  | [] =>
      let r2 :=
        exec (txn tx)
          (fun s => set_task_runs s
             (filter (fun tr => negb (String.eqb (TaskRun_JobRunID tr) ID))
                     (task_runs s))) in
      let tx := after tx r2 in
      match Error_of r2 with
      | (_ :: _) as err => (db (Rollback tx), err)
      | [] => let c := Commit tx in (db c, Error_of c)
      end
  end.

Definition SaveTx (d : Database) (tx : Tx) : Database * (Tx * error) :=
  let '(r, tx) := Save_Tx (Root d) tx in (db r, (tx, Error_of r)).

Definition SaveInitiator (d : Database) (initr : Initiator)
    : Database * error :=
  let r := Save_Initiator (Root d) initr in (db r, Error_of r).

(** [SaveHead] saves the indexable block number of the head tracker. *)
Definition SaveHead (d : Database) (n : IndexableBlockNumber)
    : Database * error :=
  let r := Save_IndexableBlockNumber (Root d) n in (db r, Error_of r).

(** [Order("digits desc, number desc")]; the number column holds the
    decimal text of the number and is compared as text. *)
Definition digits_desc_number_desc (a b : IndexableBlockNumber) : bool :=
  (Head_Digits b <? Head_Digits a)%N
  || ((Head_Digits a =? Head_Digits b)%N
      && String.ltb (Big_String (Head_Number b))
                    (Big_String (Head_Number a))).

(** [LastHead] returns the last ordered IndexableBlockNumber. *)
Definition LastHead (d : Database)
    : Database * (IndexableBlockNumber * error) :=
  let '(rval, found) :=
    query_one (Root d)
      (fun s => first_by digits_desc_number_desc
                  (indexable_block_numbers s)) in
  (db rval,
   (match found with Some n => n | None => IndexableBlockNumber_zero end,
    multifyWithoutRecordNotFound rval)).

(** *** Listings *)

(** [JobRunsFor] fetches all JobRuns with a given Job ID, sorted by their
    created at time. *)
Definition JobRunsFor (d : Database) (jobSpecID : string)
    : Database * (list JobRun * error) :=
  let '(r, runs) :=
    query_rows (Root d)
      (fun s =>
         order_by (fun a b => (JobRun_CreatedAt b <? JobRun_CreatedAt a)%N)
           (filter (fun jr => String.eqb (JobRun_JobSpecID jr) jobSpecID)
                   (job_runs s))) in
  (db r, (runs, multify r)).

(** [JobRunsCountFor] returns the current number of runs for the job. *)
Definition JobRunsCountFor (d : Database) (jobSpecID : string)
    : Database * (N * error) :=
  let '(r, count) :=
    query_count (Root d)
      (fun s =>
         List.length
           (filter (fun jr => String.eqb (JobRun_JobSpecID jr) jobSpecID)
                   (job_runs s))) in
  (db r, (count, multify r)).

(** [SortType] is an [int]; [Ascending] and [Descending] are [iota]. *)
Definition SortType : Type := Z.
Definition Ascending : SortType := 0%Z.
Definition Descending : SortType := 1%Z.

Definition SortType_String (s : SortType) : string :=
  if Z.eqb s Descending then "desc"%string else "asc"%string.

(** [Order(fmt.Sprintf("created_at %s", order.String()))] on a table whose
    rows carry their creation time. *)
Definition created_at_order {R : Type} (created_at : R -> N) (dir : string)
    : R -> R -> bool :=
  if String.eqb dir "desc"
  then fun a b => (created_at b <? created_at a)%N
  else fun a b => (created_at a <? created_at b)%N.

(** [JobsSorted] returns many JobSpecs sorted by CreatedAt.  Offset and
    limit are the non-negative numbers the callers pass. *)
Definition JobsSorted (d : Database) (order : SortType) (offset limit : nat)
    : Database * (list JobSpec * N * error) :=
  let '(c, count) :=
    query_count (Root d) (fun s => List.length (job_specs s)) in
  match Error_of c with
  | (_ :: _) as err => (db c, ([], 0%N, err))
  | [] =>
      let '(rval, jobs) :=
        query_rows (Root (db c))
          (fun s =>
             firstn limit
               (skipn offset
                  (order_by
                     (created_at_order JobSpec_CreatedAt
                                       (SortType_String order))
                     (job_specs s)))) in
      (db rval, (jobs, count, Error_of rval))
  end.

(** [TxFrom] returns all transactions from a particular address. *)
Definition TxFrom (d : Database) (from : Address)
    : Database * (list Tx * error) :=
  let '(r, txs) :=
    query_rows (Root d)
      (fun s => filter (fun t => N.eqb (Tx_From t) from) (txes s)) in
  (db r, (txs, multify r)).

(** [Transactions] returns all transactions limited by passed
    parameters. *)
Definition Transactions (d : Database) (offset limit : nat)
    : Database * (list Tx * error) :=
  let '(r, txs) :=
    query_rows (Root d)
      (fun s =>
         firstn limit
           (skipn offset
              (order_by (fun a b => (Tx_ID b <? Tx_ID a)%N) (txes s)))) in
  (db r, (txs, Error_of r)).

(** [TxAttempts] returns the last tx attempts sorted by sent at
    descending. *)
Definition TxAttempts (d : Database) (offset limit : nat)
    : Database * (list TxAttempt * N * error) :=
  let '(c, count) :=
    query_count (Root d) (fun s => List.length (tx_attempts s)) in
  match Error_of c with
  | (_ :: _) as err => (db c, ([], 0%N, err))
  | [] =>
      let '(r, attempts) :=
        query_rows (Root (db c))
          (fun s =>
             firstn limit
               (skipn offset
                  (order_by
                     (fun a b => (TxAttempt_SentAt b <? TxAttempt_SentAt a)%N)
                     (tx_attempts s)))) in
      (db r, (attempts, count, Error_of r))
  end.

(** [JobRunsCount] returns the total number of job runs. *)
Definition JobRunsCount (d : Database) : Database * (N * error) :=
  let '(r, count) :=
    query_count (Root d) (fun s => List.length (job_runs s)) in
  (db r, (count, Error_of r)).

(** [JobRunsSorted] returns job runs ordered and filtered by the passed
    params. *)
Definition JobRunsSorted (d : Database) (order : SortType)
    (offset limit : nat) : Database * (list JobRun * N * error) :=
  let '(d1, (count, err)) := JobRunsCount d in
  match err with
  | (_ :: _) as err => (d1, ([], 0%N, err))
  | [] =>
      let '(rval, runs) :=
        query_rows (Root d1)
          (fun s =>
             firstn limit
               (skipn offset
                  (order_by
                     (created_at_order JobRun_CreatedAt
                                       (SortType_String order))
                     (job_runs s)))) in
      (db rval, (runs, count, multifyWithoutRecordNotFound rval))
  end.

(** [JobRunsSortedFor] returns job runs for a specific job spec ordered
    and filtered by the passed params. *)
Definition JobRunsSortedFor (d : Database) (id : string) (order : SortType)
    (offset limit : nat) : Database * (list JobRun * N * error) :=
  let '(d1, (count, err)) := JobRunsCountFor d id in
  match err with
  | (_ :: _) as err => (d1, ([], 0%N, err))
  | [] =>
      let '(rval, runs) :=
        query_rows (Root d1)
          (fun s =>
             firstn limit
               (skipn offset
                  (order_by
                     (created_at_order JobRun_CreatedAt
                                       (SortType_String order))
                     (job_runs s)))) in
      (db rval, (runs, count, multifyWithoutRecordNotFound rval))
  end.

(** *** Sessions: comparing e-mail addresses *)

Definition constantTimeEmailLength : nat := 256.

(** [make([]byte, length)] followed by [copy(dst, src)]: the first bytes
    of [src] that fit, the rest zero. *)
Definition make_copy (length : nat) (src : string) : list Byte.byte :=
  firstn length (list_byte_of_string src ++ repeat Byte.x00 length).

(** [subtle.ConstantTimeCompare]: 1 when the slices have the same length
    and contents, 0 otherwise. *)
Fixpoint bytes_eqb (x y : list Byte.byte) : bool :=
  match x, y with
  | [], [] => true
  | a :: x', b :: y' => Byte.eqb a b && bytes_eqb x' y'
  | _, _ => false
  end.

Definition ConstantTimeCompare (x y : list Byte.byte) : Z :=
  if bytes_eqb x y then 1%Z else 0%Z.

Section EmailCompare.
(** [utils.MaxInt(first, rest...)] is not among the sources. *)
Variable MaxInt : nat -> list nat -> nat.

Definition constantTimeEmailCompare (left right : string) : bool :=
  let length :=
    MaxInt constantTimeEmailLength
           [String.length left; String.length right] in
  let leftBytes := make_copy length left in
  let rightBytes := make_copy length right in
  Z.eqb (ConstantTimeCompare leftBytes rightBytes) 1.
End EmailCompare.

(** *** Saving a job *)

Section SaveJob.
(** [utils.NewBytes32ID] draws a fresh id from a source of randomness. *)
Context {Rand : Type}.
Variable NewBytes32ID : Rand -> string * Rand.

(** The loop of [SaveJob] over [job.Initiators]: an initiator without id
    is given a new one, and each is tied to the job.  The [Save] of the
    job and of its associations follows it. *)
Fixpoint range_initiators (g : Rand) (jobID : string)
    (initrs : list Initiator) : Rand * list Initiator :=
  match initrs with
  | [] => (g, [])
  | i :: rest =>
      let '(i, g) :=
        if String.eqb (Initiator_ID i) EmptyString
        then let '(id, g') := NewBytes32ID g in (Initiator_with_ID i id, g')
        else (i, g) in
      let i := Initiator_with_JobSpecID i jobID in
      let '(g, rest) := range_initiators g jobID rest in
      (g, i :: rest)
  end.
End SaveJob.

End orm.

(* ===================================================================== *)
(** ** Vocabulary of the statements *)
(* ===================================================================== *)

Import models gorm orm.

(** The database answers every statement to come: its fault script holds
    no failure. *)
Definition answers (d : Database) : Prop :=
  Forall (fun f => f = None) (faults d).

(** A head whose digit count is the length of the decimal text of its
    number, as the constructor builds it. *)
Definition well_formed_head (h : IndexableBlockNumber) : Prop :=
  Head_Digits h = N.of_nat (String.length (Big_String (Head_Number h))).

(** A sequence of [SaveHead] calls. *)
Definition save_heads (d : Database) (hs : list IndexableBlockNumber)
    : Database :=
  fold_left (fun d n => fst (SaveHead d n)) hs d.

(** Two values of a Tx that agree on everything but the pointer to the
    active attempt. *)
Definition same_intent (a b : Tx) : Prop :=
  Tx_ID a = Tx_ID b /\ Tx_From a = Tx_From b /\ Tx_To a = Tx_To b
  /\ Tx_Data a = Tx_Data b /\ Tx_Nonce a = Tx_Nonce b
  /\ Tx_Value a = Tx_Value b /\ Tx_GasLimit a = Tx_GasLimit b
  /\ Tx_Confirmed a = Tx_Confirmed b.

(** Two initiators that differ at most in their ran flag. *)
Definition same_but_ran (a b : Initiator) : Prop :=
  Initiator_ID a = Initiator_ID b
  /\ Initiator_JobSpecID a = Initiator_JobSpecID b
  /\ Initiator_Type a = Initiator_Type b
  /\ Initiator_Schedule a = Initiator_Schedule b
  /\ Initiator_Time a = Initiator_Time b
  /\ Initiator_Address a = Initiator_Address b.

(** The tables other than that of the initiators. *)
Definition other_than_initiators (s : Store) :=
  (txes s, tx_attempts s, indexable_block_numbers s, job_specs s,
   job_runs s, task_runs s).

(** Does the byte [c] occur in [s]? *)
Fixpoint contains (c : ascii) (s : string) : bool :=
  match s with
  | EmptyString => false
  | String x rest => Ascii.eqb x c || contains c rest
  end.

(** A text column is handed back by the SQLite driver as a byte slice. *)
Definition read_back (v : driver.Value) : driver.Value :=
  match v with
  | driver.Str s => driver.Bytes (list_byte_of_string s)
  | _ => v
  end.

(** What the three [Save]s do to their tables, and the value of a Tx once
    saved. *)
Definition heads_after (n : IndexableBlockNumber)
    (rows : list IndexableBlockNumber) : list IndexableBlockNumber :=
  if N.eqb (Head_Hash n) 0 then rows ++ [n]
  else upsert Head_Hash N.eqb n rows.

Definition txes_after (tx : Tx) (rows : list Tx) : list Tx :=
  if N.eqb (Tx_ID tx) 0
  then rows ++ [Tx_with_ID tx (next_id (map Tx_ID rows))]
  else upsert Tx_ID N.eqb tx rows.

Definition Tx_saved (tx : Tx) (rows : list Tx) : Tx :=
  if N.eqb (Tx_ID tx) 0 then Tx_with_ID tx (next_id (map Tx_ID rows)) else tx.

Definition attempts_after (a : TxAttempt) (rows : list TxAttempt)
    : list TxAttempt :=
  if N.eqb (TxAttempt_Hash a) 0 then rows ++ [a]
  else upsert TxAttempt_Hash N.eqb a rows.

(** The number a list of decimal digits spells, least significant digit
    first and most significant digit first, and the text of the latter. *)
Fixpoint lsd_value (ds : list N) : N :=
  match ds with
  | [] => 0%N
  | d :: r => (d + 10 * lsd_value r)%N
  end.

Fixpoint msd_value (ds : list N) : N :=
  match ds with
  | [] => 0%N
  | d :: r => (d * 10 ^ N.of_nat (List.length r) + msd_value r)%N
  end.

Definition text_of (ds : list N) : string :=
  string_of_list_ascii (map digit_char ds).

(** The callback [cb] made to log its calls: the job it was called on and
    what it answered. *)
Definition tracing {Env : Type}
    (cb : Env -> Database -> JobSpec -> Env * Database * bool)
    (s : list (JobSpec * bool) * Env) (d : Database) (j : JobSpec)
    : (list (JobSpec * bool) * Env) * Database * bool :=
  let '(s', d', go) := cb (snd s) d j in
  ((fst s ++ [(j, go)], s'), d', go).

(** [log] records one call on each of [jobs], in their order, up to and
    including the first call that answered false. *)
Fixpoint follows (jobs : list JobSpec) (log : list (JobSpec * bool))
    : Prop :=
  match jobs, log with
  | [], [] => True
  | j :: rest, (j', go) :: log' =>
      j' = j /\ (if go then follows rest log' else log' = [])
  | _, _ => False
  end.

(** A callback that leaves the table of the job specs as it is, and the
    store answering. *)
Definition keeps_jobs {Env : Type}
    (cb : Env -> Database -> JobSpec -> Env * Database * bool) : Prop :=
  forall s d j,
    job_specs (tables (snd (fst (cb s d j)))) = job_specs (tables d)
    /\ (answers d -> answers (snd (fst (cb s d j)))).

(** What [Jobs] returns, without the log of a tracing callback. *)
Definition untraced {Env : Type}
    (res : Database * ((list (JobSpec * bool) * Env) * error))
    : Database * (Env * error) :=
  (fst res, (snd (fst (snd res)), snd (snd res))).

(** *** Sample data *)

Definition sample_etx1 : Transaction :=
  mkTransaction 100%N 20%Z (inl "0xf86b01"%string).
Definition sample_etx2 : Transaction :=
  mkTransaction 101%N 30%Z (inl "0xf86b02"%string).

(** A transaction whose first attempt was confirmed, as [CreateTx],
    [AddTxAttempt] and [ConfirmTx] leave it. *)
Definition sample_attempt1 : TxAttempt :=
  mkTxAttempt 100%N 1%N 20%Z true "0xf86b01"%string 5%N.
Definition sample_tx_confirmed : Tx :=
  mkTx 1%N 7%N 8%N [] 0%N 0%Z 21000%N true (Some 100%N).
Definition sample_db_confirmed : Database :=
  mkDatabase
    (mkStore [sample_tx_confirmed] [sample_attempt1] [] [] [] [] []) [].

(** The same transaction before its confirmation. *)
Definition sample_tx_pending : Tx :=
  mkTx 1%N 7%N 8%N [] 0%N 0%Z 21000%N false (Some 100%N).
Definition sample_db_pending : Database :=
  mkDatabase
    (mkStore [sample_tx_pending;
              mkTx 2%N 7%N 9%N [] 4%N 0%Z 21000%N false None;
              mkTx 3%N 6%N 9%N [] 9%N 0%Z 21000%N false None]
             [mkTxAttempt 100%N 1%N 20%Z false "0xf86b01"%string 5%N]
             [] [] [] [] []) [].

Definition sample_heads : list IndexableBlockNumber :=
  [NewIndexableBlockNumber 99 1099; NewIndexableBlockNumber 100 1100;
   NewIndexableBlockNumber 7 1007; NewIndexableBlockNumber 1000 2000;
   NewIndexableBlockNumber 998 1998]%N.

Definition sample_initiator : Initiator :=
  mkInitiator "i1" "job1" "runat" EmptyString 1700000000%N false 0%N.
Definition sample_db_initiators : Database :=
  mkDatabase
    (mkStore [] [] [] [] [] []
       [mkInitiator "i0" "job1" "web" EmptyString 0%N false 0%N;
        sample_initiator]) [].

Definition sample_job (n : N) : JobSpec := mkJobSpec "job" [] n.
Definition sample_db_jobs : Database :=
  mkDatabase
    (mkStore [] [] [] (map sample_job [0; 1; 2; 3; 4]%N) [] [] []) [].

(** A callback that records the jobs it is shown and asks to stop at the
    job created at [stop]. *)
Definition recording (stop : N) (log : list N) (d : Database) (j : JobSpec)
    : list N * Database * bool :=
  (log ++ [JobSpec_CreatedAt j], d,
   negb (JobSpec_CreatedAt j =? stop)%N).

(** A callback that deletes the job spec it is shown. *)
Definition deleting (s : unit) (d : Database) (j : JobSpec)
    : unit * Database * bool :=
  (s,
   db (exec (Root d)
         (fun st =>
            set_job_specs st
              (filter (fun x =>
                         negb (String.eqb (JobSpec_ID x) (JobSpec_ID j)))
                      (job_specs st)))),
   true).

(** One job spec more than a query of [Jobs] fetches, named 0 to 1000. *)
Definition sample_db_many : Database :=
  mkDatabase
    (mkStore [] [] []
       (map (fun k => mkJobSpec (Big_String (N.of_nat k)) [] (N.of_nat k))
            (seq 0 1001))
       [] [] []) [].

(** *** Vocabulary of the listings, of the deletions and of the e-mail
    comparison *)

(** Rows by falling and by rising key. *)
Definition falling {R : Type} (key : R -> N) (a b : R) : Prop :=
  (key b <= key a)%N.
Definition rising {R : Type} (key : R -> N) (a b : R) : Prop :=
  (key a <= key b)%N.

(** The transactions sent from an address. *)
Definition sent_from (address : Address) (rows : list Tx) : list Tx :=
  filter (fun t => N.eqb (Tx_From t) address) rows.

(** The runs of one job. *)
Definition runs_of (jobSpecID : string) (runs : list JobRun) : list JobRun :=
  filter (fun jr => String.eqb (JobRun_JobSpecID jr) jobSpecID) runs.

(** The tables once the job run [ID] and its task runs are deleted. *)
Definition without_run (ID : string) (s : Store) : Store :=
  set_task_runs
    (set_job_runs s
       (filter (fun jr => negb (String.eqb (JobRun_ID jr) ID)) (job_runs s)))
    (filter (fun tr => negb (String.eqb (TaskRun_JobRunID tr) ID))
            (task_runs s)).

(** [k] NUL bytes. *)
Fixpoint NULs (k : nat) : string :=
  match k with
  | O => EmptyString
  | S k' => String Ascii.zero (NULs k')
  end.

(** Two jobs with runs, and the runs' tasks. *)
Definition sample_db_runs : Database :=
  mkDatabase
    (mkStore [] [] [] []
       [mkJobRun "r1" "job1" "completed"%string 10%N;
        mkJobRun "r2" "job2" "errored"%string 20%N;
        mkJobRun "r3" "job1" "in_progress"%string 30%N]
       [mkTaskRun "t1" "r1" "completed"%string;
        mkTaskRun "t2" "r3" "in_progress"%string;
        mkTaskRun "t3" "r3" "unstarted"%string]
       []) [].

(** A store that fails its next statement, and one that fails the one
    after. *)
Definition sample_db_failing : Database :=
  mkDatabase (tables sample_db_pending) [Some (ErrDriver "disk I/O error")].
Definition sample_db_failing_second : Database :=
  mkDatabase (tables sample_db_pending)
             [None; Some (ErrDriver "disk I/O error")].

(** A maximum, and a source of ids, to run the code that takes
    [utils.MaxInt] and [utils.NewBytes32ID] as parameters. *)
Definition sample_MaxInt (first : nat) (rest : list nat) : nat :=
  fold_left Nat.max rest first.
Definition sample_NewBytes32ID (g : nat) : string * nat :=
  (String (ascii_of_nat (97 + g)) EmptyString, S g).

(* ===================================================================== *)
(** ** Properties *)
(* ===================================================================== *)

(** *** The decimal text of a number *)

Section Decimal.
Local Open Scope N_scope.

Lemma div10_mod10 (n : N) : n = 10 * (n / 10) + n mod 10 /\ n mod 10 < 10.
Proof.
  split.
  - apply N.Div0.div_mod.
  - apply N.mod_lt. discriminate.
Qed.

Lemma div10_below (n p : N) : n < 2 * p -> n / 10 < p.
Proof.
  intros H. apply N.Div0.div_lt_upper_bound. lia.
Qed.

Lemma pow2_fuel (f : nat) : 2 ^ N.of_nat (S f) = 2 * 2 ^ N.of_nat f.
Proof. rewrite Nat2N.inj_succ. apply N.pow_succ_r'. Qed.

Lemma pow10_len (k : nat) : 10 ^ N.of_nat (S k) = 10 * 10 ^ N.of_nat k.
Proof. rewrite Nat2N.inj_succ. apply N.pow_succ_r'. Qed.

Lemma decimal_lsd_value (fuel : nat) :
  forall n, n < 2 ^ N.of_nat fuel -> lsd_value (decimal_lsd fuel n) = n.
Proof.
  induction fuel as [|f IH]; intros n Hn.
  - cbn in Hn. assert (n = 0) by lia. subst. reflexivity.
  - rewrite pow2_fuel in Hn. cbn [decimal_lsd lsd_value].
    destruct (div10_mod10 n) as [Hdm Hm].
    destruct (N.eqb_spec (n / 10) 0) as [Hz|Hz].
    + cbn [lsd_value]. lia.
    + rewrite IH by (apply div10_below; exact Hn). lia.
Qed.

Lemma decimal_lsd_digits (fuel : nat) :
  forall n, Forall (fun d => d < 10) (decimal_lsd fuel n).
Proof.
  induction fuel as [|f IH]; intros n; cbn [decimal_lsd].
  - constructor; [apply div10_mod10 | constructor].
  - constructor; [apply div10_mod10 |].
    destruct (n / 10 =? 0); [constructor | apply IH].
Qed.

(** A number lies between the powers of ten its digit count names. *)
Lemma decimal_lsd_bounds (fuel : nat) :
  forall n, n < 2 ^ N.of_nat fuel ->
    exists k, List.length (decimal_lsd fuel n) = S k
      /\ n < 10 ^ N.of_nat (S k) /\ (n <> 0 -> 10 ^ N.of_nat k <= n).
Proof.
  induction fuel as [|f IH]; intros n Hn.
  - cbn in Hn. assert (n = 0) by lia. subst. exists 0%nat. cbn.
    repeat split; lia.
  - rewrite pow2_fuel in Hn. cbn [decimal_lsd].
    destruct (div10_mod10 n) as [Hdm Hm].
    destruct (N.eqb_spec (n / 10) 0) as [Hz|Hz].
    + exists 0%nat. cbn. repeat split; lia.
    + destruct (IH (n / 10) (div10_below _ _ Hn)) as (k & Hk & Hup & Hlo).
      exists (S k). cbn [List.length]. rewrite Hk.
      rewrite (pow10_len (S k)), (pow10_len k) in *.
      specialize (Hlo Hz).
      pose proof (N.le_0_l (n mod 10)) as Hr.
      repeat split; lia.
Qed.

Lemma msd_value_snoc (l : list N) (d : N) :
  msd_value (l ++ [d]) = 10 * msd_value l + d.
Proof.
  induction l as [|x l IH]; cbn [msd_value app].
  - cbn. lia.
  - rewrite IH, length_app. cbn [List.length].
    replace (List.length l + 1)%nat with (S (List.length l)) by lia.
    rewrite pow10_len. lia.
Qed.

Lemma msd_value_rev (l : list N) : msd_value (rev l) = lsd_value l.
Proof.
  induction l as [|d l IH]; cbn [rev lsd_value]; [reflexivity|].
  rewrite msd_value_snoc, IH. lia.
Qed.

Lemma decimal_value (n : N) : msd_value (decimal n) = n.
Proof.
  unfold decimal. rewrite msd_value_rev. apply decimal_lsd_value.
  rewrite N2Nat.id. apply N.size_gt.
Qed.

Lemma decimal_digits (n : N) : Forall (fun d => d < 10) (decimal n).
Proof.
  unfold decimal. apply Forall_rev, decimal_lsd_digits.
Qed.

Lemma decimal_bounds (n : N) :
  exists k, List.length (decimal n) = S k
    /\ n < 10 ^ N.of_nat (S k) /\ (n <> 0 -> 10 ^ N.of_nat k <= n).
Proof.
  unfold decimal. rewrite length_rev. apply decimal_lsd_bounds.
  rewrite N2Nat.id. apply N.size_gt.
Qed.

(** Fewer digits, smaller number. *)
Lemma decimal_shorter_smaller (a b : N) :
  (List.length (decimal a) < List.length (decimal b))%nat -> a < b.
Proof.
  intros Hlen.
  destruct (decimal_bounds a) as (ka & Hka & Ha & _).
  destruct (decimal_bounds b) as (kb & Hkb & _ & Hb).
  rewrite Hka, Hkb in Hlen.
  assert (Hb0 : b <> 0).
  { intros ->. cbn in Hkb. lia. }
  specialize (Hb Hb0).
  apply N.lt_le_trans with (1 := Ha).
  apply N.le_trans with (2 := Hb).
  apply N.pow_le_mono_r; lia.
Qed.

Lemma msd_value_below (l : list N) :
  Forall (fun d => d < 10) l -> msd_value l < 10 ^ N.of_nat (List.length l).
Proof.
  induction 1 as [|d l Hd _ IH]; cbn [msd_value List.length].
  - cbn. lia.
  - rewrite pow10_len. nia.
Qed.

Lemma length_text_of (ds : list N) :
  String.length (text_of ds) = List.length ds.
Proof.
  unfold text_of. induction ds as [|d ds IH]; cbn; [reflexivity|].
  now rewrite IH.
Qed.

Lemma N_compare_add_l (p q r : N) : (p + q ?= p + r) = (q ?= r).
Proof.
  destruct (N.compare_spec q r) as [H|H|H].
  - subst. apply N.compare_refl.
  - apply N.compare_lt_iff. lia.
  - apply N.compare_gt_iff. lia.
Qed.

Lemma digit_char_compare (x y : N) :
  x < 10 -> y < 10 -> Ascii.compare (digit_char x) (digit_char y) = (x ?= y).
Proof.
  intros Hx Hy. unfold Ascii.compare, digit_char.
  rewrite !N_ascii_embedding by lia. apply N_compare_add_l.
Qed.

(** On digit strings of one length the order of the texts is the order
    of the numbers. *)
Lemma text_compare (x : list N) :
  forall y, List.length x = List.length y ->
    Forall (fun d => d < 10) x -> Forall (fun d => d < 10) y ->
    String.compare (text_of x) (text_of y) = (msd_value x ?= msd_value y).
Proof.
  induction x as [|a x IH]; intros [|b y] Hlen Hx Hy;
    try discriminate Hlen.
  - reflexivity.
  - inversion Hx as [|? ? Ha Hx']; inversion Hy as [|? ? Hb Hy']; subst.
    injection Hlen as Hlen.
    change (text_of (a :: x)) with (String (digit_char a) (text_of x)).
    change (text_of (b :: y)) with (String (digit_char b) (text_of y)).
    cbn [String.compare msd_value].
    rewrite digit_char_compare by assumption.
    rewrite <- Hlen.
    pose proof (msd_value_below x Hx') as Bx.
    pose proof (msd_value_below y Hy') as By.
    rewrite <- Hlen in By.
    set (P := 10 ^ N.of_nat (List.length x)) in *.
    destruct (N.compare_spec a b) as [Heq|Hlt|Hgt].
    + subst b. rewrite (IH y Hlen Hx' Hy'). symmetry.
      apply N_compare_add_l.
    + symmetry. apply N.compare_lt_iff. nia.
    + symmetry. apply N.compare_gt_iff. nia.
Qed.

Lemma length_Big_String (n : N) :
  String.length (Big_String n) = List.length (decimal n).
Proof. apply length_text_of. Qed.

Lemma Big_String_shorter_smaller (a b : N) :
  (String.length (Big_String a) < String.length (Big_String b))%nat ->
  a < b.
Proof.
  rewrite !length_Big_String. apply decimal_shorter_smaller.
Qed.

Lemma Big_String_ltb (a b : N) :
  String.length (Big_String a) = String.length (Big_String b) ->
  String.ltb (Big_String b) (Big_String a) = (b <? a).
Proof.
  rewrite !length_Big_String. intros Hlen.
  unfold String.ltb, Big_String.
  change (string_of_list_ascii (map digit_char ?l)) with (text_of l).
  rewrite text_compare by (auto using decimal_digits).
  rewrite !decimal_value. unfold N.ltb. reflexivity.
Qed.
End Decimal.

(** *** The first row of an ordering *)

Section FirstBy.
Context {R : Type} (before : R -> R -> bool).

Lemma first_by_nil (rows : list R) : first_by before rows = None -> rows = [].
Proof.
  destruct rows as [|r rest]; [reflexivity|]. cbn.
  destruct (first_by before rest) as [b|]; [destruct (before b r)|];
    discriminate.
Qed.

Lemma first_by_In (rows : list R) (r : R) :
  first_by before rows = Some r -> In r rows.
Proof.
  revert r. induction rows as [|x rest IH]; intros r; cbn; [discriminate|].
  destruct (first_by before rest) as [b|].
  - destruct (before b x); intros [= <-]; auto.
  - intros [= <-]; auto.
Qed.

(** When the ordering refines the order of a key, the first row has the
    greatest key. *)
Lemma first_by_greatest (key : R -> N) (rows : list R) :
  (forall a b, In a rows -> In b rows ->
     (before a b = true -> (key b <= key a)%N)
     /\ (before a b = false -> (key a <= key b)%N)) ->
  forall r, first_by before rows = Some r ->
    forall r', In r' rows -> (key r' <= key r)%N.
Proof.
  induction rows as [|x rest IH]; intros Hord r; cbn; [discriminate|].
  assert (Hrest : forall a b, In a rest -> In b rest ->
     (before a b = true -> (key b <= key a)%N)
     /\ (before a b = false -> (key a <= key b)%N)).
  { intros a b Ha Hb. apply Hord; now right. }
  specialize (IH Hrest).
  destruct (first_by before rest) as [b|] eqn:Hb.
  - pose proof (first_by_In _ _ Hb) as Hin.
    destruct (Hord b x (or_intror Hin) (or_introl eq_refl)) as [Ht Hf].
    destruct (before b x) eqn:Hbx; intros [= <-] r' [<-|Hr'].
    + now apply Ht.
    + now apply (IH b).
    + reflexivity.
    + apply N.le_trans with (key b); [now apply (IH b) | now apply Hf].
  - apply first_by_nil in Hb. subst rest.
    intros [= <-] r' [<-|[]]. reflexivity.
Qed.
End FirstBy.

(** *** Saving into a table *)

Section Upsert.
Context {R : Type} (key : R -> N).

Lemma affected_In (r : R) (rows : list R) :
  affected key N.eqb r rows = true <->
  exists x, In x rows /\ key x = key r.
Proof.
  unfold affected. rewrite existsb_exists.
  split; intros (x & Hx & Hk); exists x; split; auto;
    now apply N.eqb_eq.
Qed.

Lemma update_same (r : R) (rows : list R) :
  (forall x, In x rows -> key x = key r -> x = r) ->
  update key N.eqb r rows = rows.
Proof.
  intros Hsame. unfold update. rewrite <- (map_id rows) at 2.
  apply map_ext_in. intros x Hx.
  destruct (N.eqb_spec (key x) (key r)) as [Hk|Hk]; [|reflexivity].
  symmetry. now apply Hsame.
Qed.

Lemma upsert_In (r : R) (rows : list R) :
  (forall x, In x rows -> key x = key r -> x = r) ->
  forall y, In y (upsert key N.eqb r rows) <-> In y rows \/ y = r.
Proof.
  intros Hsame y. unfold upsert.
  destruct (affected key N.eqb r rows) eqn:Ha.
  - rewrite update_same by assumption.
    apply affected_In in Ha. destruct Ha as (x & Hx & Hk).
    rewrite (Hsame x Hx Hk) in Hx.
    split; [auto | intros [H| ->]; assumption].
  - rewrite in_app_iff. cbn. intuition.
Qed.
End Upsert.

Section UpsertLookup.
Context {R : Type} (key : R -> N).

Lemma upsert_In_self (r : R) (rows : list R) :
  In r (upsert key N.eqb r rows).
Proof.
  unfold upsert. destruct (affected key N.eqb r rows) eqn:Ha.
  - apply affected_In in Ha. destruct Ha as (x & Hx & Hk).
    unfold update. apply in_map_iff. exists x.
    rewrite Hk, N.eqb_refl. auto.
  - apply in_or_app. right. now left.
Qed.

Lemma upsert_retains (r x : R) (rows : list R) :
  In x rows -> key x <> key r -> In x (upsert key N.eqb r rows).
Proof.
  intros Hx Hk. unfold upsert. destruct (affected key N.eqb r rows).
  - unfold update. apply in_map_iff. exists x.
    destruct (N.eqb_spec (key x) (key r)); [contradiction|auto].
  - apply in_or_app. now left.
Qed.

Lemma lookup_update_other (r : R) (k : N) (rows : list R) :
  key r <> k ->
  lookup key N.eqb k (update key N.eqb r rows) = lookup key N.eqb k rows.
Proof.
  intros Hk. unfold lookup, update.
  induction rows as [|x rows IH]; cbn; [reflexivity|].
  destruct (N.eqb_spec (key x) (key r)) as [Hx|Hx].
  - destruct (N.eqb_spec (key r) k); [contradiction|].
    destruct (N.eqb_spec (key x) k); [congruence|]. exact IH.
  - destruct (key x =? k)%N; [reflexivity|exact IH].
Qed.

Lemma lookup_update_same (r : R) (rows : list R) :
  affected key N.eqb r rows = true ->
  lookup key N.eqb (key r) (update key N.eqb r rows) = Some r.
Proof.
  unfold lookup, update, affected.
  induction rows as [|x rows IH]; cbn; [discriminate|].
  destruct (N.eqb_spec (key x) (key r)) as [Hx|Hx]; cbn.
  - intros _. now rewrite N.eqb_refl.
  - intros H. destruct (N.eqb_spec (key x) (key r)); [contradiction|].
    now apply IH.
Qed.

Lemma lookup_app_last (r : R) (k : N) (rows : list R) :
  lookup key N.eqb k (rows ++ [r])
  = match lookup key N.eqb k rows with
    | Some x => Some x
    | None => if (key r =? k)%N then Some r else None
    end.
Proof.
  unfold lookup. induction rows as [|x rows IH]; cbn; [reflexivity|].
  destruct (key x =? k)%N; [reflexivity|exact IH].
Qed.

Lemma lookup_unaffected (r : R) (rows : list R) :
  affected key N.eqb r rows = false ->
  lookup key N.eqb (key r) rows = None.
Proof.
  unfold lookup, affected. induction rows as [|x rows IH]; cbn;
    [reflexivity|].
  destruct (key x =? key r)%N; cbn; [discriminate|exact IH].
Qed.

Lemma lookup_upsert_same (r : R) (rows : list R) :
  lookup key N.eqb (key r) (upsert key N.eqb r rows) = Some r.
Proof.
  unfold upsert. destruct (affected key N.eqb r rows) eqn:Ha.
  - now apply lookup_update_same.
  - rewrite lookup_app_last, (lookup_unaffected _ _ Ha), N.eqb_refl.
    reflexivity.
Qed.

Lemma lookup_upsert_other (r : R) (k : N) (rows : list R) :
  key r <> k ->
  lookup key N.eqb k (upsert key N.eqb r rows) = lookup key N.eqb k rows.
Proof.
  intros Hk. unfold upsert. destruct (affected key N.eqb r rows).
  - now apply lookup_update_other.
  - rewrite lookup_app_last.
    destruct (N.eqb_spec (key r) k); [contradiction|].
    now destruct (lookup key N.eqb k rows).
Qed.
End UpsertLookup.

Lemma next_id_above (ids : list N) (x : N) : In x ids -> (x < next_id ids)%N.
Proof.
  unfold next_id. induction ids as [|i ids IH]; cbn; [tauto|].
  intros [<-|H]; [|specialize (IH H)]; lia.
Qed.

Lemma next_id_fresh (ids : list N) : ~ In (next_id ids) ids.
Proof. intros H. apply next_id_above in H. lia. Qed.

(** *** Statements on a handle *)

Lemma answers_next (d : Database) :
  answers d ->
  fst (next_fault d) = None /\ answers (snd (next_fault d))
  /\ tables (snd (next_fault d)) = tables d.
Proof.
  unfold answers, next_fault. destruct d as [s [|f fs]]; cbn; intros H.
  - auto.
  - inversion H; subst. auto.
Qed.

(** A statement on the root handle of a database that answers. *)
Lemma exec_answers (d : Database) (run : Store -> Store) :
  answers d ->
  GetErrors (exec (Root d) run) = []
  /\ tables (db (exec (Root d) run)) = run (tables d)
  /\ answers (db (exec (Root d) run)).
Proof.
  intros H. destruct (answers_next d H) as (Hf & Ha & Ht).
  unfold exec, Root, HasError. cbn [GetErrors db].
  destruct (next_fault d) as [[e|] d1]; cbn in *; [discriminate|].
  subst. rewrite Ht. auto.
Qed.

Lemma query_one_answers {R : Type} (d : Database) (sel : Store -> option R) :
  answers d ->
  snd (query_one (Root d) sel) = sel (tables d)
  /\ GetErrors (fst (query_one (Root d) sel))
     = match sel (tables d) with Some _ => [] | None => [ErrRecordNotFound] end
  /\ tables (db (fst (query_one (Root d) sel))) = tables d
  /\ answers (db (fst (query_one (Root d) sel))).
Proof.
  intros H. destruct (answers_next d H) as (Hf & Ha & Ht).
  unfold query_one, Root, HasError. cbn [GetErrors db].
  destruct (next_fault d) as [[e|] d1]; cbn in *; [discriminate|].
  rewrite Ht. destruct (sel (tables d)); cbn; auto.
Qed.

Lemma query_rows_answers {R : Type} (d : Database) (sel : Store -> list R) :
  answers d ->
  snd (query_rows (Root d) sel) = sel (tables d)
  /\ GetErrors (fst (query_rows (Root d) sel)) = []
  /\ tables (db (fst (query_rows (Root d) sel))) = tables d
  /\ answers (db (fst (query_rows (Root d) sel))).
Proof.
  intros H. destruct (answers_next d H) as (Hf & Ha & Ht).
  unfold query_rows, Root, HasError. cbn [GetErrors db].
  destruct (next_fault d) as [[e|] d1]; cbn in *; [discriminate|].
  rewrite Ht. auto.
Qed.

Lemma multify_GetErrors (h : DB) : multify h = GetErrors h.
Proof.
  unfold multify, multierr_Append, ErrorNotFound.
  assert (G : forall es acc,
    fold_left (fun merr e =>
      if is_ErrRecordNotFound e then merr ++ [ErrRecordNotFound]
      else merr ++ [e]) es acc = acc ++ es).
  { induction es as [|e es IH]; intros acc; cbn.
    - now rewrite app_nil_r.
    - rewrite IH. destruct e; cbn; now rewrite <- app_assoc. }
  apply G.
Qed.

Lemma exec_skipped (h : DB) (run : Store -> Store) :
  GetErrors h <> [] -> exec h run = h.
Proof.
  unfold exec, HasError. destruct (GetErrors h); [congruence|reflexivity].
Qed.

Lemma tables_next_fault (d : Database) : tables (snd (next_fault d)) = tables d.
Proof. unfold next_fault. now destruct (faults d). Qed.

(** A statement on a handle without error either fails, leaving the
    tables as they are, or runs. *)
Lemma exec_cases (h : DB) (run : Store -> Store) :
  GetErrors h = [] ->
  (exists e, fst (next_fault (db h)) = Some e
     /\ exec h run = mkDB (snd (next_fault (db h))) [e])
  \/ (fst (next_fault (db h)) = None
      /\ exec h run
         = mkDB (mkDatabase (run (tables (db h)))
                            (faults (snd (next_fault (db h))))) []).
Proof.
  intros He. unfold exec, HasError. rewrite He.
  pose proof (tables_next_fault (db h)) as Ht.
  destruct (next_fault (db h)) as [[e|] d1]; cbn [fst snd] in *.
  - left. eauto.
  - right. rewrite Ht. auto.
Qed.

(** *** CreateTx *)

Lemma Save_Tx_cases (d : Database) (tx : Tx) :
  (exists e, fst (next_fault d) = Some e
     /\ Save_Tx (Root d) tx = (mkDB (snd (next_fault d)) [e], tx))
  \/ (fst (next_fault d) = None
      /\ Save_Tx (Root d) tx
         = (mkDB (mkDatabase
                    (set_txes (tables d) (txes_after tx (txes (tables d))))
                    (faults (snd (next_fault d)))) [],
            Tx_saved tx (txes (tables d)))).
Proof.
  unfold Save_Tx, txes_after, Tx_saved.
  destruct (N.eqb (Tx_ID tx) 0).
  - match goal with |- context [exec (Root d) ?run] =>
      destruct (exec_cases (Root d) run eq_refl) as [(e & Hf & ->)|(Hf & ->)]
    end; cbn [db Root HasError GetErrors] in *; [left|right]; eauto.
  - match goal with |- context [exec (Root d) ?run] =>
      destruct (exec_cases (Root d) run eq_refl) as [(e & Hf & ->)|(Hf & ->)]
    end; cbn [db Root HasError GetErrors] in *; [left|right]; eauto.
Qed.

(** C1 (amended).  [CreateTx], for every input, a zero gas limit or a
    negative value included, allocates a Tx with a fresh id and no attempt
    yet and persists it; it checks nothing, and fails only when the store
    fails the save, in which case no Tx is persisted. *)
Theorem CreateTx_persists_unvalidated (d : Database) (from : Address)
    (nonce : N) (to : Address) (data : list Byte.byte) (value : Z)
    (gasLimit : N) :
  let id := next_id (map Tx_ID (txes (tables d))) in
  let tx := mkTx id from to data nonce value gasLimit false None in
  match fst (next_fault d) with
  | Some e =>
      CreateTx d from nonce to data value gasLimit
      = (snd (next_fault d), (Tx_with_ID tx 0, [e]))
      /\ tables (snd (next_fault d)) = tables d
  | None =>
      CreateTx d from nonce to data value gasLimit
      = (mkDatabase (set_txes (tables d) (txes (tables d) ++ [tx]))
                    (faults (snd (next_fault d))),
         (tx, []))
      /\ ~ In id (map Tx_ID (txes (tables d)))
  end.
Proof.
  intros id tx. unfold CreateTx.
  destruct (Save_Tx_cases d
              (mkTx 0 from to data nonce value gasLimit false None))
    as [(e & Hf & Hs)|(Hf & Hs)]; rewrite Hf, Hs.
  - rewrite multify_GetErrors. cbn. split; [reflexivity|].
    apply tables_next_fault.
  - rewrite multify_GetErrors. cbn. split; [reflexivity|].
    apply next_id_fresh.
Qed.

(** *** AddTxAttempt *)

Lemma attempts_after_In_self (a : TxAttempt) rows :
  In a (attempts_after a rows).
Proof.
  unfold attempts_after. destruct (TxAttempt_Hash a =? 0)%N.
  - apply in_or_app. right. now left.
  - apply upsert_In_self.
Qed.

Lemma attempts_after_retains (a x : TxAttempt) rows :
  In x rows -> TxAttempt_Hash x <> TxAttempt_Hash a ->
  In x (attempts_after a rows).
Proof.
  intros Hx Hk. unfold attempts_after. destruct (TxAttempt_Hash a =? 0)%N.
  - apply in_or_app. now left.
  - now apply upsert_retains.
Qed.

Lemma txes_after_In_saved (tx : Tx) rows :
  In (Tx_saved tx rows) (txes_after tx rows).
Proof.
  unfold txes_after, Tx_saved. destruct (Tx_ID tx =? 0)%N.
  - apply in_or_app. right. now left.
  - apply upsert_In_self.
Qed.

(** The three ways [AddTxAttempt] ends once the transaction is encoded:
    the save of the Tx fails; it runs and the save of the attempt fails;
    both run. *)
Lemma AddTxAttempt_outcomes (d : Database) (tx : Tx) (etx : Transaction)
    (blkNum : N) (hex : string) :
  etx_EncodeTxToHex etx = inl hex ->
  let attempt :=
    mkTxAttempt (etx_Hash etx) (Tx_ID tx) (etx_GasPrice etx) false hex blkNum in
  let tx1 :=
    if negb (Tx_Confirmed tx) then AssignTxAttempt tx attempt else tx in
  let rows := txes (tables d) in
  exists d' tx' err,
    AddTxAttempt d tx etx blkNum = (d', (tx', Some attempt, err))
    /\ ((err <> [] /\ tx' = tx1 /\ tables d' = tables d)
        \/ (err <> [] /\ tx' = Tx_saved tx1 rows
            /\ tables d' = set_txes (tables d) (txes_after tx1 rows))
        \/ (err = [] /\ tx' = Tx_saved tx1 rows
            /\ tables d'
               = set_tx_attempts
                   (set_txes (tables d) (txes_after tx1 rows))
                   (attempts_after attempt (tx_attempts (tables d))))).
Proof.
  intros Hhex attempt tx1 rows. unfold AddTxAttempt. rewrite Hhex.
  fold attempt. fold tx1.
  destruct (Save_Tx_cases d tx1) as [(e & Hf & Hs)|(Hf & Hs)]; rewrite Hs.
  - unfold Save_TxAttempt. rewrite exec_skipped by (cbn; discriminate).
    rewrite multify_GetErrors. cbn [db GetErrors].
    eexists _, _, _. split; [reflexivity|]. left.
    split; [discriminate|]. split; [reflexivity|]. apply tables_next_fault.
  - unfold Save_TxAttempt.
    match goal with |- context [exec ?h ?run] =>
      destruct (exec_cases h run eq_refl) as [(e & Hf2 & ->)|(Hf2 & ->)]
    end; rewrite multify_GetErrors; cbn [db GetErrors tables] in *.
    + eexists _, _, _. split; [reflexivity|]. right. left.
      split; [discriminate|]. split; [reflexivity|].
      now rewrite tables_next_fault.
    + eexists _, _, _. split; [reflexivity|]. right. right.
      split; [reflexivity|]. split; reflexivity.
Qed.

(** [AddTxAttempt] and its saves on a store that answers. *)
Lemma answers_after_statement (d : Database) :
  answers d -> forall s, answers (mkDatabase s (faults (snd (next_fault d)))).
Proof.
  intros Ha s. destruct (answers_next d Ha) as (_ & Ha' & _). exact Ha'.
Qed.

Lemma Save_Tx_answers (d : Database) (tx : Tx) :
  answers d ->
  exists d1,
    Save_Tx (Root d) tx = (Root d1, Tx_saved tx (txes (tables d)))
    /\ tables d1 = set_txes (tables d) (txes_after tx (txes (tables d)))
    /\ answers d1.
Proof.
  intros Ha. destruct (Save_Tx_cases d tx) as [(e & Hf & Hs)|(Hf & Hs)].
  - destruct (answers_next d Ha) as (Hn & _). congruence.
  - eexists. split; [exact Hs|]. split; [reflexivity|].
    now apply answers_after_statement.
Qed.

Lemma Save_TxAttempt_answers (d : Database) (a : TxAttempt) :
  answers d ->
  GetErrors (Save_TxAttempt (Root d) a) = []
  /\ tables (db (Save_TxAttempt (Root d) a))
     = set_tx_attempts (tables d) (attempts_after a (tx_attempts (tables d)))
  /\ answers (db (Save_TxAttempt (Root d) a)).
Proof.
  intros Ha. unfold Save_TxAttempt.
  match goal with |- context [exec (Root d) ?run] =>
    destruct (exec_answers d run Ha) as (He & Ht & Hans) end.
  auto.
Qed.

Lemma AddTxAttempt_answers (d : Database) (tx : Tx) (etx : Transaction)
    (blkNum : N) (hex : string) :
  answers d ->
  etx_EncodeTxToHex etx = inl hex ->
  let attempt :=
    mkTxAttempt (etx_Hash etx) (Tx_ID tx) (etx_GasPrice etx) false hex blkNum in
  let tx1 :=
    if negb (Tx_Confirmed tx) then AssignTxAttempt tx attempt else tx in
  snd (AddTxAttempt d tx etx blkNum)
  = (Tx_saved tx1 (txes (tables d)), Some attempt, [])
  /\ tables (fst (AddTxAttempt d tx etx blkNum))
     = set_tx_attempts
         (set_txes (tables d) (txes_after tx1 (txes (tables d))))
         (attempts_after attempt (tx_attempts (tables d)))
  /\ answers (fst (AddTxAttempt d tx etx blkNum)).
Proof.
  intros Ha Hhex attempt tx1. unfold AddTxAttempt. rewrite Hhex.
  fold attempt. fold tx1.
  destruct (Save_Tx_answers d tx1 Ha) as (d1 & Hs & Ht & Ha1). rewrite Hs.
  destruct (Save_TxAttempt_answers d1 attempt Ha1) as (He & Ht2 & Ha2).
  cbn [fst snd]. rewrite multify_GetErrors, He, Ht2, Ht.
  auto.
Qed.

(** C2 (amended).  After a successful [AddTxAttempt] the new attempt is
    persisted (it is in the table, and [FindTxAttempt] returns it), and so
    is the Tx; the new attempt becomes the active attempt of a Tx that is
    not confirmed, while a confirmed Tx keeps the active attempt it had;
    the attempts stored under other hashes are retained.  So a Tx that is
    not confirmed, or that had an active attempt, has exactly one active
    attempt afterwards. *)
Theorem AddTxAttempt_active_attempt (d : Database) (tx : Tx)
    (etx : Transaction) (blkNum : N) (d' : Database) (tx' : Tx)
    (att : TxAttempt) :
  AddTxAttempt d tx etx blkNum = (d', (tx', Some att, [])) ->
  TxAttempt_Hash att = etx_Hash etx
  /\ In att (tx_attempts (tables d'))
  /\ In tx' (txes (tables d'))
  /\ Tx_Attempt tx'
     = (if Tx_Confirmed tx then Tx_Attempt tx else Some (etx_Hash etx))
  /\ (forall a, In a (tx_attempts (tables d)) ->
        TxAttempt_Hash a <> etx_Hash etx -> In a (tx_attempts (tables d')))
  /\ (Tx_Confirmed tx = false \/ Tx_Attempt tx <> None ->
      exists hash, Tx_Attempt tx' = Some hash)
  /\ (etx_Hash etx <> 0%N ->
      forall fs, answers (mkDatabase (tables d') fs) ->
        snd (FindTxAttempt (mkDatabase (tables d') fs) (etx_Hash etx))
        = (att, [])).
Proof.
  intros Hcall.
  destruct (etx_EncodeTxToHex etx) as [hex|e] eqn:Hhex.
  2: { unfold AddTxAttempt in Hcall. rewrite Hhex in Hcall. discriminate. }
  destruct (AddTxAttempt_outcomes d tx etx blkNum hex Hhex)
    as (d1 & tx1 & err & Heq & Hout).
  rewrite Heq in Hcall. injection Hcall as -> -> <- ->.
  destruct Hout as [(Hne & _)|[(Hne & _)|(_ & -> & Ht)]];
    try (now contradiction Hne).
  rewrite Ht. cbn [tx_attempts txes set_tx_attempts set_txes TxAttempt_Hash].
  split; [reflexivity|].
  split; [apply attempts_after_In_self|].
  split; [apply txes_after_In_saved|].
  assert (Hact : Tx_Attempt
            (Tx_saved
               (if negb (Tx_Confirmed tx)
                then AssignTxAttempt tx
                       (mkTxAttempt (etx_Hash etx) (Tx_ID tx)
                                    (etx_GasPrice etx) false hex blkNum)
                else tx) (txes (tables d)))
          = (if Tx_Confirmed tx then Tx_Attempt tx
             else Some (etx_Hash etx))).
  { unfold Tx_saved. destruct (Tx_Confirmed tx); cbn [negb];
      destruct (N.eqb _ 0); reflexivity. }
  split; [exact Hact|].
  split; [intros a Ha Hk; now apply attempts_after_retains|].
  split.
  - rewrite Hact. intros [Hc|Hsome].
    + rewrite Hc. eauto.
    + destruct (Tx_Confirmed tx); [|eauto].
      destruct (Tx_Attempt tx) as [hash|]; [eauto|contradiction].
  - intros Hhash fs Hfs. unfold FindTxAttempt.
    match goal with |- context [query_one (Root ?d1) ?sel] =>
      destruct (query_one_answers d1 sel Hfs) as (Hsel & Herr & _ & _);
      destruct (query_one (Root d1) sel) as [r found] end.
    cbn [fst snd tables tx_attempts set_tx_attempts] in *.
    assert (Hlook : lookup TxAttempt_Hash N.eqb (etx_Hash etx)
              (attempts_after
                 (mkTxAttempt (etx_Hash etx) (Tx_ID tx) (etx_GasPrice etx)
                              false hex blkNum)
                 (tx_attempts (tables d)))
            = Some (mkTxAttempt (etx_Hash etx) (Tx_ID tx) (etx_GasPrice etx)
                                false hex blkNum)).
    { unfold attempts_after. cbn [TxAttempt_Hash].
      destruct (N.eqb_spec (etx_Hash etx) 0); [contradiction|].
      exact (lookup_upsert_same TxAttempt_Hash
               (mkTxAttempt (etx_Hash etx) (Tx_ID tx) (etx_GasPrice etx)
                            false hex blkNum)
               (tx_attempts (tables d))). }
    rewrite multify_GetErrors, Herr, Hsel, Hlook. reflexivity.
Qed.

Lemma same_intent_refl (a : Tx) : same_intent a a.
Proof. unfold same_intent. tauto. Qed.

Lemma same_intent_trans (a b c : Tx) :
  same_intent a b -> same_intent b c -> same_intent a c.
Proof. unfold same_intent. intuition congruence. Qed.

(** C3.  Adding an attempt to an existing Tx changes neither its nonce nor
    its from, to, data, value and gas limit (nor its id and confirmed
    flag) on the value passed in; the stored row is afterwards the row of
    before or the value passed in as the call leaves it, so a Tx that
    agreed with its row keeps the row's fields; no other Tx is touched.
    When the call returns no error, which it does when the transaction
    encodes and the store answers, the attempt it returns is stored, under
    the id of the Tx and the hash of the transaction. *)
Theorem AddTxAttempt_keeps_nonce (d : Database) (tx row0 : Tx)
    (etx : Transaction) (blkNum : N) (d' : Database) (tx' : Tx)
    (oatt : option TxAttempt) (err : error) :
  Tx_ID tx <> 0%N ->
  lookup Tx_ID N.eqb (Tx_ID tx) (txes (tables d)) = Some row0 ->
  AddTxAttempt d tx etx blkNum = (d', (tx', oatt, err)) ->
  same_intent tx tx'
  /\ (exists row, lookup Tx_ID N.eqb (Tx_ID tx) (txes (tables d')) = Some row
        /\ (row = row0 \/ row = tx')
        /\ (same_intent row0 tx -> same_intent row0 row))
  /\ (forall id, id <> Tx_ID tx ->
        lookup Tx_ID N.eqb id (txes (tables d'))
        = lookup Tx_ID N.eqb id (txes (tables d)))
  /\ (forall att, oatt = Some att ->
        TxAttempt_TxID att = Tx_ID tx' /\ TxAttempt_Hash att = etx_Hash etx)
  /\ (err = [] ->
      exists att,
        oatt = Some att
        /\ TxAttempt_TxID att = Tx_ID tx
        /\ TxAttempt_Hash att = etx_Hash etx
        /\ In att (tx_attempts (tables d'))
        /\ (etx_Hash etx <> 0%N ->
            lookup TxAttempt_Hash N.eqb (etx_Hash etx)
                   (tx_attempts (tables d')) = Some att)
        /\ lookup Tx_ID N.eqb (Tx_ID tx) (txes (tables d')) = Some tx')
  /\ (answers d -> (exists hex, etx_EncodeTxToHex etx = inl hex) ->
      err = []).
Proof.
  intros Hid Hrow Hcall.
  destruct (etx_EncodeTxToHex etx) as [hex|e] eqn:Hhex.
  2: { unfold AddTxAttempt in Hcall. rewrite Hhex in Hcall.
       injection Hcall as <- <- <- <-.
       split; [apply same_intent_refl|].
       split; [exists row0; split; [assumption|split; [now left|]];
               intros _; apply same_intent_refl|].
       split; [reflexivity|]. split; [discriminate|].
       split; [discriminate|]. intros _ (hex & Hx). discriminate. }
  destruct (AddTxAttempt_outcomes d tx etx blkNum hex Hhex)
    as (d1 & tx1 & err1 & Heq & Hout).
  rewrite Heq in Hcall. injection Hcall as -> -> <- ->.
  set (attempt := mkTxAttempt (etx_Hash etx) (Tx_ID tx) (etx_GasPrice etx)
                              false hex blkNum) in *.
  set (txa := if negb (Tx_Confirmed tx) then AssignTxAttempt tx attempt
              else tx) in *.
  assert (Ha : same_intent tx txa).
  { unfold txa, same_intent, attempt.
    destruct (Tx_Confirmed tx) eqn:Hc; cbn; rewrite ?Hc; tauto. }
  assert (Hida : Tx_ID txa = Tx_ID tx) by (symmetry; apply Ha).
  assert (Hsaved : Tx_saved txa (txes (tables d)) = txa).
  { unfold Tx_saved. rewrite Hida.
    destruct (N.eqb_spec (Tx_ID tx) 0); [contradiction|reflexivity]. }
  assert (Hafter : txes_after txa (txes (tables d))
                   = upsert Tx_ID N.eqb txa (txes (tables d))).
  { unfold txes_after. rewrite Hida.
    destruct (N.eqb_spec (Tx_ID tx) 0); [contradiction|reflexivity]. }
  assert (Hlook : lookup Tx_ID N.eqb (Tx_ID tx)
                    (upsert Tx_ID N.eqb txa (txes (tables d))) = Some txa).
  { rewrite <- Hida. apply lookup_upsert_same. }
  assert (Hother : forall id, id <> Tx_ID tx ->
            lookup Tx_ID N.eqb id (upsert Tx_ID N.eqb txa (txes (tables d)))
            = lookup Tx_ID N.eqb id (txes (tables d))).
  { intros id Hne. apply lookup_upsert_other. rewrite Hida. congruence. }
  assert (Hstored : etx_Hash etx <> 0%N ->
            lookup TxAttempt_Hash N.eqb (etx_Hash etx)
              (attempts_after attempt (tx_attempts (tables d)))
            = Some attempt).
  { intros Hh. unfold attempts_after. cbn [attempt TxAttempt_Hash].
    destruct (N.eqb_spec (etx_Hash etx) 0); [contradiction|].
    exact (lookup_upsert_same TxAttempt_Hash attempt
             (tx_attempts (tables d))). }
  assert (Hruns : answers d -> err = []).
  { intros Hans.
    destruct (AddTxAttempt_answers d tx etx blkNum hex Hans Hhex)
      as (Hres & _).
    rewrite Heq in Hres. cbn [snd] in Hres. now injection Hres. }
  destruct Hout as [(He & -> & Ht)|[(He & -> & Ht)|(He & -> & Ht)]];
    rewrite Ht; cbn [txes tx_attempts set_txes set_tx_attempts];
    rewrite ?Hsaved, ?Hafter.
  - split; [exact Ha|].
    split; [exists row0; split; [assumption|split; [now left|]];
            intros _; apply same_intent_refl|].
    split; [reflexivity|].
    split; [intros att [= <-]; cbn; auto|].
    split; [intros E; contradiction|].
    intros Hans _. now apply Hruns.
  - split; [exact Ha|].
    split; [exists txa; split; [assumption|split; [now right|]];
            intros Hsync; now apply same_intent_trans with tx|].
    split; [exact Hother|].
    split; [intros att [= <-]; cbn; auto|].
    split; [intros E; contradiction|].
    intros Hans _. now apply Hruns.
  - split; [exact Ha|].
    split; [exists txa; split; [assumption|split; [now right|]];
            intros Hsync; now apply same_intent_trans with tx|].
    split; [exact Hother|].
    split; [intros att [= <-]; cbn; auto|].
    split.
    + intros _. exists attempt.
      split; [reflexivity|]. split; [reflexivity|]. split; [reflexivity|].
      split; [apply attempts_after_In_self|].
      split; [exact Hstored|exact Hlook].
    + intros Hans _. now apply Hruns.
Qed.

(** *** GetLastNonce *)

Lemma nonce_desc_order (a b : Tx) :
  (nonce_desc a b = true -> (Tx_Nonce b <= Tx_Nonce a)%N)
  /\ (nonce_desc a b = false -> (Tx_Nonce a <= Tx_Nonce b)%N).
Proof.
  unfold nonce_desc.
  destruct (N.ltb_spec (Tx_Nonce b) (Tx_Nonce a));
    destruct (N.eqb_spec (Tx_Nonce a) (Tx_Nonce b)); cbn;
    split; intros; try discriminate; lia.
Qed.

(** C4.  [GetLastNonce] returns the highest nonce among the persisted
    transactions from the address, and nonce 0 without error when there is
    none. *)
Theorem GetLastNonce_highest (d : Database) (address : Address) :
  answers d ->
  exists n,
    snd (GetLastNonce d address) = (n, [])
    /\ tables (fst (GetLastNonce d address)) = tables d
    /\ (forall t, In t (txes (tables d)) -> Tx_From t = address ->
          (Tx_Nonce t <= n)%N)
    /\ ((exists t, In t (txes (tables d)) /\ Tx_From t = address) ->
        exists t, In t (txes (tables d)) /\ Tx_From t = address
                  /\ Tx_Nonce t = n)
    /\ ((forall t, In t (txes (tables d)) -> Tx_From t <> address) ->
        n = 0%N).
Proof.
  intros Ha. unfold GetLastNonce.
  match goal with |- context [query_one (Root d) ?sel] =>
    destruct (query_one_answers d sel Ha) as (Hsel & Herr & Ht & _);
    destruct (query_one (Root d) sel) as [rval found] end.
  cbn [fst snd] in *. subst found.
  unfold multifyWithoutRecordNotFound. rewrite Herr.
  set (mine := filter (fun t => Tx_From t =? address)%N (txes (tables d))) in *.
  assert (Hmine : forall t, In t mine <->
            In t (txes (tables d)) /\ Tx_From t = address).
  { intros t. unfold mine. rewrite filter_In, N.eqb_eq. tauto. }
  destruct (first_by nonce_desc mine) as [t0|] eqn:Hfirst.
  - exists (Tx_Nonce t0). split; [reflexivity|]. split; [exact Ht|].
    pose proof (first_by_In _ _ _ Hfirst) as Hin. apply Hmine in Hin.
    split; [|split].
    + intros t Hin' Hfrom.
      apply (first_by_greatest nonce_desc Tx_Nonce mine); auto.
      * intros a b _ _. apply nonce_desc_order.
      * apply Hmine. auto.
    + intros _. exists t0. tauto.
    + intros Hnone. destruct Hin as [Hin Hfrom]. now apply Hnone in Hin.
  - exists 0%N. split; [reflexivity|]. split; [exact Ht|].
    apply first_by_nil in Hfirst.
    split; [|split].
    + intros t Hin Hfrom. assert (In t mine) by (apply Hmine; auto).
      rewrite Hfirst in *. contradiction.
    + intros (t & Hin & Hfrom). assert (In t mine) by (apply Hmine; auto).
      rewrite Hfirst in *. contradiction.
    + reflexivity.
Qed.

(** *** SaveHead and LastHead *)

Lemma NewIndexableBlockNumber_well_formed (n : N) (hash : Hash) :
  well_formed_head (NewIndexableBlockNumber n hash).
Proof. reflexivity. Qed.

(** Ordering by digit count, then by the text of the number, is ordering by
    the number. *)
Lemma digits_desc_number_desc_numeric (a b : IndexableBlockNumber) :
  well_formed_head a -> well_formed_head b ->
  digits_desc_number_desc a b = (Head_Number b <? Head_Number a)%N.
Proof.
  unfold well_formed_head, digits_desc_number_desc. intros -> ->.
  set (la := String.length (Big_String (Head_Number a))).
  set (lb := String.length (Big_String (Head_Number b))).
  destruct (lt_eq_lt_dec la lb) as [[Hlt|Heq]|Hgt].
  - pose proof (Big_String_shorter_smaller _ _ Hlt) as Hab.
    replace (N.of_nat lb <? N.of_nat la)%N with false
      by (symmetry; apply N.ltb_ge; lia).
    replace (N.of_nat la =? N.of_nat lb)%N with false
      by (symmetry; apply N.eqb_neq; lia).
    symmetry. apply N.ltb_ge. lia.
  - rewrite (Big_String_ltb _ _ Heq). rewrite Heq.
    rewrite N.ltb_irrefl, N.eqb_refl. reflexivity.
  - pose proof (Big_String_shorter_smaller _ _ Hgt) as Hba.
    replace (N.of_nat lb <? N.of_nat la)%N with true
      by (symmetry; apply N.ltb_lt; lia).
    symmetry. apply N.ltb_lt. exact Hba.
Qed.

Lemma SaveHead_answers (d : Database) (n : IndexableBlockNumber) :
  answers d ->
  snd (SaveHead d n) = []
  /\ indexable_block_numbers (tables (fst (SaveHead d n)))
     = heads_after n (indexable_block_numbers (tables d))
  /\ answers (fst (SaveHead d n)).
Proof.
  intros H. unfold SaveHead, Save_IndexableBlockNumber, Error_of.
  cbn [fst snd].
  match goal with |- context [exec (Root d) ?run] =>
    destruct (exec_answers d run H) as (He & Ht & Ha) end.
  rewrite He, Ht. auto.
Qed.

Lemma heads_after_In (n : IndexableBlockNumber) rows :
  (forall x, In x rows -> Head_Hash x = Head_Hash n -> x = n) ->
  forall y, In y (heads_after n rows) <-> In y rows \/ y = n.
Proof.
  intros Hsame y. unfold heads_after.
  destruct (Head_Hash n =? 0)%N.
  - rewrite in_app_iff. cbn. intuition.
  - now apply upsert_In.
Qed.

Lemma save_heads_rows (hs : list IndexableBlockNumber) :
  forall d, answers d ->
    (forall a b, In a (indexable_block_numbers (tables d) ++ hs) ->
                 In b (indexable_block_numbers (tables d) ++ hs) ->
                 Head_Hash a = Head_Hash b -> a = b) ->
    answers (save_heads d hs)
    /\ forall y, In y (indexable_block_numbers (tables (save_heads d hs)))
                 <-> In y (indexable_block_numbers (tables d)) \/ In y hs.
Proof.
  induction hs as [|n hs IH]; intros d Ha Hinj; cbn [save_heads fold_left].
  - split; [assumption|]. intros y. cbn. intuition.
  - destruct (SaveHead_answers d n Ha) as (_ & Hrows & Ha').
    assert (Hn : forall y,
      In y (indexable_block_numbers (tables (fst (SaveHead d n))))
      <-> In y (indexable_block_numbers (tables d)) \/ y = n).
    { rewrite Hrows. apply heads_after_In. intros x Hx Hk.
      apply Hinj; auto; rewrite in_app_iff; cbn; auto. }
    destruct (IH (fst (SaveHead d n)) Ha') as (Hans & Hin).
    { intros a b Hina Hinb. apply Hinj.
      - rewrite in_app_iff in *. cbn. rewrite Hn in Hina. intuition.
      - rewrite in_app_iff in *. cbn. rewrite Hn in Hinb. intuition. }
    split; [exact Hans|]. intros y. fold (save_heads (fst (SaveHead d n)) hs).
    rewrite Hin, Hn. cbn. intuition.
Qed.

(** C5.  After any sequence of [SaveHead] calls [LastHead] returns the
    saved head whose block number is greatest, and the empty head without
    error when none was saved: ordering by digit count and then by the
    text of the number is the numeric order of the block numbers. *)
Theorem LastHead_greatest_number (d : Database)
    (hs : list IndexableBlockNumber) :
  answers d ->
  indexable_block_numbers (tables d) = [] ->
  Forall well_formed_head hs ->
  (forall a b, In a hs -> In b hs -> Head_Hash a = Head_Hash b -> a = b) ->
  exists h,
    snd (LastHead (save_heads d hs)) = (h, [])
    /\ (hs = [] -> h = IndexableBlockNumber_zero)
    /\ (hs <> [] ->
        In h hs /\ forall h', In h' hs -> (Head_Number h' <= Head_Number h)%N).
Proof.
  intros Ha Hempty Hwf Hinj.
  destruct (save_heads_rows hs d Ha) as (Hans & Hrows).
  { rewrite Hempty. exact Hinj. }
  rewrite Hempty in Hrows.
  assert (Hiff : forall y,
    In y (indexable_block_numbers (tables (save_heads d hs))) <-> In y hs).
  { intros y. rewrite Hrows. cbn. intuition. }
  clear Hrows.
  unfold LastHead.
  match goal with |- context [query_one (Root ?d') ?sel] =>
    destruct (query_one_answers d' sel Hans) as (Hsel & Herr & _ & _);
    destruct (query_one (Root d') sel) as [rval found] end.
  cbn [fst snd] in *. subst found.
  unfold multifyWithoutRecordNotFound. rewrite Herr.
  set (rows := indexable_block_numbers (tables (save_heads d hs))) in *.
  destruct (first_by digits_desc_number_desc rows) as [h|] eqn:Hfirst.
  - exists h. split; [reflexivity|].
    pose proof (first_by_In _ _ _ Hfirst) as Hin.
    split.
    + intros ->. apply Hiff in Hin. destruct Hin.
    + intros _. split; [now apply Hiff|]. intros h' Hh'.
      apply (first_by_greatest digits_desc_number_desc Head_Number rows);
        [|exact Hfirst|now apply Hiff].
      intros a b Hina Hinb. rewrite Forall_forall in Hwf.
      rewrite digits_desc_number_desc_numeric by (apply Hwf; now apply Hiff).
      split; intros H; [apply N.ltb_lt in H | apply N.ltb_ge in H]; lia.
  - exists IndexableBlockNumber_zero. split; [reflexivity|].
    apply first_by_nil in Hfirst.
    split; [reflexivity|]. intros Hne. exfalso.
    destruct hs as [|h0 hs']; [now apply Hne|].
    assert (In h0 rows) by (apply Hiff; now left).
    rewrite Hfirst in *. assumption.
Qed.

(** *** MarkRan *)

Lemma lookup_mark_ran (k id : string) (rows : list Initiator) :
  lookup Initiator_ID String.eqb k
    (map (fun x => if String.eqb (Initiator_ID x) id
                   then Initiator_with_Ran x true else x) rows)
  = option_map
      (fun x => if String.eqb (Initiator_ID x) id
                then Initiator_with_Ran x true else x)
      (lookup Initiator_ID String.eqb k rows).
Proof.
  unfold lookup. induction rows as [|x rows IH]; cbn [map find];
    [reflexivity|].
  assert (Hk : Initiator_ID (if String.eqb (Initiator_ID x) id
                             then Initiator_with_Ran x true else x)
               = Initiator_ID x)
    by (destruct (String.eqb (Initiator_ID x) id); reflexivity).
  rewrite Hk. destruct (String.eqb (Initiator_ID x) k); [reflexivity|].
  exact IH.
Qed.

(** C6 (amended).  On a store that answers, [MarkRan] returns nil with
    the ran flag of the value passed in set, and touches no table but that
    of the initiators.  For an initiator stored under its non-blank id it
    sets the ran flag of the stored row to true and changes no other field
    of it and no other initiator, and the flag is read back as true from
    the tables afterwards, whatever the in-memory state.  For a non-blank
    id that is not stored it persists nothing; for a blank id it sets the
    ran flag of every stored initiator. *)
Theorem MarkRan_sets_only_ran (d : Database) (i : Initiator) :
  answers d ->
  let d' := fst (MarkRan d i) in
  snd (MarkRan d i) = (Initiator_with_Ran i true, [])
  /\ other_than_initiators (tables d') = other_than_initiators (tables d)
  /\ (Initiator_ID i <> EmptyString ->
      (forall row,
         lookup Initiator_ID String.eqb (Initiator_ID i)
                (initiators (tables d)) = Some row ->
         exists row',
           lookup Initiator_ID String.eqb (Initiator_ID i)
                  (initiators (tables d')) = Some row'
           /\ Initiator_Ran row' = true /\ same_but_ran row row'
           /\ (forall fs, answers (mkDatabase (tables d') fs) ->
                 snd (FindInitiator (mkDatabase (tables d') fs)
                                    (Initiator_ID i))
                 = (row', [])))
      /\ (forall id, id <> Initiator_ID i ->
            lookup Initiator_ID String.eqb id (initiators (tables d'))
            = lookup Initiator_ID String.eqb id (initiators (tables d)))
      /\ (lookup Initiator_ID String.eqb (Initiator_ID i)
                 (initiators (tables d)) = None ->
          tables d' = tables d))
  /\ (Initiator_ID i = EmptyString ->
      initiators (tables d')
      = map (fun row => Initiator_with_Ran row true)
            (initiators (tables d))).
Proof.
  intros Ha d'. subst d'.
  unfold MarkRan, Update_ran.
  match goal with |- context [exec (Root d) ?run] =>
    destruct (exec_answers d run Ha) as (He & Ht & _) end.
  cbn [fst snd]. rewrite multify_GetErrors, He, Ht.
  cbn [initiators set_initiators].
  split; [reflexivity|]. split; [reflexivity|].
  destruct (String.eqb_spec (Initiator_ID i) EmptyString) as [Hb|Hid].
  - split; [intros H; contradiction|]. intros _. reflexivity.
  - split; [|intros H; contradiction]. intros _.
    split; [|split].
    + intros row Hrow.
      exists (Initiator_with_Ran row true).
      assert (Hkey : String.eqb (Initiator_ID row) (Initiator_ID i) = true).
      { unfold lookup in Hrow. apply find_some in Hrow. apply Hrow. }
      assert (Hnew : lookup Initiator_ID String.eqb (Initiator_ID i)
                (map (fun x => if String.eqb (Initiator_ID x) (Initiator_ID i)
                               then Initiator_with_Ran x true else x)
                     (initiators (tables d)))
              = Some (Initiator_with_Ran row true)).
      { rewrite lookup_mark_ran, Hrow. cbn. now rewrite Hkey. }
      split; [exact Hnew|].
      split; [reflexivity|].
      split; [unfold same_but_ran; cbn; tauto|].
      intros fs Hfs. unfold FindInitiator.
      match goal with |- context [query_one (Root ?d1) ?sel] =>
        destruct (query_one_answers d1 sel Hfs) as (Hsel & Herr & _ & _);
        destruct (query_one (Root d1) sel) as [r found] end.
      cbn [fst snd tables initiators set_initiators] in *.
      rewrite multify_GetErrors, Herr, Hsel, Hnew. reflexivity.
    + intros id Hne. rewrite lookup_mark_ran.
      destruct (lookup Initiator_ID String.eqb id (initiators (tables d)))
        as [x|] eqn:Hx; [|reflexivity].
      cbn. unfold lookup in Hx. apply find_some in Hx.
      destruct Hx as [_ Hx]. apply String.eqb_eq in Hx.
      destruct (String.eqb_spec (Initiator_ID x) (Initiator_ID i));
        [congruence|reflexivity].
    + intros Hnone.
      assert (Hsame : map (fun x => if String.eqb (Initiator_ID x)
                                                  (Initiator_ID i)
                                    then Initiator_with_Ran x true else x)
                          (initiators (tables d))
                      = initiators (tables d)).
      { rewrite <- (map_id (initiators (tables d))) at 2.
        apply map_ext_in. intros x Hx.
        destruct (String.eqb_spec (Initiator_ID x) (Initiator_ID i))
          as [E|E]; [|reflexivity].
        exfalso. unfold lookup in Hnone.
        apply (find_none _ _ Hnone) in Hx.
        rewrite E, String.eqb_refl in Hx. discriminate. }
      rewrite Hsame. now destruct (tables d).
Qed.

(** *** Jobs *)

Lemma range_jobs_keeps {Env : Type}
    (cb : Env -> Database -> JobSpec -> Env * Database * bool)
    (jobs : list JobSpec) :
  keeps_jobs cb ->
  forall s d,
    job_specs (tables (snd (fst (range_jobs cb s d jobs))))
    = job_specs (tables d)
    /\ (answers d -> answers (snd (fst (range_jobs cb s d jobs)))).
Proof.
  intros Hk. induction jobs as [|j rest IH]; intros s d; cbn [range_jobs].
  - split; [reflexivity|auto].
  - destruct (Hk s d j) as [Hj Ha].
    destruct (cb s d j) as [[s1 d1] [|]]; cbn [fst snd] in *.
    + destruct (IH s1 d1) as [Hr Har]. rewrite Hr. auto.
    + auto.
Qed.

Lemma keeps_jobs_tracing {Env : Type}
    (cb : Env -> Database -> JobSpec -> Env * Database * bool) :
  keeps_jobs cb -> keeps_jobs (tracing cb).
Proof.
  intros Hk [log s] d j. unfold tracing. cbn [fst snd].
  destruct (Hk s d j) as [Hj Ha].
  destruct (cb s d j) as [[s1 d1] go]. cbn [fst snd] in *. auto.
Qed.

(** The calls of one [range] loop, as the tracing callback logs them. *)
Lemma range_jobs_tracing {Env : Type}
    (cb : Env -> Database -> JobSpec -> Env * Database * bool)
    (jobs : list JobSpec) :
  forall log s d,
    exists t,
      range_jobs (tracing cb) (log, s) d jobs
      = ((log ++ t, fst (fst (range_jobs cb s d jobs))),
         snd (fst (range_jobs cb s d jobs)),
         snd (range_jobs cb s d jobs))
      /\ follows jobs t
      /\ (if snd (range_jobs cb s d jobs)
          then Forall (fun e => snd e = true) t
          else Exists (fun e => snd e = false) t).
Proof.
  induction jobs as [|j rest IH]; intros log s d; cbn [range_jobs].
  - exists []. rewrite app_nil_r. cbn. auto.
  - unfold tracing at 1. cbn [fst snd].
    destruct (cb s d j) as [[s1 d1] [|]].
    + destruct (IH (log ++ [(j, true)]) s1 d1) as (t & Heq & Hf & Hgo).
      exists ((j, true) :: t). rewrite Heq, <- app_assoc. cbn [app].
      split; [reflexivity|]. split; [cbn; auto|].
      destruct (snd (range_jobs cb s1 d1 rest)).
      * now constructor.
      * now apply Exists_cons_tl.
    + exists [(j, false)]. cbn [fst snd].
      split; [reflexivity|]. split; [cbn; auto|].
      now apply Exists_cons_hd.
Qed.

(** Calls that all answered true were made on every job, and the calls
    on the jobs that follow can be added to them. *)
Lemma follows_app (a b : list JobSpec) (t u : list (JobSpec * bool)) :
  follows a t -> Forall (fun e => snd e = true) t -> follows b u ->
  follows (a ++ b) (t ++ u).
Proof.
  revert t. induction a as [|j a IH]; intros [|[j' go] t] Ha Ht Hb;
    cbn in *; try contradiction; [exact Hb|].
  destruct Ha as [-> Ha]. inversion Ht as [|? ? Hgo Ht']; subst.
  cbn in Hgo. subst go. auto.
Qed.

(** Calls that ended on an answer false are not followed by any. *)
Lemma follows_stopped (a b : list JobSpec) (t : list (JobSpec * bool)) :
  follows a t -> Exists (fun e => snd e = false) t -> follows (a ++ b) t.
Proof.
  revert t. induction a as [|j a IH]; intros [|[j' go] t] Ha Ht;
    cbn in *; try contradiction.
  - inversion Ht.
  - destruct Ha as [-> Ha]. split; [reflexivity|].
    destruct go; [|exact Ha].
    apply IH; [exact Ha|].
    inversion Ht as [? ? Hgo|? ? Ht']; subst; [discriminate|exact Ht'].
Qed.

(** A query more than there are full batches left ends the loop. *)
Lemma Jobs_from_enumerates {Env : Type}
    (cb : Env -> Database -> JobSpec -> Env * Database * bool)
    (limit : nat) :
  0 < limit -> keeps_jobs cb ->
  forall fuel d s log offset,
    answers d ->
    (List.length (job_specs (tables d)) - offset) / limit < fuel ->
    exists d' s' t,
      Jobs_from (tracing cb) fuel limit d (log, s) offset
      = Some (d', ((log ++ t, s'), []))
      /\ follows (map without_preload
                      (skipn offset (job_specs (tables d)))) t
      /\ job_specs (tables d') = job_specs (tables d)
      /\ answers d'.
Proof.
  intros Hlimit Hk.
  induction fuel as [|fuel IH]; intros d s log offset Ha Hfuel; [lia|].
  cbn [Jobs_from]. unfold Jobs_batch.
  match goal with |- context [query_rows (Root d) ?sel] =>
    destruct (query_rows_answers d sel Ha) as (Hsel & Herr & Ht & Ha');
    destruct (query_rows (Root d) sel) as [r jobs] end.
  cbn [fst snd] in *. rewrite multify_GetErrors, Herr.
  set (rest := skipn offset (job_specs (tables d))) in *.
  assert (Hrest : List.length rest
                  = List.length (job_specs (tables d)) - offset)
    by apply length_skipn.
  assert (Hjobs : List.length jobs = Nat.min limit (List.length rest))
    by (rewrite Hsel, length_map; apply length_firstn).
  destruct (range_jobs_tracing cb jobs log s (db r)) as (t & Heq & Hf & Hgo).
  destruct (range_jobs_keeps cb jobs Hk s (db r)) as [Hkeep Hans].
  rewrite Heq.
  destruct (range_jobs cb s (db r) jobs) as [[s1 d1] go].
  cbn [fst snd] in *.
  assert (Hsplit : map without_preload rest
                   = jobs ++ map without_preload (skipn limit rest)).
  { rewrite Hsel, <- map_app, firstn_skipn. reflexivity. }
  destruct go; cbn [negb].
  - destruct (Nat.ltb_spec (List.length jobs) limit) as [Hlt|Hge].
    + exists d1, s1, t. split; [reflexivity|].
      split.
      { rewrite Hsplit, skipn_all2 by lia. cbn [map].
        rewrite app_nil_r. exact Hf. }
      split; [now rewrite Hkeep, Ht|auto].
    + assert (Hfull : limit <= List.length rest) by lia.
      destruct (IH d1 s1 (log ++ t) (offset + limit))
        as (d2 & s2 & u & Hres & Hfu & Hk2 & Ha2).
      { auto. }
      { rewrite Hkeep, Ht.
        replace (List.length (job_specs (tables d)) - (offset + limit))
          with (List.length rest - limit) by lia.
        assert (Hdiv : List.length rest / limit
                       = (List.length rest - limit) / limit + 1).
        { rewrite <- Nat.div_add by lia. f_equal. lia. }
        rewrite <- Hrest in Hfuel. lia. }
      exists d2, s2, (t ++ u). rewrite Hres, <- app_assoc.
      split; [reflexivity|].
      split.
      { rewrite Hsplit. apply follows_app; [exact Hf|exact Hgo|].
        rewrite Hkeep, Ht in Hfu. unfold rest.
        rewrite skipn_skipn, (Nat.add_comm limit offset). exact Hfu. }
      split; [now rewrite Hk2, Hkeep, Ht|exact Ha2].
  - exists d1, s1, t. split; [reflexivity|].
    split; [rewrite Hsplit; now apply follows_stopped|].
    split; [now rewrite Hkeep, Ht|auto].
Qed.

(** Logging the calls changes nothing else. *)
Lemma Jobs_from_untraced {Env : Type}
    (cb : Env -> Database -> JobSpec -> Env * Database * bool)
    (limit : nat) :
  forall fuel d s log offset,
    Jobs_from cb fuel limit d s offset
    = option_map untraced
        (Jobs_from (tracing cb) fuel limit d (log, s) offset).
Proof.
  induction fuel as [|fuel IH]; intros d s log offset; [reflexivity|].
  cbn [Jobs_from]. unfold Jobs_batch.
  destruct (query_rows (Root d) _) as [r jobs].
  destruct (multify r) as [|e es]; [|reflexivity].
  destruct (range_jobs_tracing cb jobs log s (db r)) as (t & Heq & _).
  rewrite Heq.
  destruct (range_jobs cb s (db r) jobs) as [[s1 d1] go].
  cbn [fst snd].
  destruct go; cbn [negb]; [|reflexivity].
  destruct (List.length jobs <? limit); [reflexivity|].
  apply IH.
Qed.

(** C7 (amended).  For a callback that leaves the table of the job specs
    as it is, on a store that answers, [Jobs] calls the callback on the
    stored job specs in order, once each, up to and including the first
    one on which the callback returns false, and returns nil, within one
    query more than there are full batches: paging is invisible, for
    every batch size and for the 1000 of the code.  The callback is shown
    each job spec without its initiators. *)
Theorem Jobs_calls_back_once_each {Env : Type}
    (cb : Env -> Database -> JobSpec -> Env * Database * bool)
    (d : Database) (s : Env) :
  answers d ->
  keeps_jobs cb ->
  (forall size fuel,
     0 < size ->
     List.length (job_specs (tables d)) / size < fuel ->
     exists d' s' log,
       Jobs_from (tracing cb) fuel size d ([], s) 0
       = Some (d', ((log, s'), []))
       /\ follows (map without_preload (job_specs (tables d))) log
       /\ Jobs_from cb fuel size d s 0 = Some (d', (s', []))
       /\ job_specs (tables d') = job_specs (tables d))
  /\ (forall fuel,
        List.length (job_specs (tables d)) / 1000 < fuel ->
        exists d' s' log,
          Jobs (tracing cb) fuel d ([], s) = Some (d', ((log, s'), []))
          /\ follows (map without_preload (job_specs (tables d))) log
          /\ Jobs cb fuel d s = Some (d', (s', []))
          /\ job_specs (tables d') = job_specs (tables d)).
Proof.
  intros Ha Hk.
  assert (G : forall size fuel,
    0 < size ->
    List.length (job_specs (tables d)) / size < fuel ->
    exists d' s' log,
      Jobs_from (tracing cb) fuel size d ([], s) 0
      = Some (d', ((log, s'), []))
      /\ follows (map without_preload (job_specs (tables d))) log
      /\ Jobs_from cb fuel size d s 0 = Some (d', (s', []))
      /\ job_specs (tables d') = job_specs (tables d)).
  { intros size fuel Hsize Hfuel.
    destruct (Jobs_from_enumerates cb size Hsize Hk fuel d s [] 0 Ha)
      as (d' & s' & t & Hres & Hf & Hkeep & _).
    { now rewrite Nat.sub_0_r. }
    exists d', s', t. cbn [app skipn] in *.
    split; [exact Hres|]. split; [exact Hf|].
    split; [|exact Hkeep].
    rewrite (Jobs_from_untraced cb size fuel d s [] 0), Hres.
    reflexivity. }
  split; [exact G|].
  intros fuel Hfuel. unfold Jobs. apply G; [unfold limit; lia|exact Hfuel].
Qed.

(** *** NewBulkDeleteRunTask *)

Section NewTaskProps.
Variables RunStatusCompleted RunStatusErrored : RunStatus.
Context {Rand : Type}.
Variable NewBytes32ID : Rand -> string * Rand.

Lemma check_statuses_nil (statuses : list RunStatus) :
  check_statuses RunStatusCompleted RunStatusErrored statuses = [] <->
  forall status, In status statuses ->
    status = RunStatusCompleted \/ status = RunStatusErrored.
Proof.
  induction statuses as [|s rest IH]; cbn.
  - split; [intros _ ? []|reflexivity].
  - destruct (String.eqb_spec s RunStatusCompleted) as [Hc|Hc];
      destruct (String.eqb_spec s RunStatusErrored) as [He|He]; cbn;
      rewrite ?IH.
    1-3: split; [intros H x [<-|Hx]; auto | intros H x Hx; apply H; auto].
    split; [discriminate|]. intros H.
    destruct (H s (or_introl eq_refl)); contradiction.
Qed.

(** C8.  [NewBulkDeleteRunTask] returns an error exactly when the request
    lists a status other than completed and errored; otherwise the task
    carries the request as its query, a freshly drawn id and the
    in-progress status. *)
Theorem NewBulkDeleteRunTask_terminal_only (g : Rand)
    (request : BulkDeleteRunRequest) :
  let res := NewBulkDeleteRunTask RunStatusCompleted RunStatusErrored
               NewBytes32ID g request in
  let err := snd (snd res) in
  (err <> [] <->
     exists status, In status (BulkDeleteRunRequest_Status request)
       /\ status <> RunStatusCompleted /\ status <> RunStatusErrored)
  /\ (err <> [] -> fst (snd res) = None /\ fst res = g)
  /\ (err = [] ->
      fst (snd res)
      = Some (mkBulkDeleteRunTask (fst (NewBytes32ID g)) request 0%N
                BulkTaskStatusInProgress EmptyString 0%N)
      /\ fst res = snd (NewBytes32ID g)).
Proof.
  intros res err. subst err res. unfold NewBulkDeleteRunTask.
  pose proof (check_statuses_nil (BulkDeleteRunRequest_Status request)) as Hnil.
  destruct (check_statuses RunStatusCompleted RunStatusErrored
              (BulkDeleteRunRequest_Status request)) as [|e es] eqn:Hchk.
  - destruct (NewBytes32ID g) as [id g'] eqn:Hg. cbn [fst snd].
    split; [|split].
    + split; [congruence|]. intros (s & Hin & Hc & He).
      destruct (proj1 Hnil eq_refl s Hin); contradiction.
    + congruence.
    + intros _. split; reflexivity.
  - cbn [fst snd]. split; [|split].
    + split; [|discriminate]. intros _.
      assert (Hex : ~ forall status,
                In status (BulkDeleteRunRequest_Status request) ->
                status = RunStatusCompleted \/ status = RunStatusErrored).
      { intros H. apply Hnil in H. discriminate. }
      clear Hnil Hchk.
      induction (BulkDeleteRunRequest_Status request) as [|s rest IH].
      * exfalso. apply Hex. intros ? [].
      * destruct (String.eqb_spec s RunStatusCompleted) as [Hc|Hc];
          [|destruct (String.eqb_spec s RunStatusErrored) as [He|He]].
        3: { exists s. split; [now left|]. auto. }
        all: destruct IH as (x & Hx & Hxc & Hxe);
          [ intros H; apply Hex; intros y [<-|Hy]; auto
          | exists x; split; [now right|auto] ].
    + intros _. split; reflexivity.
    + discriminate.
Qed.
End NewTaskProps.

(** *** DeleteJobRun *)

(** Run the statements of a transaction on a fault script that is known. *)
Ltac run_statement :=
  cbn [Begin next_fault faults tables db txn snapshot GetErrors HasError exec
       after Rollback Commit Error_of Root fst snd firstn].

(** C9.  [DeleteJobRun] deletes the job run and its task runs in one
    transaction: when it returns an error the tables are as before, and
    when it returns nil both deletions are in place. *)
Theorem DeleteJobRun_atomic (d : Database) (ID : string) :
  let d' := fst (DeleteJobRun d ID) in
  let err := snd (DeleteJobRun d ID) in
  (err = [] <-> Forall (fun f => f = None) (firstn 4 (faults d)))
  /\ (err <> [] -> tables d' = tables d)
  /\ (err = [] ->
      tables d'
      = set_task_runs
          (set_job_runs (tables d)
             (filter (fun jr => negb (String.eqb (JobRun_ID jr) ID))
                     (job_runs (tables d))))
          (filter (fun tr => negb (String.eqb (TaskRun_JobRunID tr) ID))
                  (task_runs (tables d)))).
Proof.
  intros d' err. subst d' err. destruct d as [s fs].
  unfold DeleteJobRun.
  destruct fs as [|[e1|] [|[e2|] [|[e3|] [|[e4|] fs]]]]; run_statement.
  all: split; [split; intros H|split; intros H].
  all: try reflexivity; try discriminate; try (now contradiction H).
  all: try (repeat constructor; fail).
  all: repeat match goal with
       | H : Forall _ (_ :: _) |- _ => inversion H; clear H; subst
       end; discriminate.
Qed.

(** *** The status collection as a column *)

Lemma strings_Split_cons (s : string) (sep : ascii) :
  exists x xs, strings_Split s sep = x :: xs.
Proof.
  destruct s as [|c s]; cbn; [eauto|].
  destruct (Ascii.eqb c sep); [eauto|].
  destruct (strings_Split s sep); eauto.
Qed.

Lemma strings_Split_whole (s : string) (sep : ascii) :
  contains sep s = false -> strings_Split s sep = [s].
Proof.
  induction s as [|c s IH]; cbn; [reflexivity|].
  destruct (Ascii.eqb c sep); cbn; [discriminate|].
  intros H. now rewrite (IH H).
Qed.

Lemma strings_Split_app (s rest : string) (sep : ascii) :
  contains sep s = false ->
  strings_Split (s ++ String sep rest) sep = s :: strings_Split rest sep.
Proof.
  induction s as [|c s IH]; cbn.
  - intros _. now rewrite Ascii.eqb_refl.
  - destruct (Ascii.eqb c sep); cbn; [discriminate|].
    intros H. now rewrite (IH H).
Qed.

Lemma Split_Join (r : list string) :
  r <> [] -> Forall (fun s => contains comma s = false) r ->
  strings_Split (strings_Join r (String comma EmptyString)) comma = r.
Proof.
  unfold strings_Join.
  induction r as [|x r IH]; intros Hne Hall; [contradiction|].
  inversion Hall as [|? ? Hx Hr]; subst.
  destruct r as [|y r].
  - cbn. now apply strings_Split_whole.
  - change (String.concat (String comma EmptyString) (x :: y :: r))
      with (x ++ String comma
                   (String.concat (String comma EmptyString) (y :: r)))%string.
    rewrite strings_Split_app by assumption.
    f_equal. apply IH; [discriminate|assumption].
Qed.

(** C10 (amended).  Handing [Scan] the bytes of the text that [Value]
    produced, the way the database reads a text column back, restores a
    non-empty collection of comma-free statuses; for the empty collection
    it yields the collection of one empty status. *)
Theorem RunStatusCollection_round_trip_as_bytes
    (r r0 : RunStatusCollection) :
  Forall (fun status => contains comma status = false) r ->
  (r <> [] ->
   RunStatusCollection_Scan r0 (read_back (fst (RunStatusCollection_Value r)))
   = (r, []))
  /\ RunStatusCollection_Scan r0
       (read_back (fst (RunStatusCollection_Value [])))
     = ([EmptyString], []).
Proof.
  intros Hall. split; [|reflexivity].
  intros Hne. unfold RunStatusCollection_Value, RunStatusCollection_Scan,
    RunStatusCollection_ToStrings, read_back. cbn [fst].
  rewrite string_of_list_byte_of_string, !map_id.
  now rewrite Split_Join.
Qed.

(* ===================================================================== *)
(** ** Listings, read backs and the rest of the store *)
(* ===================================================================== *)

(** *** Ordered pages *)


Section OrderBy.
Context {R : Type} (before : R -> R -> bool) (le : R -> R -> Prop).
Hypothesis before_le : forall a b, before a b = true -> le a b.
Hypothesis not_before_le : forall a b, before a b = false -> le b a.
Hypothesis le_trans : forall a b c, le a b -> le b c -> le a c.

Lemma place_perm (r : R) (l : list R) : Permutation (place before r l) (r :: l).
Proof.
  induction l as [|x l IH]; cbn [place]; [reflexivity|].
  destruct (before x r); [|reflexivity].
  rewrite IH. apply perm_swap.
Qed.

Lemma order_by_perm (rows : list R) : Permutation (order_by before rows) rows.
Proof.
  induction rows as [|r rows IH]; cbn [order_by]; [reflexivity|].
  rewrite place_perm. now constructor.
Qed.

Lemma place_sorted (r : R) (l : list R) :
  StronglySorted le l -> StronglySorted le (place before r l).
Proof.
  induction 1 as [|x l Hs IH Hx]; cbn [place].
  - repeat constructor.
  - destruct (before x r) eqn:Hb.
    + constructor; [exact IH|].
      apply (Permutation_Forall (Permutation_sym (place_perm r l))).
      constructor; [now apply before_le | exact Hx].
    + assert (Hrx : le r x) by now apply not_before_le.
      constructor; [now constructor|].
      constructor; [exact Hrx|].
      eapply Forall_impl; [|exact Hx]. intros y Hy. now apply le_trans with x.
Qed.

Lemma order_by_sorted (rows : list R) :
  StronglySorted le (order_by before rows).
Proof.
  induction rows as [|r rows IH]; cbn [order_by]; [constructor|].
  now apply place_sorted.
Qed.
End OrderBy.

Section Pages.
Context {R : Type}.

Lemma In_firstn (n : nat) (l : list R) (x : R) : In x (firstn n l) -> In x l.
Proof.
  revert l. induction n as [|n IH]; intros [|y l]; cbn; try tauto.
  intros [->|H]; auto.
Qed.

Lemma In_skipn (n : nat) (l : list R) (x : R) : In x (skipn n l) -> In x l.
Proof.
  revert l. induction n as [|n IH]; intros [|y l]; cbn; try tauto.
  intros H. right. now apply IH.
Qed.

Lemma page_In (offset limit : nat) (l : list R) (x : R) :
  In x (firstn limit (skipn offset l)) -> In x l.
Proof. intros H. eapply In_skipn, In_firstn, H. Qed.

(** Consecutive pages make one page. *)
Lemma page_app (offset l1 l2 : nat) (l : list R) :
  firstn l1 (skipn offset l) ++ firstn l2 (skipn (offset + l1) l)
  = firstn (l1 + l2) (skipn offset l).
Proof.
  rewrite (Nat.add_comm offset l1), <- skipn_skipn.
  generalize (skipn offset l). clear l. intros l.
  revert l. induction l1 as [|n IH]; intros l; cbn [firstn skipn Nat.add app];
    [reflexivity|].
  destruct l as [|x l]; cbn [firstn skipn app].
  - now rewrite firstn_nil.
  - now rewrite IH.
Qed.

Lemma page_whole (limit : nat) (l : list R) :
  List.length l <= limit -> firstn limit (skipn 0 l) = l.
Proof. intros H. cbn [skipn]. now apply firstn_all2. Qed.

Variable le : R -> R -> Prop.

Lemma sorted_firstn (n : nat) (l : list R) :
  StronglySorted le l -> StronglySorted le (firstn n l).
Proof.
  revert l. induction n as [|n IH]; intros l Hs; [constructor|].
  destruct Hs as [|x l Hs Hx]; cbn [firstn]; [constructor|].
  constructor; [now apply IH|].
  rewrite Forall_forall in *. intros y Hy. apply Hx. now apply In_firstn in Hy.
Qed.

Lemma sorted_skipn (n : nat) (l : list R) :
  StronglySorted le l -> StronglySorted le (skipn n l).
Proof.
  revert l. induction n as [|n IH]; intros l Hs; [exact Hs|].
  destruct Hs as [|x l Hs Hx]; cbn [skipn]; [constructor|]. now apply IH.
Qed.

(** A page of a sorted listing. *)
Lemma page_sorted (offset limit : nat) (l : list R) :
  StronglySorted le l -> StronglySorted le (firstn limit (skipn offset l)).
Proof. intros H. now apply sorted_firstn, sorted_skipn. Qed.
End Pages.

Lemma created_at_order_falling {R : Type} (created_at : R -> N)
    (rows : list R) :
  StronglySorted (falling created_at)
    (order_by (created_at_order created_at (SortType_String Descending)) rows).
Proof.
  apply order_by_sorted; unfold falling; cbn.
  - intros a b H. apply N.ltb_lt in H. lia.
  - intros a b H. apply N.ltb_ge in H. lia.
  - intros a b c. lia.
Qed.

Lemma created_at_order_rising {R : Type} (created_at : R -> N)
    (order : SortType) (rows : list R) :
  order <> Descending ->
  StronglySorted (rising created_at)
    (order_by (created_at_order created_at (SortType_String order)) rows).
Proof.
  intros Hne. unfold SortType_String.
  destruct (Z.eqb_spec order Descending) as [|_]; [contradiction|].
  apply order_by_sorted; unfold rising; cbn.
  - intros a b H. apply N.ltb_lt in H. lia.
  - intros a b H. apply N.ltb_ge in H. lia.
  - intros a b c. lia.
Qed.

Lemma query_count_answers (d : Database) (sel : Store -> nat) :
  answers d ->
  snd (query_count (Root d) sel) = N.of_nat (sel (tables d))
  /\ GetErrors (fst (query_count (Root d) sel)) = []
  /\ tables (db (fst (query_count (Root d) sel))) = tables d
  /\ answers (db (fst (query_count (Root d) sel))).
Proof.
  intros H. destruct (answers_next d H) as (Hf & Ha & Ht).
  unfold query_count, Root, HasError. cbn [GetErrors db].
  destruct (next_fault d) as [[e|] d1]; cbn in *; [discriminate|].
  rewrite Ht. auto.
Qed.

(** Both listings of a table on a database that answers. *)
Ltac answer_count Ha :=
  match goal with
  | |- context [query_count (Root ?d) ?sel] =>
      let Hc := fresh "Hcount" in
      let He := fresh "Hcerr" in
      let Ht := fresh "Hctab" in
      let Ha' := fresh "Hcans" in
      let c := fresh "c" in
      let count := fresh "count" in
      destruct (query_count_answers d sel Ha) as (Hc & He & Ht & Ha');
      destruct (query_count (Root d) sel) as [c count];
      cbn [fst snd] in Hc, He, Ht, Ha'
  end.

Ltac answer_rows Ha :=
  match goal with
  | |- context [query_rows (Root ?d) ?sel] =>
      let Hr := fresh "Hrows" in
      let He := fresh "Hrerr" in
      let Ht := fresh "Hrtab" in
      let Ha' := fresh "Hrans" in
      let rval := fresh "rval" in
      let rows := fresh "rows" in
      destruct (query_rows_answers d sel Ha) as (Hr & He & Ht & Ha');
      destruct (query_rows (Root d) sel) as [rval rows];
      cbn [fst snd] in Hr, He, Ht, Ha'
  end.

Lemma multifyWithoutRecordNotFound_nil (h : DB) :
  GetErrors h = [] -> multifyWithoutRecordNotFound h = [].
Proof. unfold multifyWithoutRecordNotFound. now intros ->. Qed.

(** [JobsSorted] on a store that answers returns no error; the count is
    that of the whole table, whatever the page; the page holds at most
    [limit] jobs, all of them stored, newest first when the order is
    [Descending] and oldest first for every other order. *)
Theorem JobsSorted_page (d : Database) (order : SortType)
    (offset limit : nat) :
  answers d ->
  let jobs := fst (fst (snd (JobsSorted d order offset limit))) in
  snd (snd (JobsSorted d order offset limit)) = []
  /\ snd (fst (snd (JobsSorted d order offset limit)))
     = N.of_nat (List.length (job_specs (tables d)))
  /\ List.length jobs <= limit
  /\ (forall j, In j jobs -> In j (job_specs (tables d)))
  /\ (order = Descending -> StronglySorted (falling JobSpec_CreatedAt) jobs)
  /\ (order <> Descending -> StronglySorted (rising JobSpec_CreatedAt) jobs).
Proof.
  intros Ha jobs. subst jobs. unfold JobsSorted.
  answer_count Ha. unfold Error_of. rewrite Hcerr.
  answer_rows Hcans. cbn [fst snd]. rewrite Hrerr, Hrows, Hcount, Hctab.
  split; [reflexivity|]. split; [reflexivity|].
  split; [rewrite length_firstn; lia|].
  split.
  { intros j Hj. apply page_In in Hj.
    exact (Permutation_in j (order_by_perm _ _) Hj). }
  split.
  - intros ->. apply page_sorted, created_at_order_falling.
  - intros Hne. now apply page_sorted, created_at_order_rising.
Qed.

(** Consecutive pages of [JobsSorted] make up the larger page, and a
    first page as long as the table lists every job. *)
Theorem JobsSorted_pages_compose (d : Database) (order : SortType)
    (offset l1 l2 : nat) :
  answers d ->
  fst (fst (snd (JobsSorted d order offset l1)))
  ++ fst (fst (snd (JobsSorted d order (offset + l1) l2)))
  = fst (fst (snd (JobsSorted d order offset (l1 + l2))))
  /\ (List.length (job_specs (tables d)) <= l1 ->
      Permutation (fst (fst (snd (JobsSorted d order 0 l1))))
                  (job_specs (tables d))).
Proof.
  intros Ha.
  assert (H : forall o l,
    fst (fst (snd (JobsSorted d order o l)))
    = firstn l (skipn o
        (order_by (created_at_order JobSpec_CreatedAt (SortType_String order))
                  (job_specs (tables d))))).
  { intros o l. unfold JobsSorted.
    answer_count Ha. unfold Error_of. rewrite Hcerr.
    answer_rows Hcans. cbn [fst snd]. now rewrite Hrows, Hctab. }
  rewrite !H. split; [apply page_app|].
  intros Hlen. rewrite page_whole; [apply order_by_perm|].
  now rewrite (Permutation_length (order_by_perm _ _)).
Qed.

(** *** The listings of runs and transactions *)



Lemma JobRunsFor_answers (d : Database) (jobSpecID : string) :
  answers d ->
  snd (JobRunsFor d jobSpecID)
  = (order_by (fun a b => (JobRun_CreatedAt b <? JobRun_CreatedAt a)%N)
              (runs_of jobSpecID (job_runs (tables d))), []).
Proof.
  intros Ha. unfold JobRunsFor. answer_rows Ha. cbn [fst snd].
  now rewrite multify_GetErrors, Hrerr, Hrows.
Qed.

Lemma JobRunsCountFor_answers (d : Database) (jobSpecID : string) :
  answers d ->
  snd (JobRunsCountFor d jobSpecID)
  = (N.of_nat (List.length (runs_of jobSpecID (job_runs (tables d)))), []).
Proof.
  intros Ha. unfold JobRunsCountFor. answer_count Ha. cbn [fst snd].
  now rewrite multify_GetErrors, Hcerr, Hcount.
Qed.

Lemma newest_first_sorted (runs : list JobRun) :
  StronglySorted (falling JobRun_CreatedAt)
    (order_by (fun a b => (JobRun_CreatedAt b <? JobRun_CreatedAt a)%N) runs).
Proof.
  apply order_by_sorted; unfold falling.
  - intros a b H. apply N.ltb_lt in H. lia.
  - intros a b H. apply N.ltb_ge in H. lia.
  - intros x y z. lia.
Qed.

(** [JobRunsFor] lists exactly the runs of the job, newest first, and
    [JobRunsCountFor] returns their number. *)
Theorem JobRunsFor_newest_first (d : Database) (jobSpecID : string) :
  answers d ->
  let runs := fst (snd (JobRunsFor d jobSpecID)) in
  snd (snd (JobRunsFor d jobSpecID)) = []
  /\ Permutation runs (runs_of jobSpecID (job_runs (tables d)))
  /\ StronglySorted (falling JobRun_CreatedAt) runs
  /\ snd (JobRunsCountFor d jobSpecID) = (N.of_nat (List.length runs), []).
Proof.
  intros Ha runs. subst runs.
  rewrite (JobRunsFor_answers d jobSpecID Ha).
  rewrite (JobRunsCountFor_answers d jobSpecID Ha). cbn [fst snd].
  split; [reflexivity|].
  split; [apply order_by_perm|].
  split; [apply newest_first_sorted|].
  now rewrite (Permutation_length (order_by_perm _ _)).
Qed.

Lemma JobRunsSorted_answers (d : Database) (order : SortType)
    (offset limit : nat) :
  answers d ->
  snd (JobRunsSorted d order offset limit)
  = (firstn limit
       (skipn offset
          (order_by (created_at_order JobRun_CreatedAt (SortType_String order))
                    (job_runs (tables d)))),
     N.of_nat (List.length (job_runs (tables d))), []).
Proof.
  intros Ha. unfold JobRunsSorted, JobRunsCount, Error_of.
  answer_count Ha. rewrite Hcerr. answer_rows Hcans. cbn [fst snd].
  now rewrite (multifyWithoutRecordNotFound_nil _ Hrerr), Hrows, Hcount, Hctab.
Qed.

Lemma JobRunsSortedFor_answers (d : Database) (id : string)
    (order : SortType) (offset limit : nat) :
  answers d ->
  snd (JobRunsSortedFor d id order offset limit)
  = (firstn limit
       (skipn offset
          (order_by (created_at_order JobRun_CreatedAt (SortType_String order))
                    (job_runs (tables d)))),
     N.of_nat (List.length (runs_of id (job_runs (tables d)))), []).
Proof.
  intros Ha. unfold JobRunsSortedFor, JobRunsCountFor, runs_of.
  answer_count Ha. rewrite multify_GetErrors, Hcerr.
  answer_rows Hcans. cbn [fst snd].
  now rewrite (multifyWithoutRecordNotFound_nil _ Hrerr), Hrows, Hcount, Hctab.
Qed.

(** [JobRunsSortedFor] counts the runs of the job it is given, but its
    page is the page of [JobRunsSorted]: the query of the rows has no
    condition on the job, so the runs of every job are listed. *)
Theorem JobRunsSortedFor_lists_runs_of_all_jobs (d : Database) (id : string)
    (order : SortType) (offset limit : nat) :
  answers d ->
  snd (JobRunsSortedFor d id order offset limit)
  = (fst (fst (snd (JobRunsSorted d order offset limit))),
     N.of_nat (List.length (runs_of id (job_runs (tables d)))), [])
  /\ snd (fst (snd (JobRunsSorted d order offset limit)))
     = N.of_nat (List.length (job_runs (tables d))).
Proof.
  intros Ha.
  rewrite (JobRunsSortedFor_answers d id order offset limit Ha).
  rewrite (JobRunsSorted_answers d order offset limit Ha).
  split; reflexivity.
Qed.

(** [Transactions] returns a page of at most [limit] stored
    transactions by falling id, and all of them when the page starts at 0
    and is as long as the table. *)
Theorem Transactions_newest_first (d : Database) (offset limit : nat) :
  answers d ->
  let txs := fst (snd (Transactions d offset limit)) in
  snd (snd (Transactions d offset limit)) = []
  /\ StronglySorted (falling Tx_ID) txs
  /\ List.length txs <= limit
  /\ (forall t, In t txs -> In t (txes (tables d)))
  /\ (offset = 0 -> List.length (txes (tables d)) <= limit ->
      Permutation txs (txes (tables d))).
Proof.
  intros Ha txs. subst txs. unfold Transactions, Error_of.
  answer_rows Ha. cbn [fst snd]. rewrite Hrerr, Hrows.
  split; [reflexivity|].
  split.
  { apply page_sorted, order_by_sorted; unfold falling.
    - intros a b H. apply N.ltb_lt in H. lia.
    - intros a b H. apply N.ltb_ge in H. lia.
    - intros x y z. lia. }
  split; [rewrite length_firstn; lia|].
  split.
  { intros t Ht. apply page_In in Ht.
    exact (Permutation_in t (order_by_perm _ _) Ht). }
  intros -> Hlen. rewrite page_whole; [apply order_by_perm|].
  now rewrite (Permutation_length (order_by_perm _ _)).
Qed.

(** [TxAttempts] returns a page of at most [limit] stored attempts, the
    latest sent first, with the count of the whole table. *)
Theorem TxAttempts_latest_first (d : Database) (offset limit : nat) :
  answers d ->
  let attempts := fst (fst (snd (TxAttempts d offset limit))) in
  snd (snd (TxAttempts d offset limit)) = []
  /\ snd (fst (snd (TxAttempts d offset limit)))
     = N.of_nat (List.length (tx_attempts (tables d)))
  /\ StronglySorted (falling TxAttempt_SentAt) attempts
  /\ List.length attempts <= limit
  /\ (forall a, In a attempts -> In a (tx_attempts (tables d))).
Proof.
  intros Ha attempts. subst attempts. unfold TxAttempts, Error_of.
  answer_count Ha. rewrite Hcerr. answer_rows Hcans. cbn [fst snd].
  rewrite Hrerr, Hrows, Hcount, Hctab.
  split; [reflexivity|]. split; [reflexivity|].
  split.
  { apply page_sorted, order_by_sorted; unfold falling.
    - intros a b H. apply N.ltb_lt in H. lia.
    - intros a b H. apply N.ltb_ge in H. lia.
    - intros x y z. lia. }
  split; [rewrite length_firstn; lia|].
  intros a Hin. apply page_In in Hin.
  exact (Permutation_in a (order_by_perm _ _) Hin).
Qed.

(** When the count fails, the listings that count first return no row,
    a count of 0 and the error of the count, and issue no second query. *)
Theorem listings_stop_at_failing_count (d : Database) (e : Error)
    (fs : list (option Error)) (order : SortType) (offset limit : nat)
    (id : string) :
  faults d = Some e :: fs ->
  JobsSorted d order offset limit
  = (mkDatabase (tables d) fs, ([], 0%N, [e]))
  /\ TxAttempts d offset limit = (mkDatabase (tables d) fs, ([], 0%N, [e]))
  /\ JobRunsSorted d order offset limit
     = (mkDatabase (tables d) fs, ([], 0%N, [e]))
  /\ JobRunsSortedFor d id order offset limit
     = (mkDatabase (tables d) fs, ([], 0%N, [e])).
Proof.
  intros Hf.
  unfold JobsSorted, TxAttempts, JobRunsSorted, JobRunsSortedFor,
    JobRunsCount, JobRunsCountFor, query_count, Root, HasError, next_fault,
    Error_of.
  cbn [GetErrors db]. rewrite Hf. cbn [fst snd db GetErrors].
  rewrite multify_GetErrors. cbn [GetErrors].
  repeat split.
Qed.

Lemma max_nonce_least (txs : list Tx) (n : N) :
  (forall t, In t txs -> (Tx_Nonce t <= n)%N) ->
  (fold_right N.max 0 (map Tx_Nonce txs) <= n)%N.
Proof.
  induction txs as [|t txs IH]; intros H; cbn; [lia|].
  assert (Tx_Nonce t <= n)%N by (apply H; now left).
  assert (fold_right N.max 0 (map Tx_Nonce txs) <= n)%N
    by (apply IH; intros x Hx; apply H; now right).
  lia.
Qed.

Lemma max_nonce_above (txs : list Tx) (t : Tx) :
  In t txs -> (Tx_Nonce t <= fold_right N.max 0 (map Tx_Nonce txs))%N.
Proof.
  induction txs as [|x txs IH]; cbn; [tauto|].
  intros [->|H]; [|specialize (IH H)]; lia.
Qed.

Lemma TxFrom_answers (d : Database) (from : Address) :
  answers d ->
  snd (TxFrom d from) = (sent_from from (txes (tables d)), []).
Proof.
  intros Ha. unfold TxFrom. answer_rows Ha. cbn [fst snd].
  now rewrite multify_GetErrors, Hrerr, Hrows.
Qed.

Lemma GetLastNonce_max (d : Database) (address : Address) :
  answers d ->
  snd (GetLastNonce d address)
  = (fold_right N.max 0%N
       (map Tx_Nonce (sent_from address (txes (tables d)))), []).
Proof.
  intros Ha. unfold GetLastNonce.
  match goal with |- context [query_one (Root d) ?sel] =>
    destruct (query_one_answers d sel Ha) as (Hsel & Herr & _ & _);
    destruct (query_one (Root d) sel) as [r1 found] end.
  cbn [fst snd] in *. subst found.
  fold (sent_from address (txes (tables d))) in *.
  set (mine := sent_from address (txes (tables d))) in *.
  unfold multifyWithoutRecordNotFound. rewrite Herr.
  destruct (first_by nonce_desc mine) as [t0|] eqn:Hfirst.
  - cbn. f_equal. apply N.le_antisymm.
    + apply max_nonce_above. eapply first_by_In, Hfirst.
    + apply max_nonce_least. intros t Ht.
      apply (first_by_greatest nonce_desc Tx_Nonce mine); auto.
      intros a b _ _. apply nonce_desc_order.
  - apply first_by_nil in Hfirst. rewrite Hfirst. reflexivity.
Qed.

(** [TxFrom] returns exactly the stored transactions sent from the
    address, and [GetLastNonce] is the greatest of their nonces (0 when
    there is none). *)
Theorem GetLastNonce_is_max_of_TxFrom (d : Database) (address : Address) :
  answers d ->
  let txs := fst (snd (TxFrom d address)) in
  snd (snd (TxFrom d address)) = []
  /\ (forall t, In t txs <-> In t (txes (tables d)) /\ Tx_From t = address)
  /\ snd (GetLastNonce d address)
     = (fold_right N.max 0%N (map Tx_Nonce txs), []).
Proof.
  intros Ha txs. subst txs.
  rewrite (TxFrom_answers d address Ha), (GetLastNonce_max d address Ha).
  cbn [fst snd]. split; [reflexivity|]. split; [|reflexivity].
  intros t. unfold sent_from. rewrite filter_In, N.eqb_eq. tauto.
Qed.

Lemma multifyWithoutRecordNotFound_spec (h : DB) :
  multifyWithoutRecordNotFound h
  = filter (fun e => negb (is_ErrRecordNotFound e)) (GetErrors h).
Proof.
  unfold multifyWithoutRecordNotFound, multierr_Append.
  assert (G : forall es acc,
    fold_left (fun merr e =>
      if negb (is_ErrRecordNotFound e) then merr ++ [e] else merr) es acc
    = acc ++ filter (fun e => negb (is_ErrRecordNotFound e)) es).
  { induction es as [|e es IH]; intros acc; cbn.
    - now rewrite app_nil_r.
    - rewrite IH. destruct (is_ErrRecordNotFound e); cbn; [reflexivity|].
      now rewrite <- app_assoc. }
  apply G.
Qed.

(** Whatever the store answers, [GetLastNonce] and [LastHead] never
    report [gorm.ErrRecordNotFound]. *)
Theorem not_found_is_never_reported (d : Database) (address : Address) :
  ~ In ErrRecordNotFound (snd (snd (GetLastNonce d address)))
  /\ ~ In ErrRecordNotFound (snd (snd (LastHead d))).
Proof.
  assert (G : forall h,
    ~ In ErrRecordNotFound (multifyWithoutRecordNotFound h)).
  { intros h. rewrite multifyWithoutRecordNotFound_spec, filter_In.
    intros [_ H]. discriminate. }
  split.
  - unfold GetLastNonce. destruct (query_one _ _) as [r f]. apply G.
  - unfold LastHead. destruct (query_one _ _) as [r f]. apply G.
Qed.

(** *** Looking up transactions and attempts *)

Ltac answer_one Ha :=
  match goal with
  | |- context [query_one (Root ?d) ?sel] =>
      let Hs := fresh "Hsel" in
      let He := fresh "Hoerr" in
      let Ht := fresh "Hotab" in
      let Ha' := fresh "Hoans" in
      let r := fresh "r" in
      let found := fresh "found" in
      destruct (query_one_answers d sel Ha) as (Hs & He & Ht & Ha');
      destruct (query_one (Root d) sel) as [r found];
      cbn [fst snd] in Hs, He, Ht, Ha'
  end.

Lemma lookup_none_iff {R : Type} (key : R -> N) (k : N) (rows : list R) :
  lookup key N.eqb k rows = None <-> forall x, In x rows -> key x <> k.
Proof.
  unfold lookup. split.
  - intros H x Hx Hk. apply (find_none _ _ H) in Hx.
    apply N.eqb_neq in Hx. contradiction.
  - intros H. induction rows as [|x rows IH]; cbn; [reflexivity|].
    destruct (N.eqb_spec (key x) k) as [Hk|Hk].
    + exfalso. apply (H x); [now left|exact Hk].
    + apply IH. intros y Hy. apply H. now right.
Qed.

(** For an id and a hash under which nothing is stored, [FindTx] and
    [FindTxAttempt] return the zero value with [ErrorNotFound], and leave
    the tables as they are. *)
Theorem FindTx_unknown (d : Database) (ID : N) (hash : Hash) :
  answers d ->
  (forall t, In t (txes (tables d)) -> Tx_ID t <> ID) ->
  (forall a, In a (tx_attempts (tables d)) -> TxAttempt_Hash a <> hash) ->
  snd (FindTx d ID) = (Tx_zero, [ErrorNotFound])
  /\ snd (FindTxAttempt d hash) = (TxAttempt_zero, [ErrorNotFound])
  /\ tables (fst (FindTx d ID)) = tables d
  /\ tables (fst (FindTxAttempt d hash)) = tables d.
Proof.
  intros Ha Htx Hat. apply lookup_none_iff in Htx. apply lookup_none_iff in Hat.
  repeat split.
  - unfold FindTx. answer_one Ha. cbn [fst snd].
    now rewrite multify_GetErrors, Hoerr, Hsel, Htx.
  - unfold FindTxAttempt. answer_one Ha. cbn [fst snd].
    rewrite multify_GetErrors, Hoerr, <- Hsel.
    replace found with (@None TxAttempt)
      by (rewrite Hsel; symmetry; exact Hat).
    reflexivity.
  - unfold FindTx. answer_one Ha. exact Hotab.
  - unfold FindTxAttempt. answer_one Ha. exact Hotab.
Qed.

(** What [CreateTx] leaves on a database that answers. *)
Lemma CreateTx_answers (d : Database) (from : Address) (nonce : N)
    (to : Address) (data : list Byte.byte) (value : Z) (gasLimit : N) :
  answers d ->
  let tx := mkTx (next_id (map Tx_ID (txes (tables d)))) from to data nonce
                 value gasLimit false None in
  snd (CreateTx d from nonce to data value gasLimit) = (tx, [])
  /\ tables (fst (CreateTx d from nonce to data value gasLimit))
     = set_txes (tables d) (txes (tables d) ++ [tx])
  /\ answers (fst (CreateTx d from nonce to data value gasLimit)).
Proof.
  intros Ha tx. unfold CreateTx.
  destruct (Save_Tx_cases d
              (mkTx 0 from to data nonce value gasLimit false None))
    as [(e & Hf & Hs)|(Hf & Hs)].
  - destruct (answers_next d Ha) as (Hn & _). congruence.
  - rewrite Hs, multify_GetErrors. cbn [fst snd db GetErrors tables].
    split; [reflexivity|]. split; [reflexivity|].
    now apply answers_after_statement.
Qed.

(** [FindTx] on the id that [CreateTx] returned gives back the created
    transaction; the id is not 0, and what [FindTx] returns for any other
    id is what it returned before. *)
Theorem CreateTx_then_FindTx (d : Database) (from : Address) (nonce : N)
    (to : Address) (data : list Byte.byte) (value : Z) (gasLimit : N) :
  answers d ->
  let created := CreateTx d from nonce to data value gasLimit in
  snd (FindTx (fst created) (Tx_ID (fst (snd created))))
  = (fst (snd created), [])
  /\ Tx_ID (fst (snd created)) <> 0%N
  /\ (forall ID, ID <> Tx_ID (fst (snd created)) ->
        snd (FindTx (fst created) ID) = snd (FindTx d ID)).
Proof.
  intros Ha created. subst created.
  destruct (CreateTx_answers d from nonce to data value gasLimit Ha)
    as (Hres & Htab & Hans).
  set (tx := mkTx (next_id (map Tx_ID (txes (tables d)))) from to data nonce
                  value gasLimit false None) in *.
  destruct (CreateTx d from nonce to data value gasLimit) as [d1 res].
  cbn [fst snd] in *. subst res. cbn [fst snd].
  assert (Hnew : lookup Tx_ID N.eqb (Tx_ID tx) (txes (tables d)) = None).
  { apply lookup_none_iff. intros x Hx Hk.
    apply (next_id_fresh (map Tx_ID (txes (tables d)))).
    change (next_id (map Tx_ID (txes (tables d)))) with (Tx_ID tx).
    rewrite <- Hk. now apply in_map. }
  split; [|split].
  - unfold FindTx. answer_one Hans. cbn [fst snd].
    rewrite multify_GetErrors, Hoerr, Hsel, Htab. cbn [txes set_txes].
    rewrite lookup_app_last, Hnew, N.eqb_refl. reflexivity.
  - cbn. apply N.neq_succ_0.
  - intros ID Hne. unfold FindTx. answer_one Hans. answer_one Ha.
    cbn [fst snd]. rewrite !multify_GetErrors, Hoerr, Hoerr0, Hsel, Hsel0, Htab.
    cbn [txes set_txes]. rewrite lookup_app_last.
    destruct (lookup Tx_ID N.eqb ID (txes (tables d))); [reflexivity|].
    destruct (N.eqb_spec (Tx_ID tx) ID); [congruence|reflexivity].
Qed.

(** *** Reading back what was saved *)

Lemma FindTx_answers (d : Database) (ID : N) :
  answers d ->
  snd (FindTx d ID)
  = match lookup Tx_ID N.eqb ID (txes (tables d)) with
    | Some tx => (tx, [])
    | None => (Tx_zero, [ErrorNotFound])
    end.
Proof.
  intros Ha. unfold FindTx. answer_one Ha. cbn [fst snd].
  rewrite multify_GetErrors, Hoerr, Hsel.
  now destruct (lookup Tx_ID N.eqb ID (txes (tables d))).
Qed.

Lemma FindTxAttempt_answers (d : Database) (hash : Hash) :
  answers d ->
  snd (FindTxAttempt d hash)
  = match lookup TxAttempt_Hash N.eqb hash (tx_attempts (tables d)) with
    | Some a => (a, [])
    | None => (TxAttempt_zero, [ErrorNotFound])
    end.
Proof.
  intros Ha. unfold FindTxAttempt. answer_one Ha. cbn [fst snd].
  rewrite multify_GetErrors, Hoerr, Hsel.
  now destruct (lookup TxAttempt_Hash N.eqb hash (tx_attempts (tables d))).
Qed.

Lemma TxAttemptsFor_answers (d : Database) (id : N) :
  answers d ->
  snd (TxAttemptsFor d id)
  = (filter (fun a => N.eqb (TxAttempt_TxID a) id) (tx_attempts (tables d)),
     []).
Proof.
  intros Ha. unfold TxAttemptsFor.
  match goal with |- context [query_rows (Root d) ?sel] =>
    destruct (query_rows_answers d sel Ha) as (Hs & He & _);
    destruct (query_rows (Root d) sel) as [r rows] end.
  cbn [fst snd] in *. now rewrite multify_GetErrors, He, Hs.
Qed.

Lemma ConfirmTx_answers (d : Database) (tx : Tx) (txat : TxAttempt) :
  answers d ->
  let txat' := TxAttempt_with_Confirmed txat true in
  let tx' := AssignTxAttempt tx txat' in
  snd (ConfirmTx d tx txat) = (Tx_saved tx' (txes (tables d)), txat', [])
  /\ tables (fst (ConfirmTx d tx txat))
     = set_tx_attempts
         (set_txes (tables d) (txes_after tx' (txes (tables d))))
         (attempts_after txat' (tx_attempts (tables d)))
  /\ answers (fst (ConfirmTx d tx txat)).
Proof.
  intros Ha txat' tx'. unfold ConfirmTx. fold txat'. fold tx'.
  destruct (Save_Tx_answers d tx' Ha) as (d1 & Hs & Ht & Ha1). rewrite Hs.
  destruct (Save_TxAttempt_answers d1 txat' Ha1) as (He & Ht2 & Ha2).
  cbn [fst snd]. rewrite multify_GetErrors, He, Ht2, Ht.
  auto.
Qed.

Lemma lookup_txes_after_saved (tx : Tx) (rows : list Tx) :
  lookup Tx_ID N.eqb (Tx_ID (Tx_saved tx rows)) (txes_after tx rows)
  = Some (Tx_saved tx rows).
Proof.
  unfold Tx_saved, txes_after. destruct (Tx_ID tx =? 0)%N.
  - rewrite lookup_app_last, N.eqb_refl.
    replace (lookup Tx_ID N.eqb _ rows) with (@None Tx); [reflexivity|].
    symmetry. apply lookup_none_iff. intros x Hx Hk.
    apply (next_id_fresh (map Tx_ID rows)).
    cbn in Hk. rewrite <- Hk. now apply in_map.
  - apply lookup_upsert_same.
Qed.

Lemma lookup_txes_after_other (tx : Tx) (rows : list Tx) (k : N) :
  k <> Tx_ID (Tx_saved tx rows) ->
  lookup Tx_ID N.eqb k (txes_after tx rows) = lookup Tx_ID N.eqb k rows.
Proof.
  unfold Tx_saved, txes_after. destruct (Tx_ID tx =? 0)%N; intros Hk.
  - rewrite lookup_app_last. destruct (lookup Tx_ID N.eqb k rows); auto.
    destruct (N.eqb_spec (Tx_ID (Tx_with_ID tx (next_id (map Tx_ID rows)))) k);
      congruence.
  - apply lookup_upsert_other. congruence.
Qed.

Lemma lookup_attempts_after_same (a : TxAttempt) (rows : list TxAttempt) :
  TxAttempt_Hash a <> 0%N ->
  lookup TxAttempt_Hash N.eqb (TxAttempt_Hash a) (attempts_after a rows)
  = Some a.
Proof.
  intros H. unfold attempts_after.
  destruct (N.eqb_spec (TxAttempt_Hash a) 0); [contradiction|].
  apply lookup_upsert_same.
Qed.


(** After [ConfirmTx] the transaction and the attempt are read back as
    confirmed, the transaction naming the attempt as its active one. *)
Theorem ConfirmTx_read_back (d : Database) (tx : Tx) (txat : TxAttempt) :
  answers d ->
  TxAttempt_Hash txat <> 0%N ->
  let confirmed := ConfirmTx d tx txat in
  let tx1 := fst (fst (snd confirmed)) in
  let txat1 := snd (fst (snd confirmed)) in
  snd (snd confirmed) = []
  /\ Tx_Confirmed tx1 = true
  /\ Tx_Attempt tx1 = Some (TxAttempt_Hash txat)
  /\ txat1 = TxAttempt_with_Confirmed txat true
  /\ snd (FindTx (fst confirmed) (Tx_ID tx1)) = (tx1, [])
  /\ snd (FindTxAttempt (fst confirmed) (TxAttempt_Hash txat)) = (txat1, []).
Proof.
  intros Ha Hh confirmed tx1 txat1. subst tx1 txat1 confirmed.
  destruct (ConfirmTx_answers d tx txat Ha) as (Hres & Htab & Hans).
  rewrite (FindTx_answers _ _ Hans), (FindTxAttempt_answers _ _ Hans), Htab.
  rewrite Hres. cbn [fst snd txes tx_attempts set_txes set_tx_attempts].
  rewrite lookup_txes_after_saved.
  change (TxAttempt_Hash txat)
    with (TxAttempt_Hash (TxAttempt_with_Confirmed txat true)) at 2.
  rewrite lookup_attempts_after_same by exact Hh.
  unfold Tx_saved. repeat split; now destruct (Tx_ID _ =? 0)%N.
Qed.


(** After [AddTxAttempt], [TxAttemptsFor] of the id the transaction was
    passed in with lists the new attempt and the attempts it listed
    before under other hashes, and only attempts of that id. *)
Theorem AddTxAttempt_then_TxAttemptsFor (d : Database) (tx : Tx)
    (etx : Transaction) (blkNum : N) (hex : string) :
  answers d ->
  etx_EncodeTxToHex etx = inl hex ->
  let added := AddTxAttempt d tx etx blkNum in
  let listed := TxAttemptsFor (fst added) (Tx_ID tx) in
  snd (snd listed) = []
  /\ (exists a, snd (fst (snd added)) = Some a /\ In a (fst (snd listed)))
  /\ (forall a, In a (fst (snd (TxAttemptsFor d (Tx_ID tx)))) ->
        TxAttempt_Hash a <> etx_Hash etx -> In a (fst (snd listed)))
  /\ (forall a, In a (fst (snd listed)) -> TxAttempt_TxID a = Tx_ID tx).
Proof.
  intros Ha Hhex added listed. subst listed added.
  destruct (AddTxAttempt_answers d tx etx blkNum hex Ha Hhex)
    as (Hres & Htab & Hans).
  rewrite (TxAttemptsFor_answers _ _ Hans), (TxAttemptsFor_answers _ _ Ha).
  rewrite Htab, Hres. cbn [fst snd tx_attempts set_tx_attempts].
  split; [reflexivity|]. split; [|split].
  - eexists. split; [reflexivity|]. apply filter_In.
    split; [apply attempts_after_In_self|]. cbn. apply N.eqb_refl.
  - intros a Hin Hk. apply filter_In in Hin. destruct Hin as [Hin Hid].
    apply filter_In. split; [|exact Hid].
    now apply attempts_after_retains.
  - intros a Hin. apply filter_In in Hin. now apply N.eqb_eq.
Qed.

(** [AddTxAttempt] on a transaction not saved yet (id 0) saves it under
    a new id, but the attempt carries the id 0 read before the save: it
    is not among the attempts [TxAttemptsFor] lists for the new id. *)
Theorem AddTxAttempt_unsaved_Tx (d : Database) (tx : Tx)
    (etx : Transaction) (blkNum : N) (hex : string) :
  answers d ->
  Tx_ID tx = 0%N ->
  etx_EncodeTxToHex etx = inl hex ->
  let added := AddTxAttempt d tx etx blkNum in
  let tx' := fst (fst (snd added)) in
  snd (snd added) = []
  /\ Tx_ID tx' <> 0%N
  /\ snd (FindTx (fst added) (Tx_ID tx')) = (tx', [])
  /\ exists a, snd (fst (snd added)) = Some a
       /\ TxAttempt_TxID a = 0%N
       /\ ~ In a (fst (snd (TxAttemptsFor (fst added) (Tx_ID tx')))).
Proof.
  intros Ha Hid Hhex added tx'. subst tx' added.
  destruct (AddTxAttempt_answers d tx etx blkNum hex Ha Hhex)
    as (Hres & Htab & Hans).
  rewrite (TxAttemptsFor_answers _ _ Hans), (FindTx_answers _ _ Hans).
  rewrite Htab, Hres. cbn [fst snd txes tx_attempts set_txes set_tx_attempts].
  rewrite lookup_txes_after_saved.
  assert (Hnew : Tx_ID (Tx_saved
            (if negb (Tx_Confirmed tx)
             then AssignTxAttempt tx
                    (mkTxAttempt (etx_Hash etx) (Tx_ID tx) (etx_GasPrice etx)
                                 false hex blkNum)
             else tx) (txes (tables d))) <> 0%N).
  { unfold Tx_saved. destruct (Tx_Confirmed tx); cbn [negb].
    - rewrite Hid. cbn. apply N.neq_succ_0.
    - cbn [AssignTxAttempt Tx_ID]. rewrite Hid. cbn. apply N.neq_succ_0. }
  split; [reflexivity|]. split; [exact Hnew|]. split; [reflexivity|].
  eexists. split; [reflexivity|]. split; [exact Hid|].
  intros Hin. apply filter_In in Hin. destruct Hin as [_ Hk].
  apply N.eqb_eq in Hk. cbn [TxAttempt_TxID] in Hk.
  apply Hnew. rewrite <- Hk. exact Hid.
Qed.

Lemma set_txes_same (s : Store) : set_txes s (txes s) = s.
Proof. now destruct s. Qed.

(** When [AddTxAttempt] returns an error, no attempt was stored, and no
    table other than that of the transactions changed. *)
Theorem AddTxAttempt_error_keeps_attempts (d : Database) (tx : Tx)
    (etx : Transaction) (blkNum : N) :
  let added := AddTxAttempt d tx etx blkNum in
  snd (snd added) <> [] ->
  tx_attempts (tables (fst added)) = tx_attempts (tables d)
  /\ exists rows, tables (fst added) = set_txes (tables d) rows.
Proof.
  intros added Herr. subst added.
  destruct (etx_EncodeTxToHex etx) as [hex|e] eqn:Hhex.
  - destruct (AddTxAttempt_outcomes d tx etx blkNum hex Hhex)
      as (d' & tx' & err & Hres & [(_ & _ & Ht)|[(_ & _ & Ht)|(He & _)]]);
      rewrite Hres in *; cbn [fst snd] in *.
    + rewrite Ht. split; [reflexivity|].
      exists (txes (tables d)). now rewrite set_txes_same.
    + rewrite Ht. split; [reflexivity|]. eauto.
    + contradiction.
  - unfold AddTxAttempt. rewrite Hhex. cbn [fst snd].
    split; [reflexivity|].
    exists (txes (tables d)). now rewrite set_txes_same.
Qed.

(** The two saves of [AddTxAttempt] are not one transaction: when the
    store fails the save of the attempt, the error is returned and the
    attempt is not stored, yet the transaction is stored naming it as its
    active attempt. *)
Theorem AddTxAttempt_half_saved (d : Database) (tx : Tx)
    (etx : Transaction) (blkNum : N) (hex : string) (e : Error)
    (fs : list (option Error)) :
  faults d = None :: Some e :: fs ->
  etx_EncodeTxToHex etx = inl hex ->
  Tx_Confirmed tx = false ->
  let added := AddTxAttempt d tx etx blkNum in
  let tx' := fst (fst (snd added)) in
  snd (snd added) = [e]
  /\ tx_attempts (tables (fst added)) = tx_attempts (tables d)
  /\ lookup Tx_ID N.eqb (Tx_ID tx') (txes (tables (fst added))) = Some tx'
  /\ Tx_Attempt tx' = Some (etx_Hash etx).
Proof.
  intros Hf Hhex Hc added tx'. subst tx' added.
  destruct d as [s fs0]. cbn [faults] in Hf. subst fs0.
  unfold AddTxAttempt. rewrite Hhex, Hc. cbn [negb].
  set (attempt := mkTxAttempt (etx_Hash etx) (Tx_ID tx) (etx_GasPrice etx)
                              false hex blkNum).
  unfold Save_Tx, Save_TxAttempt.
  destruct (N.eqb_spec (Tx_ID (AssignTxAttempt tx attempt)) 0) as [E|E];
    run_statement; rewrite multify_GetErrors; cbn [GetErrors db tables fst snd].
  - split; [reflexivity|]. split; [reflexivity|]. split; [|reflexivity].
    cbn [txes set_txes].
    pose proof (lookup_txes_after_saved (AssignTxAttempt tx attempt) (txes s))
      as L.
    unfold Tx_saved, txes_after in L.
    destruct (N.eqb_spec (Tx_ID (AssignTxAttempt tx attempt)) 0);
      [exact L|contradiction].
  - split; [reflexivity|]. split; [reflexivity|]. split; [|reflexivity].
    cbn [txes set_txes]. apply lookup_upsert_same.
Qed.

(** *** Deleting a job run *)


Lemma DeleteJobRun_tables (d : Database) (ID : string) :
  tables (fst (DeleteJobRun d ID)) = tables d
  \/ tables (fst (DeleteJobRun d ID)) = without_run ID (tables d).
Proof.
  destruct d as [s fs]. unfold DeleteJobRun, without_run.
  destruct fs as [|[e1|] [|[e2|] [|[e3|] [|[e4|] fs]]]]; run_statement; auto.
Qed.

Lemma DeleteJobRun_answers (d : Database) (ID : string) :
  answers d ->
  snd (DeleteJobRun d ID) = []
  /\ tables (fst (DeleteJobRun d ID)) = without_run ID (tables d)
  /\ answers (fst (DeleteJobRun d ID)).
Proof.
  destruct d as [s fs]. unfold answers, DeleteJobRun, without_run.
  cbn [faults]. intros Ha.
  destruct fs as [|[e1|] [|[e2|] [|[e3|] [|[e4|] fs]]]]; run_statement.
  all: repeat match goal with
       | H : Forall _ (_ :: _) |- _ => inversion H; clear H; subst
       end; try discriminate.
  all: repeat split; try constructor; assumption.
Qed.

Lemma filter_all {A : Type} (p : A -> bool) (l : list A) :
  (forall x, In x l -> p x = true) -> filter p l = l.
Proof.
  induction l as [|a l IH]; cbn; intros H; [reflexivity|].
  rewrite (H a (or_introl eq_refl)). f_equal. apply IH. auto.
Qed.

Lemma filter_filter {A : Type} (p : A -> bool) (l : list A) :
  filter p (filter p l) = filter p l.
Proof.
  apply filter_all. intros x Hx. now apply filter_In in Hx.
Qed.

Lemma without_run_again (ID : string) (s : Store) :
  without_run ID (without_run ID s) = without_run ID s.
Proof.
  unfold without_run. destruct s. cbn. now rewrite !filter_filter.
Qed.

(** [DeleteJobRun] of an id that no job run and no task run carries
    leaves the tables as they are, without error when the store
    answers. *)
Theorem DeleteJobRun_unknown_id (d : Database) (ID : string) :
  (forall jr, In jr (job_runs (tables d)) -> JobRun_ID jr <> ID) ->
  (forall tr, In tr (task_runs (tables d)) -> TaskRun_JobRunID tr <> ID) ->
  tables (fst (DeleteJobRun d ID)) = tables d
  /\ (answers d -> snd (DeleteJobRun d ID) = []).
Proof.
  intros Hjr Htr. split.
  - destruct (DeleteJobRun_tables d ID) as [H|H]; rewrite H; [reflexivity|].
    unfold without_run. rewrite !filter_all.
    + now destruct (tables d).
    + intros tr Hin. apply negb_true_iff, String.eqb_neq. now apply Htr.
    + intros jr Hin. apply negb_true_iff, String.eqb_neq. now apply Hjr.
  - intros Ha. now destruct (DeleteJobRun_answers d ID Ha).
Qed.

(** After [DeleteJobRun] no job run has the id and no task run belongs
    to it, and deleting again changes nothing and is no error. *)
Theorem DeleteJobRun_twice (d : Database) (ID : string) :
  answers d ->
  let once := DeleteJobRun d ID in
  let twice := DeleteJobRun (fst once) ID in
  snd once = [] /\ snd twice = []
  /\ tables (fst twice) = tables (fst once)
  /\ (forall jr, In jr (job_runs (tables (fst once))) -> JobRun_ID jr <> ID)
  /\ (forall tr, In tr (task_runs (tables (fst once))) ->
        TaskRun_JobRunID tr <> ID).
Proof.
  intros Ha once twice. subst twice once.
  destruct (DeleteJobRun_answers d ID Ha) as (He & Ht & Ha1).
  destruct (DeleteJobRun_answers _ ID Ha1) as (He2 & Ht2 & _).
  rewrite He, He2, Ht2, Ht, without_run_again.
  repeat split.
  - intros jr Hin. unfold without_run in Hin. cbn in Hin.
    apply filter_In in Hin. destruct Hin as [_ H].
    now apply negb_true_iff, String.eqb_neq in H.
  - intros tr Hin. unfold without_run in Hin. cbn in Hin.
    apply filter_In in Hin. destruct Hin as [_ H].
    now apply negb_true_iff, String.eqb_neq in H.
Qed.

(** After [DeleteJobRun], [JobRunsFor] lists, for every job, the runs
    it listed before other than the deleted one, newest first. *)
Theorem DeleteJobRun_then_JobRunsFor (d : Database) (ID jobSpecID : string) :
  answers d ->
  let d' := fst (DeleteJobRun d ID) in
  snd (snd (JobRunsFor d' jobSpecID)) = []
  /\ (forall jr,
        In jr (fst (snd (JobRunsFor d' jobSpecID)))
        <-> In jr (fst (snd (JobRunsFor d jobSpecID))) /\ JobRun_ID jr <> ID)
  /\ StronglySorted (falling JobRun_CreatedAt)
       (fst (snd (JobRunsFor d' jobSpecID))).
Proof.
  intros Ha d'. subst d'.
  destruct (DeleteJobRun_answers d ID Ha) as (_ & Ht & Ha1).
  rewrite (JobRunsFor_answers _ jobSpecID Ha1).
  rewrite (JobRunsFor_answers d jobSpecID Ha). cbn [fst snd].
  split; [reflexivity|]. split; [|apply newest_first_sorted].
  intros jr.
  rewrite (Permutation_in' eq_refl (order_by_perm _ _)).
  rewrite (Permutation_in' eq_refl (order_by_perm _ _)).
  rewrite Ht. unfold runs_of, without_run.
  cbn [job_runs set_job_runs set_task_runs].
  rewrite !filter_In, negb_true_iff, String.eqb_neq. tauto.
Qed.

(** *** Saving and finding again *)


Section StringKeys.
Context {R : Type} (key : R -> string).

Lemma lookup_string_app_last (r : R) (k : string) (rows : list R) :
  lookup key String.eqb k (rows ++ [r])
  = match lookup key String.eqb k rows with
    | Some x => Some x
    | None => if String.eqb (key r) k then Some r else None
    end.
Proof.
  unfold lookup. induction rows as [|x rows IH]; cbn; [reflexivity|].
  destruct (String.eqb (key x) k); [reflexivity|exact IH].
Qed.

Lemma lookup_string_upsert_same (r : R) (rows : list R) :
  lookup key String.eqb (key r) (upsert key String.eqb r rows) = Some r.
Proof.
  unfold upsert, affected, update, lookup.
  destruct (existsb _ rows) eqn:Ha.
  - induction rows as [|x rows IH]; cbn in *; [discriminate|].
    destruct (String.eqb_spec (key x) (key r)) as [Hx|Hx]; cbn in *.
    + now rewrite String.eqb_refl.
    + destruct (String.eqb_spec (key x) (key r)); [contradiction|auto].
  - induction rows as [|x rows IH]; cbn in *.
    + now rewrite String.eqb_refl.
    + destruct (String.eqb (key x) (key r)); cbn in *; [discriminate|auto].
Qed.

Lemma lookup_string_upsert_other (r : R) (k : string) (rows : list R) :
  key r <> k ->
  lookup key String.eqb k (upsert key String.eqb r rows)
  = lookup key String.eqb k rows.
Proof.
  intros Hk. unfold upsert, affected, update, lookup.
  destruct (existsb _ rows).
  - induction rows as [|x rows IH]; cbn; [reflexivity|].
    destruct (String.eqb_spec (key x) (key r)) as [Hx|Hx].
    + destruct (String.eqb_spec (key r) k); [contradiction|].
      destruct (String.eqb_spec (key x) k); [congruence|]. exact IH.
    + destruct (String.eqb (key x) k); [reflexivity|exact IH].
  - induction rows as [|x rows IH]; cbn.
    + now destruct (String.eqb_spec (key r) k).
    + destruct (String.eqb (key x) k); [reflexivity|exact IH].
Qed.
End StringKeys.

Lemma FindInitiator_answers (d : Database) (ID : string) :
  answers d ->
  snd (FindInitiator d ID)
  = match lookup Initiator_ID String.eqb ID (initiators (tables d)) with
    | Some i => (i, [])
    | None => (Initiator_zero, [ErrorNotFound])
    end.
Proof.
  intros Ha. unfold FindInitiator. answer_one Ha. cbn [fst snd].
  rewrite multify_GetErrors, Hoerr, Hsel.
  now destruct (lookup Initiator_ID String.eqb ID (initiators (tables d))).
Qed.

(** [FindInitiator] returns what [SaveInitiator] saved under a
    non-blank id; the initiators under other ids and the other tables are
    as before. *)
Theorem SaveInitiator_then_FindInitiator (d : Database) (initr : Initiator) :
  answers d ->
  Initiator_ID initr <> EmptyString ->
  let d' := fst (SaveInitiator d initr) in
  snd (SaveInitiator d initr) = []
  /\ snd (FindInitiator d' (Initiator_ID initr)) = (initr, [])
  /\ (forall ID, ID <> Initiator_ID initr ->
        snd (FindInitiator d' ID) = snd (FindInitiator d ID))
  /\ other_than_initiators (tables d') = other_than_initiators (tables d).
Proof.
  intros Ha Hid d'. subst d'. unfold SaveInitiator, Save_Initiator, Error_of.
  match goal with |- context [exec (Root d) ?run] =>
    destruct (exec_answers d run Ha) as (He & Ht & Hans) end.
  cbn [fst snd].
  rewrite (FindInitiator_answers _ _ Hans).
  split; [exact He|]. rewrite Ht. cbn [initiators set_initiators].
  destruct (String.eqb_spec (Initiator_ID initr) EmptyString);
    [contradiction|].
  split; [now rewrite lookup_string_upsert_same|].
  split; [|reflexivity].
  intros ID Hne.
  rewrite (FindInitiator_answers _ _ Hans), (FindInitiator_answers _ _ Ha), Ht.
  cbn [initiators set_initiators].
  rewrite lookup_string_upsert_other by congruence. reflexivity.
Qed.

Lemma SaveTx_answers (d : Database) (tx : Tx) :
  answers d ->
  snd (SaveTx d tx) = (Tx_saved tx (txes (tables d)), [])
  /\ tables (fst (SaveTx d tx))
     = set_txes (tables d) (txes_after tx (txes (tables d)))
  /\ answers (fst (SaveTx d tx)).
Proof.
  intros Ha. unfold SaveTx, Error_of.
  destruct (Save_Tx_answers d tx Ha) as (d1 & Hs & Ht & Ha1). rewrite Hs.
  cbn [fst snd db Root GetErrors]. auto.
Qed.

Lemma txes_after_key_unique (tx : Tx) (rows : list Tx) (x : Tx) :
  In x (txes_after tx rows) -> Tx_ID x = Tx_ID (Tx_saved tx rows) ->
  x = Tx_saved tx rows.
Proof.
  unfold txes_after, Tx_saved, upsert. destruct (Tx_ID tx =? 0)%N.
  - intros Hin Hk. apply in_app_or in Hin. destruct Hin as [Hin|[<-|[]]]; auto.
    exfalso. apply (next_id_fresh (map Tx_ID rows)).
    cbn in Hk. rewrite <- Hk. now apply in_map.
  - destruct (affected Tx_ID N.eqb tx rows) eqn:Ha.
    + unfold update. intros Hin Hk. apply in_map_iff in Hin.
      destruct Hin as (y & Hy & _).
      destruct (N.eqb_spec (Tx_ID y) (Tx_ID tx)); congruence.
    + intros Hin Hk. apply in_app_or in Hin.
      destruct Hin as [Hin|[<-|[]]]; auto.
      exfalso. assert (H : affected Tx_ID N.eqb tx rows = true)
        by (apply affected_In; eauto).
      congruence.
Qed.

Lemma txes_after_again (tx : Tx) (rows : list Tx) :
  Tx_ID (Tx_saved tx rows) <> 0%N ->
  txes_after (Tx_saved tx rows) (txes_after tx rows) = txes_after tx rows.
Proof.
  intros Hid. set (tx' := Tx_saved tx rows) in *.
  unfold txes_after at 1.
  destruct (N.eqb_spec (Tx_ID tx') 0); [contradiction|].
  unfold upsert.
  assert (Ha : affected Tx_ID N.eqb tx' (txes_after tx rows) = true).
  { apply affected_In. exists tx'. split; [apply txes_after_In_saved|auto]. }
  rewrite Ha. apply update_same. intros x Hx Hk.
  now apply txes_after_key_unique.
Qed.

Lemma Tx_saved_ID (tx : Tx) (rows : list Tx) : Tx_ID (Tx_saved tx rows) <> 0%N.
Proof.
  unfold Tx_saved. destruct (N.eqb_spec (Tx_ID tx) 0); [|assumption].
  cbn. apply N.neq_succ_0.
Qed.

(** [SaveTx] gives a transaction without id a new one and keeps the
    id of any other; the saved value differs from the one passed in at
    most in the id, [FindTx] returns it, the transactions under other ids
    are as before, and saving the saved value again changes nothing. *)
Theorem SaveTx_then_FindTx (d : Database) (tx : Tx) :
  answers d ->
  let saved := SaveTx d tx in
  let tx' := fst (snd saved) in
  snd (snd saved) = []
  /\ Tx_ID tx' <> 0%N
  /\ (Tx_ID tx <> 0%N -> tx' = tx)
  /\ tx' = Tx_with_ID tx (Tx_ID tx')
  /\ snd (FindTx (fst saved) (Tx_ID tx')) = (tx', [])
  /\ (forall ID, ID <> Tx_ID tx' ->
        snd (FindTx (fst saved) ID) = snd (FindTx d ID))
  /\ tables (fst (SaveTx (fst saved) tx')) = tables (fst saved).
Proof.
  intros Ha saved tx'. subst tx' saved.
  destruct (SaveTx_answers d tx Ha) as (Hres & Htab & Hans).
  destruct (SaveTx_answers _ (fst (snd (SaveTx d tx))) Hans)
    as (_ & Htab2 & _).
  rewrite Htab2, (FindTx_answers _ _ Hans), Htab, Hres.
  cbn [fst snd txes set_txes].
  rewrite lookup_txes_after_saved.
  split; [reflexivity|]. split; [apply Tx_saved_ID|].
  split; [|split; [|split; [reflexivity|split]]].
  - intros Hid. unfold Tx_saved.
    now destruct (N.eqb_spec (Tx_ID tx) 0).
  - unfold Tx_saved. destruct (N.eqb_spec (Tx_ID tx) 0); [reflexivity|].
    now destruct tx.
  - intros ID Hne.
    rewrite (FindTx_answers _ _ Hans), (FindTx_answers _ _ Ha), Htab.
    cbn [txes set_txes]. now rewrite lookup_txes_after_other.
  - rewrite txes_after_again by apply Tx_saved_ID. now destruct (tables d).
Qed.

Lemma max_nonce_app (rows : list Tx) (tx : Tx) :
  fold_right N.max 0%N (map Tx_Nonce (rows ++ [tx]))
  = N.max (fold_right N.max 0%N (map Tx_Nonce rows)) (Tx_Nonce tx).
Proof.
  induction rows as [|x rows IH]; cbn; [lia|]. rewrite IH. lia.
Qed.

(** After [CreateTx] the last nonce of the sender is the greater of
    its last nonce before and the new nonce; the last nonce of any other
    address is as before, and [TxFrom] lists the new transaction. *)
Theorem CreateTx_then_GetLastNonce (d : Database) (from : Address)
    (nonce : N) (to : Address) (data : list Byte.byte) (value : Z)
    (gasLimit : N) :
  answers d ->
  let created := CreateTx d from nonce to data value gasLimit in
  snd (GetLastNonce (fst created) from)
  = (N.max (fst (snd (GetLastNonce d from))) nonce, [])
  /\ (forall address, address <> from ->
        snd (GetLastNonce (fst created) address)
        = snd (GetLastNonce d address))
  /\ In (fst (snd created)) (fst (snd (TxFrom (fst created) from))).
Proof.
  intros Ha created. subst created.
  destruct (CreateTx_answers d from nonce to data value gasLimit Ha)
    as (Hres & Htab & Hans).
  rewrite (TxFrom_answers _ _ Hans), (GetLastNonce_max _ _ Hans).
  rewrite (GetLastNonce_max _ _ Ha), Htab, Hres.
  cbn [fst snd txes set_txes]. unfold sent_from.
  rewrite !filter_app. cbn [filter Tx_From]. rewrite N.eqb_refl.
  split; [now rewrite max_nonce_app|]. split.
  - intros address Hne.
    rewrite (GetLastNonce_max _ _ Hans), (GetLastNonce_max _ _ Ha), Htab.
    cbn [txes set_txes]. unfold sent_from.
    rewrite filter_app. cbn [filter Tx_From].
    destruct (N.eqb_spec from address); [congruence|].
    now rewrite app_nil_r.
  - apply in_or_app. right. now left.
Qed.

(** *** Comparing e-mail addresses *)

Lemma bytes_eqb_eq (x y : list Byte.byte) : bytes_eqb x y = true <-> x = y.
Proof.
  revert y. induction x as [|a x IH]; intros [|b y]; cbn;
    try (split; discriminate); [tauto|].
  rewrite andb_true_iff, IH. split.
  - intros [H ->]. apply Byte.byte_dec_bl in H. now subst.
  - intros [= -> ->]. split; [now apply Byte.byte_dec_lb|reflexivity].
Qed.

Lemma list_byte_of_string_cons (c : ascii) (s : string) :
  list_byte_of_string (String c s) = byte_of_ascii c :: list_byte_of_string s.
Proof. reflexivity. Qed.

Lemma length_list_byte_of_string (s : string) :
  List.length (list_byte_of_string s) = String.length s.
Proof.
  induction s as [|c s IH]; [reflexivity|].
  rewrite list_byte_of_string_cons. cbn [List.length String.length].
  now rewrite IH.
Qed.

Lemma list_byte_of_string_inj (s t : string) :
  list_byte_of_string s = list_byte_of_string t -> s = t.
Proof.
  intros H. rewrite <- (string_of_list_byte_of_string s),
    <- (string_of_list_byte_of_string t). now rewrite H.
Qed.

Lemma list_byte_of_string_app (s t : string) :
  list_byte_of_string (s ++ t)
  = list_byte_of_string s ++ list_byte_of_string t.
Proof.
  induction s as [|c s IH]; [reflexivity|].
  cbn [String.append]. rewrite !list_byte_of_string_cons, IH. reflexivity.
Qed.

Lemma list_byte_of_string_NULs (k : nat) :
  list_byte_of_string (NULs k) = repeat Byte.x00 k.
Proof.
  induction k as [|k IH]; [reflexivity|].
  cbn [NULs repeat]. now rewrite list_byte_of_string_cons, IH.
Qed.

Lemma length_NULs (k : nat) : String.length (NULs k) = k.
Proof. induction k as [|k IH]; cbn; [reflexivity|now rewrite IH]. Qed.

Lemma firstn_repeat_le {A : Type} (x : A) (k n : nat) :
  k <= n -> firstn k (repeat x n) = repeat x k.
Proof.
  revert n. induction k as [|k IH]; intros [|n] H; cbn; try reflexivity;
    [lia|]. f_equal. apply IH. lia.
Qed.

Lemma make_copy_pad (n : nat) (s : string) :
  String.length s <= n ->
  make_copy n s
  = list_byte_of_string s ++ repeat Byte.x00 (n - String.length s).
Proof.
  intros H. unfold make_copy.
  rewrite firstn_app, length_list_byte_of_string.
  rewrite firstn_all2 by (rewrite length_list_byte_of_string; exact H).
  f_equal. apply firstn_repeat_le. lia.
Qed.

Lemma NUL_free_bytes (s : string) :
  contains Ascii.zero s = false -> ~ In Byte.x00 (list_byte_of_string s).
Proof.
  induction s as [|c s IH]; [cbn; tauto|].
  rewrite list_byte_of_string_cons. cbn [contains In].
  destruct (Ascii.eqb_spec c Ascii.zero) as [E|E]; cbn [orb];
    [discriminate|].
  intros H [Hc|Hin]; [|now apply IH].
  apply E. rewrite <- (ascii_of_byte_of_ascii c), Hc. reflexivity.
Qed.

Lemma app_repeat_inj {A : Type} (z : A) (l r : list A) (a b : nat) :
  ~ In z l -> ~ In z r -> l ++ repeat z a = r ++ repeat z b -> l = r.
Proof.
  revert r. induction l as [|x l IH]; intros [|y r] Hl Hr H; cbn in *.
  - reflexivity.
  - destruct a; cbn in H; [discriminate|]. injection H as H _.
    exfalso. apply Hr. now left.
  - destruct b; cbn in H; [discriminate|]. injection H as H _.
    exfalso. apply Hl. now left.
  - injection H as -> H. f_equal. apply IH; auto.
Qed.

Section EmailCompareProps.
Variable MaxInt : nat -> list nat -> nat.
Hypothesis MaxInt_upper :
  forall first rest x, In x (first :: rest) -> x <= MaxInt first rest.

Lemma compare_length (left right : string) :
  let length :=
    MaxInt constantTimeEmailLength
           [String.length left; String.length right] in
  String.length left <= length /\ String.length right <= length.
Proof.
  split; apply MaxInt_upper; cbn; auto.
Qed.

(** On strings without NUL byte, [constantTimeEmailCompare] holds
    exactly when the strings are equal, whatever their lengths. *)
Theorem constantTimeEmailCompare_NUL_free (left right : string) :
  contains Ascii.zero left = false ->
  contains Ascii.zero right = false ->
  constantTimeEmailCompare MaxInt left right = true <-> left = right.
Proof.
  intros Hl Hr. unfold constantTimeEmailCompare, ConstantTimeCompare.
  destruct (compare_length left right) as [Hll Hlr]. cbn zeta in Hll, Hlr.
  rewrite !make_copy_pad by assumption.
  destruct (bytes_eqb _ _) eqn:E.
  - apply bytes_eqb_eq in E. split; [intros _|reflexivity].
    apply list_byte_of_string_inj.
    eapply app_repeat_inj; [| |exact E]; now apply NUL_free_bytes.
  - split; [discriminate|]. intros ->.
    rewrite (proj2 (bytes_eqb_eq _ _) eq_refl) in E. discriminate.
Qed.

(** [constantTimeEmailCompare] pads with NUL bytes, so it does not
    tell apart two strings that differ in trailing NUL bytes only. *)
Theorem constantTimeEmailCompare_trailing_NULs (email : string) (j k : nat) :
  constantTimeEmailCompare MaxInt (email ++ NULs j) (email ++ NULs k) = true.
Proof.
  unfold constantTimeEmailCompare, ConstantTimeCompare.
  destruct (compare_length (email ++ NULs j) (email ++ NULs k)) as [Hl Hr].
  cbn zeta in Hl, Hr.
  rewrite !make_copy_pad by assumption.
  set (n := MaxInt _ _) in *.
  rewrite !list_byte_of_string_app, !list_byte_of_string_NULs.
  rewrite <- !app_assoc, <- !repeat_app.
  assert (Hj : String.length (email ++ NULs j)%string
               = String.length email + j).
  { rewrite <- length_list_byte_of_string, list_byte_of_string_app,
      length_app, !length_list_byte_of_string, length_NULs. reflexivity. }
  assert (Hk : String.length (email ++ NULs k)%string
               = String.length email + k).
  { rewrite <- length_list_byte_of_string, list_byte_of_string_app,
      length_app, !length_list_byte_of_string, length_NULs. reflexivity. }
  rewrite Hj, Hk in *.
  replace (j + (n - (String.length email + j)))
    with (k + (n - (String.length email + k))) by lia.
  now rewrite (proj2 (bytes_eqb_eq _ _) eq_refl).
Qed.
End EmailCompareProps.

(** *** The bulk deletion models *)

Lemma strings_Split_comma_free (s : string) (sep : ascii) :
  Forall (fun x => contains sep x = false) (strings_Split s sep).
Proof.
  induction s as [|c s IH]; cbn.
  - repeat constructor.
  - destruct (Ascii.eqb c sep) eqn:E.
    + constructor; [reflexivity|exact IH].
    + destruct (strings_Split s sep) as [|x xs].
      * repeat constructor. cbn. now rewrite E.
      * inversion IH; subst. constructor; [|assumption].
        cbn. now rewrite E.
Qed.

Lemma Join_Split (s : string) (sep : ascii) :
  strings_Join (strings_Split s sep) (String sep EmptyString) = s.
Proof.
  unfold strings_Join. induction s as [|c s IH]; [reflexivity|].
  cbn [strings_Split].
  destruct (strings_Split_cons s sep) as (x & xs & Hx). rewrite Hx in *.
  destruct (Ascii.eqb_spec c sep) as [->|E].
  - change (String.concat (String sep EmptyString) (EmptyString :: x :: xs))
      with (String sep (String.concat (String sep EmptyString) (x :: xs))).
    now rewrite IH.
  - destruct xs as [|y ys]; cbn in *; now rewrite IH.
Qed.

(** [Scan] accepts every byte slice; the collection it yields is never
    empty, its statuses hold no comma, and [Value] of it is the text that
    was scanned. *)
Theorem RunStatusCollection_Scan_then_Value (r0 : RunStatusCollection)
    (temp : list Byte.byte) :
  let scanned := RunStatusCollection_Scan r0 (driver.Bytes temp) in
  snd scanned = []
  /\ fst scanned <> []
  /\ Forall (fun status => contains comma status = false) (fst scanned)
  /\ RunStatusCollection_Value (fst scanned)
     = (driver.Str (string_of_list_byte temp), []).
Proof.
  intros scanned. subst scanned.
  unfold RunStatusCollection_Scan, RunStatusCollection_Value,
    RunStatusCollection_ToStrings.
  cbn [fst snd]. rewrite !map_id.
  split; [reflexivity|]. split; [|split].
  - destruct (strings_Split_cons (string_of_list_byte temp) comma)
      as (x & xs & ->). discriminate.
  - apply strings_Split_comma_free.
  - now rewrite Join_Split.
Qed.

(** [Scan] restores a task status from the bytes of the text [Value]
    produced; handed the string itself, it fails and leaves the receiver
    as it was. *)
Theorem BulkTaskStatus_round_trip_as_bytes (t t0 : BulkTaskStatus) :
  BulkTaskStatus_Scan t0 (read_back (fst (BulkTaskStatus_Value t))) = (t, [])
  /\ fst (BulkTaskStatus_Scan t0 (fst (BulkTaskStatus_Value t))) = t0
  /\ snd (BulkTaskStatus_Scan t0 (fst (BulkTaskStatus_Value t))) <> [].
Proof.
  unfold BulkTaskStatus_Scan, BulkTaskStatus_Value, read_back. cbn [fst snd].
  rewrite string_of_list_byte_of_string.
  split; [reflexivity|]. split; [reflexivity|discriminate].
Qed.

Section FirstOffender.
Variables RunStatusCompleted RunStatusErrored : RunStatus.
Context {Rand : Type}.
Variable NewBytes32ID : Rand -> string * Rand.

(** The error of [NewBulkDeleteRunTask] names the first status of the
    request that is neither completed nor errored; no id is drawn. *)
Theorem NewBulkDeleteRunTask_names_first_offender (g : Rand)
    (request : BulkDeleteRunRequest) (deleted rest : list RunStatus)
    (status : RunStatus) :
  BulkDeleteRunRequest_Status request = deleted ++ status :: rest ->
  Forall (fun s => s = RunStatusCompleted \/ s = RunStatusErrored) deleted ->
  status <> RunStatusCompleted ->
  status <> RunStatusErrored ->
  NewBulkDeleteRunTask RunStatusCompleted RunStatusErrored NewBytes32ID g
    request
  = (g, (None, [Errorf "cannot delete Runs with status %s"
                       [driver.Str status]])).
Proof.
  intros Hreq Hok Hc He. unfold NewBulkDeleteRunTask. rewrite Hreq.
  assert (Hchk : check_statuses RunStatusCompleted RunStatusErrored
                   (deleted ++ status :: rest)
                 = [Errorf "cannot delete Runs with status %s"
                           [driver.Str status]]).
  { clear Hreq. induction Hok as [|s l Hs Hl IH]; cbn.
    - destruct (String.eqb_spec status RunStatusCompleted); [contradiction|].
      destruct (String.eqb_spec status RunStatusErrored); [contradiction|].
      reflexivity.
    - destruct Hs as [->| ->].
      + rewrite String.eqb_refl. cbn. exact IH.
      + rewrite String.eqb_refl, andb_false_r. exact IH. }
  now rewrite Hchk.
Qed.
End FirstOffender.

(** *** Saving a job *)

Section SaveJobProps.
Context {Rand : Type}.
Variable NewBytes32ID : Rand -> string * Rand.

(** The loop of [SaveJob], with ids that are never blank: every
    initiator ends up tied to the job and with an id, its own when it had
    one; nothing else of it changes, and running the loop again changes
    nothing and draws no id. *)
Theorem SaveJob_ties_initiators (g : Rand) (jobID : string)
    (initrs : list Initiator) :
  (forall g0, fst (NewBytes32ID g0) <> EmptyString) ->
  let out := snd (range_initiators NewBytes32ID g jobID initrs) in
  Forall2 (fun i o =>
             Initiator_JobSpecID o = jobID
             /\ Initiator_ID o <> EmptyString
             /\ (Initiator_ID i <> EmptyString ->
                 Initiator_ID o = Initiator_ID i)
             /\ Initiator_with_JobSpecID (Initiator_with_ID i (Initiator_ID o))
                  jobID = o)
          initrs out
  /\ range_initiators NewBytes32ID
       (fst (range_initiators NewBytes32ID g jobID initrs)) jobID out
     = range_initiators NewBytes32ID g jobID initrs.
Proof.
  intros Hid out. subst out. revert g.
  induction initrs as [|i rest IH]; intros g; cbn [range_initiators].
  - split; [constructor|reflexivity].
  - destruct (String.eqb_spec (Initiator_ID i) EmptyString) as [E|E].
    + pose proof (Hid g) as Hg.
      destruct (NewBytes32ID g) as [id g1]. cbn [fst] in Hg.
      destruct (IH g1) as [IH1 IH2].
      destruct (range_initiators NewBytes32ID g1 jobID rest) as [g2 out].
      cbn [fst snd range_initiators] in *.
      split.
      * constructor; [|exact IH1]. cbn. repeat split; auto.
        intros; contradiction.
      * cbn [Initiator_with_JobSpecID Initiator_with_ID Initiator_ID].
        destruct (String.eqb_spec id EmptyString); [contradiction|].
        now rewrite IH2.
    + destruct (IH g) as [IH1 IH2].
      destruct (range_initiators NewBytes32ID g jobID rest) as [g2 out].
      cbn [fst snd range_initiators] in *.
      split.
      * constructor; [|exact IH1]. cbn. repeat split; auto.
      * cbn [Initiator_with_JobSpecID Initiator_ID].
        destruct (String.eqb_spec (Initiator_ID i) EmptyString);
          [contradiction|].
        now rewrite IH2.
Qed.
End SaveJobProps.

(* ===================================================================== *)
(** ** The code at sample inputs *)
(* ===================================================================== *)

Local Open Scope string_scope.

Example Big_String_samples :
  map Big_String [0; 7; 10; 99; 100; 18446744073709551615]%N
  = ["0"; "7"; "10"; "99"; "100"; "18446744073709551615"]%string.
Proof. reflexivity. Qed.

(** Text order alone would put 99 after 100; the digit count comes first. *)
Example text_order_needs_digits :
  String.ltb (Big_String 100) (Big_String 99) = true
  /\ digits_desc_number_desc (NewIndexableBlockNumber 100 1%N)
                             (NewIndexableBlockNumber 99 2%N) = true.
Proof. split; reflexivity. Qed.

Example strings_Split_samples :
  strings_Split ",a,,b," comma
  = [EmptyString; "a"; EmptyString; "b"; EmptyString]
  /\ strings_Split "completed" comma = ["completed"].
Proof. split; reflexivity. Qed.

(** Two rows per query: a table shorter than, as long as, and longer than
    a whole number of batches; and a callback that stops at the fourth
    job. *)
Example Jobs_from_samples :
  option_map snd (Jobs_from (recording 9) 3 2 sample_db_jobs [] 0)
  = Some ([0; 1; 2; 3; 4]%N, [])
  /\ option_map snd (Jobs_from (recording 9) 2 5 sample_db_jobs [] 0)
     = Some ([0; 1; 2; 3; 4]%N, [])
  /\ option_map snd (Jobs_from (recording 9) 1 7 sample_db_jobs [] 0)
     = Some ([0; 1; 2; 3; 4]%N, [])
  /\ option_map snd (Jobs_from (recording 3) 2 2 sample_db_jobs [] 0)
     = Some ([0; 1; 2; 3]%N, [])
  /\ option_map snd (Jobs (recording 3) 1 sample_db_jobs [])
     = Some ([0; 1; 2; 3]%N, [])
  /\ Jobs_from (recording 9) 2 2 sample_db_jobs [] 0 = None.
Proof. repeat split; reflexivity. Qed.

(** A failing query ends [Jobs] with the error, before any callback. *)
Example Jobs_store_failure :
  option_map snd
    (Jobs (recording 9) 1
       (mkDatabase (tables sample_db_jobs) [Some (ErrDriver "disk I/O")])
       [])
  = Some ([], [ErrDriver "disk I/O"]).
Proof. reflexivity. Qed.

(** The callback is shown the job specs without their initiators. *)
Example Jobs_shows_no_initiators :
  option_map (fun res => map fst (fst (fst (snd res))))
    (Jobs (tracing (recording 9)) 1
       (mkDatabase
          (mkStore [] [] [] [mkJobSpec "job1" [sample_initiator] 1%N]
                   [] [] []) [])
       ([], []))
  = Some [mkJobSpec "job1" [] 1%N].
Proof. reflexivity. Qed.

(** [sample_db_confirmed] is what [CreateTx], [AddTxAttempt] and
    [ConfirmTx] build. *)
Example confirmed_sample_is_reachable :
  let '(d1, (tx1, _)) :=
    CreateTx (mkDatabase Store_empty []) 7%N 0%N 8%N [] 0%Z 21000%N in
  let '(d2, (tx2, a2, _)) := AddTxAttempt d1 tx1 sample_etx1 5%N in
  match a2 with
  | Some a => ConfirmTx d2 tx2 a
              = (sample_db_confirmed,
                 (sample_tx_confirmed, sample_attempt1, []))
  | None => False
  end.
Proof. reflexivity. Qed.

(** A failure of the second deletion rolls the first one back. *)
Example DeleteJobRun_rolls_back :
  DeleteJobRun
    (mkDatabase
       (mkStore [] [] [] []
          [mkJobRun "run1" "job1" "completed" 1%N]
          [mkTaskRun "t1" "run1" "completed"] [])
       [None; None; Some (ErrDriver "locked")])
    "run1"
  = (mkDatabase
       (mkStore [] [] [] []
          [mkJobRun "run1" "job1" "completed" 1%N]
          [mkTaskRun "t1" "run1" "completed"] [])
       [],
     [ErrDriver "locked"]).
Proof. reflexivity. Qed.

Example DeleteJobRun_deletes :
  DeleteJobRun
    (mkDatabase
       (mkStore [] [] [] []
          [mkJobRun "run1" "job1" "completed" 1%N;
           mkJobRun "run2" "job1" "errored" 2%N]
          [mkTaskRun "t1" "run1" "completed";
           mkTaskRun "t2" "run2" "errored";
           mkTaskRun "t3" "run1" "completed"] [])
       [])
    "run1"
  = (mkDatabase
       (mkStore [] [] [] []
          [mkJobRun "run2" "job1" "errored" 2%N]
          [mkTaskRun "t2" "run2" "errored"] [])
       [],
     []).
Proof. reflexivity. Qed.

(* ===================================================================== *)
(** ** Where the code departs from the stated behaviour *)
(* ===================================================================== *)

(** C1, as stated, fails: with a zero gas limit and a negative value
    [CreateTx] returns no error and the Tx is in the table. *)
Lemma CreateTx_accepts_zero_gas_limit_and_negative_value :
  CreateTx (mkDatabase Store_empty []) 7%N 0%N 8%N [] (-1)%Z 0%N
  = (mkDatabase
       (mkStore [mkTx 1%N 7%N 8%N [] 0%N (-1)%Z 0%N false None]
                [] [] [] [] [] []) [],
     (mkTx 1%N 7%N 8%N [] 0%N (-1)%Z 0%N false None, [])).
Proof. reflexivity. Qed.

(** C2, as stated, fails: on a confirmed Tx a successful [AddTxAttempt]
    persists the new attempt, yet the active attempt of the Tx stays the
    confirmed one. *)
Lemma AddTxAttempt_confirmed_keeps_active :
  AddTxAttempt sample_db_confirmed sample_tx_confirmed sample_etx2 6%N
  = (mkDatabase
       (mkStore [sample_tx_confirmed]
                [sample_attempt1;
                 mkTxAttempt 101%N 1%N 30%Z false "0xf86b02"%string 6%N]
                [] [] [] [] []) [],
     (sample_tx_confirmed,
      Some (mkTxAttempt 101%N 1%N 30%Z false "0xf86b02"%string 6%N), []))
  /\ Tx_Attempt sample_tx_confirmed = Some 100%N
  /\ Some 100%N <> Some (etx_Hash sample_etx2).
Proof. repeat split. discriminate. Qed.

(** C6, as stated, fails: for an initiator with a blank id [MarkRan]
    sets the ran flag of every stored initiator, and for an initiator
    that is not stored it returns nil and persists nothing. *)
Lemma MarkRan_blank_marks_all_and_unsaved_none :
  MarkRan sample_db_initiators Initiator_zero
  = (mkDatabase
       (mkStore [] [] [] [] [] []
          [mkInitiator "i0" "job1" "web" EmptyString 0%N true 0%N;
           Initiator_with_Ran sample_initiator true]) [],
     (Initiator_with_Ran Initiator_zero true, []))
  /\ MarkRan sample_db_initiators
       (mkInitiator "i9" "job1" "runat" EmptyString 1700000000%N false 0%N)
     = (sample_db_initiators,
        (mkInitiator "i9" "job1" "runat" EmptyString 1700000000%N true 0%N,
         [])).
Proof. split; reflexivity. Qed.

(** C7, as stated, fails: with a callback that deletes each job spec it
    is shown, [Jobs] returns nil after 1000 calls on a table of 1001 job
    specs; the last one was never shown, and is the one left. *)
Lemma Jobs_skips_when_the_callback_deletes :
  List.length (job_specs (tables sample_db_many)) = 1001
  /\ option_map
       (fun res =>
          (List.length (fst (fst (snd res))),
           map JobSpec_ID (job_specs (tables (fst res))),
           snd (snd res)))
       (Jobs (tracing deleting) 3 sample_db_many ([], tt))
     = Some (1000, ["1000"], []).
Proof. split; vm_compute; reflexivity. Qed.

(** C10, as stated, fails: [Value] yields a string, which [Scan] rejects;
    the receiver is left as it was. *)
Lemma RunStatusCollection_Scan_rejects_Value :
  RunStatusCollection_Scan []
    (fst (RunStatusCollection_Value ["completed"; "errored"]%string))
  = ([],
     [Errorf "Unable to convert %v of %T to RunStatusCollection"
             [driver.Str "completed,errored"; driver.Str "completed,errored"]]).
Proof. reflexivity. Qed.

(* ===================================================================== *)
(** ** The theorems at sample inputs *)
(* ===================================================================== *)

Lemma AddTxAttempt_active_attempt_witness :
  AddTxAttempt sample_db_pending sample_tx_pending sample_etx2 6%N
  = (fst (AddTxAttempt sample_db_pending sample_tx_pending sample_etx2 6%N),
     (mkTx 1%N 7%N 8%N [] 0%N 0%Z 21000%N false (Some 101%N),
      Some (mkTxAttempt 101%N 1%N 30%Z false "0xf86b02"%string 6%N), []))
  /\ Tx_Attempt (mkTx 1%N 7%N 8%N [] 0%N 0%Z 21000%N false (Some 101%N))
     = Some (etx_Hash sample_etx2)
  /\ In (mkTxAttempt 100%N 1%N 20%Z false "0xf86b01"%string 5%N)
        (tx_attempts (tables
           (fst (AddTxAttempt sample_db_pending sample_tx_pending
                              sample_etx2 6%N)))).
Proof.
  split; [reflexivity|].
  destruct (AddTxAttempt_active_attempt sample_db_pending sample_tx_pending
              sample_etx2 6%N _ _ _ eq_refl)
    as (_ & _ & _ & Hact & Hkeep & _).
  split; [exact Hact|].
  apply Hkeep; [left; reflexivity | discriminate].
Defined.

Lemma AddTxAttempt_keeps_nonce_witness :
  (Tx_ID sample_tx_pending <> 0%N
   /\ lookup Tx_ID N.eqb (Tx_ID sample_tx_pending)
        (txes (tables sample_db_pending)) = Some sample_tx_pending)
  /\ same_intent sample_tx_pending
       (fst (fst (snd (AddTxAttempt sample_db_pending sample_tx_pending
                                    sample_etx2 6%N))))
  /\ snd (snd (AddTxAttempt sample_db_pending sample_tx_pending
                            sample_etx2 6%N)) = []
  /\ exists att,
       snd (fst (snd (AddTxAttempt sample_db_pending sample_tx_pending
                                   sample_etx2 6%N))) = Some att
       /\ TxAttempt_TxID att = Tx_ID sample_tx_pending
       /\ TxAttempt_Hash att = etx_Hash sample_etx2
       /\ In att (tx_attempts
                    (tables (fst (AddTxAttempt sample_db_pending
                                    sample_tx_pending sample_etx2 6%N)))).
Proof.
  assert (Hid : Tx_ID sample_tx_pending <> 0%N) by discriminate.
  assert (Ha : answers sample_db_pending) by constructor.
  split; [split; [exact Hid | reflexivity]|].
  destruct (AddTxAttempt_keeps_nonce sample_db_pending sample_tx_pending
              sample_tx_pending sample_etx2 6%N _ _ _ _ Hid eq_refl
              eq_refl) as (Hsame & _ & _ & _ & Hrec & Hruns).
  split; [exact Hsame|].
  assert (He : snd (snd (AddTxAttempt sample_db_pending sample_tx_pending
                           sample_etx2 6%N)) = [])
    by (apply Hruns; [exact Ha|eexists; reflexivity]).
  split; [exact He|].
  destruct (Hrec He) as (att & Hatt & Htx & Hh & Hin & _).
  exists att. split; [exact Hatt|]. split; [exact Htx|].
  split; [exact Hh|exact Hin].
Defined.

Lemma GetLastNonce_highest_witness :
  answers sample_db_pending
  /\ exists n,
       snd (GetLastNonce sample_db_pending 7%N) = (n, [])
       /\ tables (fst (GetLastNonce sample_db_pending 7%N))
          = tables sample_db_pending
       /\ (forall t, In t (txes (tables sample_db_pending)) ->
             Tx_From t = 7%N -> (Tx_Nonce t <= n)%N)
       /\ ((exists t, In t (txes (tables sample_db_pending))
                      /\ Tx_From t = 7%N) ->
           exists t, In t (txes (tables sample_db_pending))
                     /\ Tx_From t = 7%N /\ Tx_Nonce t = n)
       /\ ((forall t, In t (txes (tables sample_db_pending)) ->
              Tx_From t <> 7%N) -> n = 0%N).
Proof.
  assert (Ha : answers sample_db_pending) by constructor.
  split; [exact Ha|]. exact (GetLastNonce_highest sample_db_pending 7%N Ha).
Defined.

Lemma LastHead_greatest_number_witness :
  (answers (mkDatabase Store_empty [])
   /\ indexable_block_numbers (tables (mkDatabase Store_empty [])) = []
   /\ Forall well_formed_head sample_heads
   /\ (forall a b, In a sample_heads -> In b sample_heads ->
         Head_Hash a = Head_Hash b -> a = b))
  /\ exists h,
       snd (LastHead (save_heads (mkDatabase Store_empty []) sample_heads))
       = (h, [])
       /\ (sample_heads = [] -> h = IndexableBlockNumber_zero)
       /\ (sample_heads <> [] ->
           In h sample_heads
           /\ forall h', In h' sample_heads ->
                (Head_Number h' <= Head_Number h)%N).
Proof.
  assert (Ha : answers (mkDatabase Store_empty [])) by constructor.
  assert (Hwf : Forall well_formed_head sample_heads)
    by (repeat constructor).
  assert (Hinj : forall a b, In a sample_heads -> In b sample_heads ->
            Head_Hash a = Head_Hash b -> a = b).
  { intros a b Hina Hinb.
    repeat (destruct Hina as [<-|Hina]; [|]); try contradiction;
      repeat (destruct Hinb as [<-|Hinb]; [|]); try contradiction;
      intros Hh; try reflexivity; discriminate Hh. }
  split; [split; [exact Ha | split; [reflexivity | split; assumption]]|].
  exact (LastHead_greatest_number (mkDatabase Store_empty []) sample_heads
           Ha eq_refl Hwf Hinj).
Defined.

Lemma MarkRan_sets_only_ran_witness :
  answers sample_db_initiators
  /\ snd (MarkRan sample_db_initiators sample_initiator)
     = (Initiator_with_Ran sample_initiator true, [])
  /\ exists row',
       lookup Initiator_ID String.eqb (Initiator_ID sample_initiator)
         (initiators
            (tables (fst (MarkRan sample_db_initiators sample_initiator))))
       = Some row'
       /\ Initiator_Ran row' = true /\ same_but_ran sample_initiator row'.
Proof.
  assert (Ha : answers sample_db_initiators) by constructor.
  assert (Hid : Initiator_ID sample_initiator <> EmptyString)
    by discriminate.
  split; [exact Ha|].
  destruct (MarkRan_sets_only_ran sample_db_initiators sample_initiator Ha)
    as (Hres & _ & Hstored & _).
  split; [exact Hres|].
  destruct (Hstored Hid) as (Hrow & _).
  destruct (Hrow sample_initiator eq_refl)
    as (row' & Hlook & Hran & Hsame & _).
  exists row'.
  split; [exact Hlook | split; [exact Hran | exact Hsame]].
Defined.

Lemma Jobs_calls_back_once_each_witness :
  (answers sample_db_jobs /\ keeps_jobs (recording 3))
  /\ exists d' s' log,
       Jobs (tracing (recording 3)) 1 sample_db_jobs ([], [])
       = Some (d', ((log, s'), []))
       /\ follows (map without_preload (job_specs (tables sample_db_jobs)))
                  log
       /\ Jobs (recording 3) 1 sample_db_jobs [] = Some (d', (s', []))
       /\ job_specs (tables d') = job_specs (tables sample_db_jobs).
Proof.
  assert (Ha : answers sample_db_jobs) by constructor.
  assert (Hk : keeps_jobs (recording 3))
    by (intros s d j; split; [reflexivity|exact (fun H => H)]).
  split; [split; [exact Ha|exact Hk]|].
  apply (proj2 (Jobs_calls_back_once_each (recording 3) sample_db_jobs []
                  Ha Hk)).
  apply Nat.lt_0_1.
Defined.

Lemma RunStatusCollection_round_trip_as_bytes_witness :
  Forall (fun status => contains comma status = false)
         ["completed"; "errored"]%string
  /\ RunStatusCollection_Scan []
       (read_back (fst (RunStatusCollection_Value
                          ["completed"; "errored"]%string)))
     = (["completed"; "errored"]%string, []).
Proof.
  assert (Hall : Forall (fun status => contains comma status = false)
                        ["completed"; "errored"]%string)
    by (repeat constructor).
  split; [exact Hall|].
  apply (RunStatusCollection_round_trip_as_bytes
           ["completed"; "errored"]%string [] Hall).
  discriminate.
Defined.

(** *** The further properties at sample inputs *)

Lemma JobsSorted_page_witness :
  answers sample_db_jobs
  /\ snd (snd (JobsSorted sample_db_jobs Descending 1 2)) = []
  /\ snd (fst (snd (JobsSorted sample_db_jobs Descending 1 2))) = 5%N
  /\ StronglySorted (falling JobSpec_CreatedAt)
       (fst (fst (snd (JobsSorted sample_db_jobs Descending 1 2)))).
Proof.
  assert (Ha : answers sample_db_jobs) by constructor.
  split; [exact Ha|].
  destruct (JobsSorted_page sample_db_jobs Descending 1 2 Ha)
    as (He & Hc & _ & _ & Hs & _).
  split; [exact He|]. split; [exact Hc|]. apply Hs. reflexivity.
Defined.

Lemma JobsSorted_pages_compose_witness :
  answers sample_db_jobs
  /\ (fst (fst (snd (JobsSorted sample_db_jobs Ascending 1 2)))
      ++ fst (fst (snd (JobsSorted sample_db_jobs Ascending (1 + 2) 1))))%list
     = fst (fst (snd (JobsSorted sample_db_jobs Ascending 1 (2 + 1)))).
Proof.
  assert (Ha : answers sample_db_jobs) by constructor.
  split; [exact Ha|].
  exact (proj1 (JobsSorted_pages_compose sample_db_jobs Ascending 1 2 1 Ha)).
Defined.

Lemma JobRunsFor_newest_first_witness :
  answers sample_db_runs
  /\ snd (snd (JobRunsFor sample_db_runs "job1")) = []
  /\ Permutation (fst (snd (JobRunsFor sample_db_runs "job1")))
       (runs_of "job1" (job_runs (tables sample_db_runs)))
  /\ StronglySorted (falling JobRun_CreatedAt)
       (fst (snd (JobRunsFor sample_db_runs "job1")))
  /\ snd (JobRunsCountFor sample_db_runs "job1") = (2%N, []).
Proof.
  assert (Ha : answers sample_db_runs) by constructor.
  split; [exact Ha|].
  exact (JobRunsFor_newest_first sample_db_runs "job1" Ha).
Defined.

Lemma JobRunsSortedFor_lists_runs_of_all_jobs_witness :
  answers sample_db_runs
  /\ snd (JobRunsSortedFor sample_db_runs "job2" Descending 0 10)
     = (fst (fst (snd (JobRunsSorted sample_db_runs Descending 0 10))),
        1%N, [])
  /\ snd (fst (snd (JobRunsSorted sample_db_runs Descending 0 10))) = 3%N.
Proof.
  assert (Ha : answers sample_db_runs) by constructor.
  split; [exact Ha|].
  exact (JobRunsSortedFor_lists_runs_of_all_jobs sample_db_runs "job2"
           Descending 0 10 Ha).
Defined.

Lemma Transactions_newest_first_witness :
  answers sample_db_pending
  /\ snd (snd (Transactions sample_db_pending 1 2)) = []
  /\ StronglySorted (falling Tx_ID)
       (fst (snd (Transactions sample_db_pending 1 2))).
Proof.
  assert (Ha : answers sample_db_pending) by constructor.
  split; [exact Ha|].
  destruct (Transactions_newest_first sample_db_pending 1 2 Ha)
    as (He & Hs & _).
  split; [exact He|exact Hs].
Defined.

Lemma TxAttempts_latest_first_witness :
  answers sample_db_confirmed
  /\ snd (snd (TxAttempts sample_db_confirmed 0 5)) = []
  /\ snd (fst (snd (TxAttempts sample_db_confirmed 0 5))) = 1%N
  /\ StronglySorted (falling TxAttempt_SentAt)
       (fst (fst (snd (TxAttempts sample_db_confirmed 0 5)))).
Proof.
  assert (Ha : answers sample_db_confirmed) by constructor.
  split; [exact Ha|].
  destruct (TxAttempts_latest_first sample_db_confirmed 0 5 Ha)
    as (He & Hc & Hs & _).
  split; [exact He|]. split; [exact Hc|exact Hs].
Defined.

Lemma listings_stop_at_failing_count_witness :
  faults sample_db_failing = [Some (ErrDriver "disk I/O error")]
  /\ JobsSorted sample_db_failing Descending 0 10
     = (mkDatabase (tables sample_db_failing) [],
        ([], 0%N, [ErrDriver "disk I/O error"]))
  /\ TxAttempts sample_db_failing 0 10
     = (mkDatabase (tables sample_db_failing) [],
        ([], 0%N, [ErrDriver "disk I/O error"])).
Proof.
  split; [reflexivity|].
  destruct (listings_stop_at_failing_count sample_db_failing
              (ErrDriver "disk I/O error") [] Descending 0 10 "job1"
              eq_refl) as (Hj & Ht & _).
  split; [exact Hj|exact Ht].
Defined.

Lemma GetLastNonce_is_max_of_TxFrom_witness :
  answers sample_db_pending
  /\ snd (snd (TxFrom sample_db_pending 7%N)) = []
  /\ snd (GetLastNonce sample_db_pending 7%N)
     = (fold_right N.max 0%N
          (map Tx_Nonce (fst (snd (TxFrom sample_db_pending 7%N)))), []).
Proof.
  assert (Ha : answers sample_db_pending) by constructor.
  split; [exact Ha|].
  destruct (GetLastNonce_is_max_of_TxFrom sample_db_pending 7%N Ha)
    as (He & _ & Hn).
  split; [exact He|exact Hn].
Defined.

Lemma FindTx_unknown_witness :
  (answers sample_db_pending
   /\ (forall t, In t (txes (tables sample_db_pending)) -> Tx_ID t <> 9%N)
   /\ (forall a, In a (tx_attempts (tables sample_db_pending)) ->
         TxAttempt_Hash a <> 55%N))
  /\ snd (FindTx sample_db_pending 9%N) = (Tx_zero, [ErrorNotFound])
  /\ snd (FindTxAttempt sample_db_pending 55%N)
     = (TxAttempt_zero, [ErrorNotFound]).
Proof.
  assert (Ha : answers sample_db_pending) by constructor.
  assert (Htx : forall t, In t (txes (tables sample_db_pending)) ->
                  Tx_ID t <> 9%N)
    by (intros t [<-|[<-|[<-|[]]]]; discriminate).
  assert (Hat : forall a, In a (tx_attempts (tables sample_db_pending)) ->
                  TxAttempt_Hash a <> 55%N)
    by (intros a [<-|[]]; discriminate).
  split; [split; [exact Ha|split; [exact Htx|exact Hat]]|].
  destruct (FindTx_unknown sample_db_pending 9%N 55%N Ha Htx Hat)
    as (H1 & H2 & _).
  split; [exact H1|exact H2].
Defined.

Lemma CreateTx_then_FindTx_witness :
  answers sample_db_pending
  /\ snd (FindTx (fst (CreateTx sample_db_pending 7%N 5%N 8%N [] 0%Z 21000%N))
            (Tx_ID (fst (snd (CreateTx sample_db_pending 7%N 5%N 8%N []
                                       0%Z 21000%N)))))
     = (fst (snd (CreateTx sample_db_pending 7%N 5%N 8%N [] 0%Z 21000%N)),
        []).
Proof.
  assert (Ha : answers sample_db_pending) by constructor.
  split; [exact Ha|].
  exact (proj1 (CreateTx_then_FindTx sample_db_pending 7%N 5%N 8%N [] 0%Z
                  21000%N Ha)).
Defined.

Lemma CreateTx_then_GetLastNonce_witness :
  answers sample_db_pending
  /\ snd (GetLastNonce
            (fst (CreateTx sample_db_pending 7%N 5%N 8%N [] 0%Z 21000%N))
            7%N)
     = (N.max (fst (snd (GetLastNonce sample_db_pending 7%N))) 5%N, []).
Proof.
  assert (Ha : answers sample_db_pending) by constructor.
  split; [exact Ha|].
  exact (proj1 (CreateTx_then_GetLastNonce sample_db_pending 7%N 5%N 8%N []
                  0%Z 21000%N Ha)).
Defined.

Lemma ConfirmTx_read_back_witness :
  (answers sample_db_pending
   /\ TxAttempt_Hash (mkTxAttempt 100%N 1%N 20%Z false "0xf86b01" 5%N)
      <> 0%N)
  /\ snd (snd (ConfirmTx sample_db_pending sample_tx_pending
                 (mkTxAttempt 100%N 1%N 20%Z false "0xf86b01" 5%N))) = []
  /\ Tx_Confirmed
       (fst (fst (snd (ConfirmTx sample_db_pending sample_tx_pending
                         (mkTxAttempt 100%N 1%N 20%Z false "0xf86b01"
                                      5%N))))) = true.
Proof.
  assert (Ha : answers sample_db_pending) by constructor.
  assert (Hh : TxAttempt_Hash (mkTxAttempt 100%N 1%N 20%Z false "0xf86b01"
                                           5%N) <> 0%N) by discriminate.
  split; [split; [exact Ha|exact Hh]|].
  destruct (ConfirmTx_read_back sample_db_pending sample_tx_pending
              (mkTxAttempt 100%N 1%N 20%Z false "0xf86b01" 5%N) Ha Hh)
    as (He & Hc & _).
  split; [exact He|exact Hc].
Defined.


Lemma AddTxAttempt_then_TxAttemptsFor_witness :
  (answers sample_db_pending
   /\ etx_EncodeTxToHex sample_etx2 = inl "0xf86b02")
  /\ snd (snd (TxAttemptsFor
                 (fst (AddTxAttempt sample_db_pending sample_tx_pending
                         sample_etx2 6%N))
                 (Tx_ID sample_tx_pending))) = [].
Proof.
  assert (Ha : answers sample_db_pending) by constructor.
  split; [split; [exact Ha|reflexivity]|].
  exact (proj1 (AddTxAttempt_then_TxAttemptsFor sample_db_pending
                  sample_tx_pending sample_etx2 6%N "0xf86b02" Ha eq_refl)).
Defined.

Lemma AddTxAttempt_unsaved_Tx_witness :
  (answers sample_db_pending
   /\ Tx_ID (mkTx 0%N 7%N 8%N [] 5%N 0%Z 21000%N false None) = 0%N
   /\ etx_EncodeTxToHex sample_etx2 = inl "0xf86b02")
  /\ Tx_ID (fst (fst (snd (AddTxAttempt sample_db_pending
                             (mkTx 0%N 7%N 8%N [] 5%N 0%Z 21000%N false None)
                             sample_etx2 6%N)))) <> 0%N.
Proof.
  assert (Ha : answers sample_db_pending) by constructor.
  split; [split; [exact Ha|split; reflexivity]|].
  destruct (AddTxAttempt_unsaved_Tx sample_db_pending
              (mkTx 0%N 7%N 8%N [] 5%N 0%Z 21000%N false None)
              sample_etx2 6%N "0xf86b02" Ha eq_refl eq_refl)
    as (_ & Hid & _).
  exact Hid.
Defined.

Lemma AddTxAttempt_error_keeps_attempts_witness :
  snd (snd (AddTxAttempt sample_db_failing sample_tx_pending sample_etx2 6%N))
  <> []
  /\ tx_attempts (tables (fst (AddTxAttempt sample_db_failing
                                 sample_tx_pending sample_etx2 6%N)))
     = tx_attempts (tables sample_db_failing).
Proof.
  assert (He : snd (snd (AddTxAttempt sample_db_failing sample_tx_pending
                           sample_etx2 6%N)) <> [])
    by (vm_compute; discriminate).
  split; [exact He|].
  exact (proj1 (AddTxAttempt_error_keeps_attempts sample_db_failing
                  sample_tx_pending sample_etx2 6%N He)).
Defined.

Lemma AddTxAttempt_half_saved_witness :
  (faults sample_db_failing_second
   = [None; Some (ErrDriver "disk I/O error")]
   /\ etx_EncodeTxToHex sample_etx2 = inl "0xf86b02"
   /\ Tx_Confirmed sample_tx_pending = false)
  /\ snd (snd (AddTxAttempt sample_db_failing_second sample_tx_pending
                 sample_etx2 6%N)) = [ErrDriver "disk I/O error"]
  /\ tx_attempts (tables (fst (AddTxAttempt sample_db_failing_second
                                 sample_tx_pending sample_etx2 6%N)))
     = tx_attempts (tables sample_db_failing_second)
  /\ Tx_Attempt (fst (fst (snd (AddTxAttempt sample_db_failing_second
                                  sample_tx_pending sample_etx2 6%N))))
     = Some (etx_Hash sample_etx2).
Proof.
  split; [split; [reflexivity|split; reflexivity]|].
  destruct (AddTxAttempt_half_saved sample_db_failing_second
              sample_tx_pending sample_etx2 6%N "0xf86b02"
              (ErrDriver "disk I/O error") [] eq_refl eq_refl eq_refl)
    as (He & Ht & _ & Hact).
  split; [exact He|]. split; [exact Ht|exact Hact].
Defined.

Lemma DeleteJobRun_unknown_id_witness :
  ((forall jr, In jr (job_runs (tables sample_db_runs)) ->
      JobRun_ID jr <> "r9")
   /\ (forall tr, In tr (task_runs (tables sample_db_runs)) ->
         TaskRun_JobRunID tr <> "r9"))
  /\ tables (fst (DeleteJobRun sample_db_runs "r9")) = tables sample_db_runs.
Proof.
  assert (Hjr : forall jr, In jr (job_runs (tables sample_db_runs)) ->
                  JobRun_ID jr <> "r9")
    by (intros jr [<-|[<-|[<-|[]]]]; discriminate).
  assert (Htr : forall tr, In tr (task_runs (tables sample_db_runs)) ->
                  TaskRun_JobRunID tr <> "r9")
    by (intros tr [<-|[<-|[<-|[]]]]; discriminate).
  split; [split; [exact Hjr|exact Htr]|].
  exact (proj1 (DeleteJobRun_unknown_id sample_db_runs "r9" Hjr Htr)).
Defined.

Lemma DeleteJobRun_twice_witness :
  answers sample_db_runs
  /\ snd (DeleteJobRun (fst (DeleteJobRun sample_db_runs "r3")) "r3") = []
  /\ tables (fst (DeleteJobRun (fst (DeleteJobRun sample_db_runs "r3"))
                    "r3"))
     = tables (fst (DeleteJobRun sample_db_runs "r3")).
Proof.
  assert (Ha : answers sample_db_runs) by constructor.
  split; [exact Ha|].
  destruct (DeleteJobRun_twice sample_db_runs "r3" Ha) as (_ & He & Ht & _).
  split; [exact He|exact Ht].
Defined.

Lemma DeleteJobRun_then_JobRunsFor_witness :
  answers sample_db_runs
  /\ snd (snd (JobRunsFor (fst (DeleteJobRun sample_db_runs "r3")) "job1"))
     = []
  /\ StronglySorted (falling JobRun_CreatedAt)
       (fst (snd (JobRunsFor (fst (DeleteJobRun sample_db_runs "r3"))
                             "job1"))).
Proof.
  assert (Ha : answers sample_db_runs) by constructor.
  split; [exact Ha|].
  destruct (DeleteJobRun_then_JobRunsFor sample_db_runs "r3" "job1" Ha)
    as (He & _ & Hs).
  split; [exact He|exact Hs].
Defined.

Lemma SaveInitiator_then_FindInitiator_witness :
  (answers sample_db_initiators
   /\ Initiator_ID (Initiator_with_Ran sample_initiator true) <> EmptyString)
  /\ snd (SaveInitiator sample_db_initiators
            (Initiator_with_Ran sample_initiator true)) = []
  /\ snd (FindInitiator
            (fst (SaveInitiator sample_db_initiators
                    (Initiator_with_Ran sample_initiator true)))
            (Initiator_ID (Initiator_with_Ran sample_initiator true)))
     = (Initiator_with_Ran sample_initiator true, []).
Proof.
  assert (Ha : answers sample_db_initiators) by constructor.
  assert (Hid : Initiator_ID (Initiator_with_Ran sample_initiator true)
                <> EmptyString) by discriminate.
  split; [split; [exact Ha|exact Hid]|].
  destruct (SaveInitiator_then_FindInitiator sample_db_initiators
              (Initiator_with_Ran sample_initiator true) Ha Hid)
    as (He & Hf & _).
  split; [exact He|exact Hf].
Defined.

Lemma SaveTx_then_FindTx_witness :
  answers sample_db_pending
  /\ snd (snd (SaveTx sample_db_pending sample_tx_confirmed)) = []
  /\ snd (FindTx (fst (SaveTx sample_db_pending sample_tx_confirmed))
            (Tx_ID (fst (snd (SaveTx sample_db_pending
                                sample_tx_confirmed)))))
     = (fst (snd (SaveTx sample_db_pending sample_tx_confirmed)), []).
Proof.
  assert (Ha : answers sample_db_pending) by constructor.
  split; [exact Ha|].
  destruct (SaveTx_then_FindTx sample_db_pending sample_tx_confirmed Ha)
    as (He & _ & _ & _ & Hf & _).
  split; [exact He|exact Hf].
Defined.

Lemma sample_MaxInt_upper (first : nat) (rest : list nat) (x : nat) :
  In x (first :: rest) -> x <= sample_MaxInt first rest.
Proof.
  unfold sample_MaxInt. revert first x.
  induction rest as [|y rest IH]; intros first x; cbn.
  - intros [<-|[]]. apply Nat.le_refl.
  - intros [<-|[<-|H]].
    + apply Nat.le_trans with (Nat.max first y); [apply Nat.le_max_l|].
      apply IH. now left.
    + apply Nat.le_trans with (Nat.max first y); [apply Nat.le_max_r|].
      apply IH. now left.
    + apply IH. now right.
Qed.

Lemma constantTimeEmailCompare_NUL_free_witness :
  ((forall first rest x, In x (first :: rest) ->
      x <= sample_MaxInt first rest)
   /\ contains Ascii.zero "ada@example.org" = false
   /\ contains Ascii.zero "eve@example.org" = false)
  /\ (constantTimeEmailCompare sample_MaxInt "ada@example.org"
        "eve@example.org" = true
      <-> "ada@example.org" = "eve@example.org").
Proof.
  split; [split; [exact sample_MaxInt_upper|split; reflexivity]|].
  exact (constantTimeEmailCompare_NUL_free sample_MaxInt sample_MaxInt_upper
           "ada@example.org" "eve@example.org" eq_refl eq_refl).
Defined.

Lemma constantTimeEmailCompare_trailing_NULs_witness :
  (forall first rest x, In x (first :: rest) ->
     x <= sample_MaxInt first rest)
  /\ constantTimeEmailCompare sample_MaxInt
       ("ada@example.org" ++ NULs 0) ("ada@example.org" ++ NULs 2) = true.
Proof.
  split; [exact sample_MaxInt_upper|].
  exact (constantTimeEmailCompare_trailing_NULs sample_MaxInt
           sample_MaxInt_upper "ada@example.org" 0 2).
Defined.

Lemma NewBulkDeleteRunTask_names_first_offender_witness :
  (BulkDeleteRunRequest_Status
     (mkBulkDeleteRunRequest (mkModel 0%N 0%N 0%N None)
        ["completed"; "in_progress"; "pending"] 0%N)
   = (["completed"] ++ "in_progress" :: ["pending"])%list
   /\ Forall (fun s => s = "completed" \/ s = "errored") ["completed"]
   /\ "in_progress" <> "completed"
   /\ "in_progress" <> "errored")
  /\ NewBulkDeleteRunTask "completed" "errored" sample_NewBytes32ID 0
       (mkBulkDeleteRunRequest (mkModel 0%N 0%N 0%N None)
          ["completed"; "in_progress"; "pending"] 0%N)
     = (0, (None, [Errorf "cannot delete Runs with status %s"
                          [driver.Str "in_progress"]])).
Proof.
  assert (Hok : Forall (fun s => s = "completed" \/ s = "errored")
                       ["completed"])
    by (repeat constructor).
  assert (Hc : "in_progress" <> "completed") by discriminate.
  assert (He : "in_progress" <> "errored") by discriminate.
  split; [split; [reflexivity|split; [exact Hok|split; [exact Hc|exact He]]]|].
  exact (NewBulkDeleteRunTask_names_first_offender "completed" "errored"
           sample_NewBytes32ID 0
           (mkBulkDeleteRunRequest (mkModel 0%N 0%N 0%N None)
              ["completed"; "in_progress"; "pending"] 0%N)
           ["completed"] ["pending"] "in_progress" eq_refl Hok Hc He).
Defined.

Lemma SaveJob_ties_initiators_witness :
  (forall g0, fst (sample_NewBytes32ID g0) <> EmptyString)
  /\ Forall (fun o => Initiator_JobSpecID o = "job1"
                      /\ Initiator_ID o <> EmptyString)
       (snd (range_initiators sample_NewBytes32ID 0 "job1"
               [Initiator_zero; sample_initiator])).
Proof.
  assert (Hid : forall g0, fst (sample_NewBytes32ID g0) <> EmptyString)
    by (intros g0; discriminate).
  split; [exact Hid|].
  destruct (SaveJob_ties_initiators sample_NewBytes32ID 0 "job1"
              [Initiator_zero; sample_initiator] Hid) as [H _].
  revert H.
  generalize (snd (range_initiators sample_NewBytes32ID 0 "job1"
                     [Initiator_zero; sample_initiator])).
  generalize [Initiator_zero; sample_initiator].
  induction 1 as [|i o l l' (Hj & Ho & _) _ IH]; constructor; auto.
Defined.
